(** * Seismic hazard disaggregation: the matrix engine of
      [openquake/hazardlib/calc/disagg.py]

    A shallow embedding of the bin-edge builder, the epsilon band cache
    ([get_eps4]), the exceedance kernel ([_disaggregate], [_disagg_eps]),
    the matrix accumulator ([_build_disagg_matrix]) and the [Disaggregator]
    class, followed by the properties established for them.

    The builder is modelled with all its edges ([uniform_bins], the
    epsilon edges of [numpy.linspace], the longitude and latitude edges by
    site with [assert_same_shape]) and with [get_edges_shapedic]; the class
    with [g_by_rlz] and [disagg_mag_dist_eps]. The grid of [lon_lat_bins]
    and the probability product [pprod] are collaborators.

    Number model.
    - The magnitude and the distance edges are computed in binary64
      ([double]): their bin numbers are a floor and a ceiling of a rounded
      quotient and the edges are rounded products, so the rounding decides
      which edges come out and on which side of a magnitude they fall.
    - Quantities that are only compared with bin edges or combined with
      field operations (magnitudes, distances, coordinates, epsilons, means,
      standard deviations, log-intensities) are rationals [Q]: every finite
      float is a rational and float comparison is exact, so the binning code
      runs inside Rocq. The edges enter the kernel with their values
      ([to_Q]).
    - Probabilities, rates and weights go through [exp] and the normal
      distribution and are real numbers [R]; the rounding error of their
      arithmetic is not modelled. *)

From Stdlib Require Import QArith Qround Qminmax Reals Psatz ZArith Sorted SpecFloat.
From stdpp Require Import base list strings gmap.

(** ** Python and numpy primitives *)

(** The exceptions the modelled code can raise. *)
Inductive exn : Set :=
| FarAwayRupture
| IndexError
| KeyError
| ValueError
| ZeroDivisionError
| OverflowError
| AssertionError.

Inductive result (A : Type) : Type :=
| Ok (a : A)
| Raise (e : exn).
Arguments Ok {A} a.
Arguments Raise {A} e.

Definition bind {A B} (r : result A) (k : A -> result B) : result B :=
  match r with
  | Ok a => k a
  | Raise e => Raise e
  end.

Notation "'let!' x ':=' r 'in' k" := (bind r (fun x => k))
  (at level 10, x name, r at level 100, k at level 200).

(** [assert c] of Python. *)
Definition py_assert (c : bool) : result unit :=
  if c then Ok tt else Raise AssertionError.

(** All the results of a list of computations, or the first exception. *)
Fixpoint sequence {A} (l : list (result A)) : result (list A) :=
  match l with
  | [] => Ok []
  | r :: l' => let! a := r in let! rest := sequence l' in Ok (a :: rest)
  end.

(** Indexing an axis of length [n] with a Python integer [i]: negative
    indices count from the end, anything outside [-n, n) raises. *)
Definition py_index (n : nat) (i : Z) : result nat :=
  if (0 <=? i)%Z && (i <? Z.of_nat n)%Z then Ok (Z.to_nat i)
  else if (- Z.of_nat n <=? i)%Z && (i <? 0)%Z then Ok (Z.to_nat (i + Z.of_nat n))
  else Raise IndexError.

(** [numpy.arange(a, b)] on integers. *)
Definition arange (a b : Z) : list Z :=
  map (fun i => (a + Z.of_nat i)%Z) (seq 0 (Z.to_nat (b - a))).

Definition Qlt_bool (x y : Q) : bool := negb (Qle_bool y x).

(** [numpy.searchsorted(a, v)] (side left) for an ascending [a]: the first
    index [i] with [v <= a[i]], that is [a[i-1] < v <= a[i]]. *)
Fixpoint searchsorted (a : list Q) (v : Q) : nat :=
  match a with
  | [] => 0
  | x :: a' => if Qlt_bool x v then S (searchsorted a' v) else 0
  end.

(** [numpy.digitize(x, bins)] (right=False) for ascending [bins]: the first
    index [i] with [x < bins[i]], that is [bins[i-1] <= x < bins[i]]. *)
Fixpoint digitize (x : Q) (bins : list Q) : nat :=
  match bins with
  | [] => 0
  | b :: bins' => if Qle_bool b x then S (digitize x bins') else 0
  end.

(** Rounding to the nearest integer, ties to the even one. *)
Definition round_half_even (q : Q) : Z :=
  let f := Qfloor q in
  match (q - inject_Z f ?= 1 # 2)%Q with
  | Lt => f
  | Gt => (f + 1)%Z
  | Eq => if Z.even f then f else (f + 1)%Z
  end.

Definition Qminimum (x : Q) (l : list Q) : Q := fold_right Qmin x l.
Definition Qmaximum (x : Q) (l : list Q) : Q := fold_right Qmax x l.

(** ** Doubles

    The bin numbers of the magnitude and distance edges are the floor and
    the ceiling of a quotient of doubles, and the edges are products of
    doubles: which integer and which edge come out depends on the rounding
    of each operation. This part of the builder is therefore computed in
    IEEE-754 binary64, with the operations of [SpecFloat] (rounding to
    nearest, ties to even). *)
Definition double : Type := spec_float.

Definition prec : Z := 53.
Definition emax : Z := 1024.

Definition fmul : double -> double -> double := SFmul prec emax.
Definition fdiv : double -> double -> double := SFdiv prec emax.
Definition fadd : double -> double -> double := SFadd prec emax.
Definition fleb : double -> double -> bool := SFleb.

(** [float(n)] of an integer: the nearest double. *)
Definition of_Z (n : Z) : double := binary_normalize prec emax n 0 false.

(** The double nearest to a rational: the double itself when the rational
    is the value of one, and the double that Python reads from a decimal
    literal otherwise. The quotient of the two integers is rounded once. *)
Definition of_Q (q : Q) : double :=
  match Qnum q with
  | Z0 => S754_zero false
  | Zpos n => fdiv (S754_finite false n 0) (S754_finite false (Qden q) 0)
  | Zneg n => fdiv (S754_finite true n 0) (S754_finite false (Qden q) 0)
  end.

(** The value of a finite double, in lowest terms. The infinities and nan
    have no value, and 0 stands for them here; the builders below apply
    [to_Q] to their edges, which are finite unless a product overflows. *)
Definition to_Q (x : double) : Q :=
  match x with
  | S754_finite s m e =>
      let n := if s then Z.neg m else Z.pos m in
      match e with
      | Z.neg k => Qred (n # 2 ^ k)
      | _ => inject_Z (n * 2 ^ e)
      end
  | _ => 0
  end.

Definition sign_bit (x : double) : bool :=
  match x with
  | S754_zero s | S754_infinity s | S754_finite s _ _ => s
  | S754_nan => false
  end.

(** [numpy.floor] and [numpy.ceil] of a double: a double again, the
    argument itself when it is a zero, an infinity or nan. *)
Definition np_floor (x : double) : double :=
  match x with
  | S754_finite s _ _ => binary_normalize prec emax (Qfloor (to_Q x)) 0 s
  | _ => x
  end.

Definition np_ceil (x : double) : double :=
  match x with
  | S754_finite s _ _ => binary_normalize prec emax (Qceiling (to_Q x)) 0 s
  | _ => x
  end.

(** [int(x)] of a double: truncation, which raises on an infinity and on
    nan. *)
Definition py_int (x : double) : result Z :=
  match x with
  | S754_zero _ => Ok 0%Z
  | S754_finite true _ _ => Ok (Qceiling (to_Q x))
  | S754_finite false _ _ => Ok (Qfloor (to_Q x))
  | S754_infinity _ => Raise OverflowError
  | S754_nan => Raise ValueError
  end.

(** [x / y] of Python floats. *)
Definition py_div (x y : double) : result double :=
  match y with
  | S754_zero _ => Raise ZeroDivisionError
  | _ => Ok (fdiv x y)
  end.

(** [round(x, 3)] of a Python float: the value of [x] is rounded to three
    decimals, ties to even, and the decimal is read back as a double. *)
Definition py_round3 (x : double) : double :=
  match x with
  | S754_finite _ _ _ =>
      match round_half_even (to_Q x * 1000) with
      | Z0 => S754_zero (sign_bit x)
      | n => of_Q (n # 1000)
      end
  | _ => x
  end.

(** ** Bin edge builder: magnitude edges *)

(** The fields of the job parameters [oq] that the magnitude edges read.
    [disagg_bin_edges_mag] is [oq.disagg_bin_edges.get('mag')]. The width
    and the magnitudes are given as rationals and read as doubles by
    [of_Q]. *)
Record OqParam (trt : Type) : Type := {
  mag_bin_width : Q;
  mags_by_trt : list (trt * list Q);
  disagg_bin_edges_mag : option (list Q)
}.
Arguments mag_bin_width {trt} _.
Arguments mags_by_trt {trt} _.
Arguments disagg_bin_edges_mag {trt} _.

(** The magnitudes of all tectonic region types together; the source
    collects them in a set and sorts it, and reads its first and last
    element, which are the minimum and the maximum computed here. *)
Definition all_mags {trt} (oq : OqParam trt) : list Q :=
  concat (map snd (mags_by_trt oq)).

(** The [mag_edges] of [_build_bin_edges], with the value of each edge.
    Indexing the empty list of magnitudes raises; the test [n2 == n1] comes
    first and the rounded product is computed only when it fails. The bin
    numbers are taken to fit the 64-bit integers of [numpy.arange]; an edge
    is then finite unless the width is beyond [10^289]. *)
Definition build_mag_edges {trt} (oq : OqParam trt) : result (list Q) :=
  match disagg_bin_edges_mag oq with
  | Some edges => Ok edges
  | None =>
      match all_mags oq with
      | [] => Raise IndexError
      | m :: ms =>
          let mag_bin_width := of_Q (mag_bin_width oq) in
          let min_mag := of_Q (Qminimum m ms) in
          let max_mag := of_Q (Qmaximum m ms) in
          let! q1 := py_div min_mag mag_bin_width in
          let! n1 := py_int (np_floor q1) in
          let! q2 := py_div max_mag mag_bin_width in
          let! n2 := py_int (np_ceil q2) in
          let n2 :=
            if (n2 =? n1)%Z
               || fleb (py_round3 (fmul mag_bin_width (of_Z n2))) max_mag
            then (n2 + 1)%Z else n2 in
          Ok (map (fun n => to_Q (fmul mag_bin_width (of_Z n)))
                (arange n1 (n2 + 1)))
      end
  end.

(** ** Bin edge builder: distance, longitude, latitude and epsilon edges *)

(** [uniform_bins] on Python floats: each division raises on a zero width,
    and the ceiling is a double to which 1 is added before the conversion
    to an integer. *)
Definition uniform_bins (min_value max_value bin_width : double)
  : result (list double) :=
  let! q1 := py_div min_value bin_width in
  let! n1 := py_int (np_floor q1) in
  let! q2 := py_div max_value bin_width in
  let! n2 := py_int (fadd (np_ceil q2) (of_Z 1)) in
  Ok (map (fun n => fmul bin_width (of_Z n)) (arange n1 n2)).

(** [numpy.linspace(start, stop, num)]: [num] samples, the last one set to
    [stop]. *)
Definition linspace (start stop : Q) (num : nat) : list Q :=
  match num with
  | 0%nat => []
  | 1%nat => [start]
  | S (S _ as div) =>
      let step := ((stop - start) / inject_Z (Z.of_nat div))%Q in
      map (fun i => (inject_Z (Z.of_nat i) * step + start)%Q) (seq 0 div) ++ [stop]
  end.

(** A site of the site collection: its id and the coordinates of its
    location. *)
Record Site : Type := {
  site_id : nat;
  loc_x : Q;
  loc_y : Q
}.

(** The job parameters [oq] read by [_build_bin_edges] and
    [get_edges_shapedic]. [maxdist] is
    [filters.upper_maxdist(oq.maximum_distance)]; the fields
    [disagg_bin_edges_*] are [oq.disagg_bin_edges.get(...)]. The distance
    edges read [maxdist] and [distance_bin_width] as doubles. *)
Record DisaggParams (trt : Type) : Type := {
  mag_params : OqParam trt;
  distance_bin_width : Q;
  coordinate_bin_width : Q;
  maxdist : Q;
  num_epsilon_bins : nat;
  job_truncation_level : Q;
  disagg_bin_edges_dist : option (list Q);
  disagg_bin_edges_lon : option (list Q);
  disagg_bin_edges_lat : option (list Q);
  disagg_bin_edges_eps : option (list Q);
  rlz_index : option (list nat);
  num_rlzs_disagg : nat;
  job_imtls : list string;
  poes_disagg : list R
}.
Arguments mag_params {trt} _.
Arguments distance_bin_width {trt} _.
Arguments coordinate_bin_width {trt} _.
Arguments maxdist {trt} _.
Arguments num_epsilon_bins {trt} _.
Arguments job_truncation_level {trt} _.
Arguments disagg_bin_edges_dist {trt} _.
Arguments disagg_bin_edges_lon {trt} _.
Arguments disagg_bin_edges_lat {trt} _.
Arguments disagg_bin_edges_eps {trt} _.
Arguments rlz_index {trt} _.
Arguments num_rlzs_disagg {trt} _.
Arguments job_imtls {trt} _.
Arguments poes_disagg {trt} _.

(** The loop of [assert_same_shape]; the shape of a one-dimensional array
    is its length. *)
Fixpoint assert_shapes (shape : nat) (arrays : list (list Q)) : result unit :=
  match arrays with
  | [] => Ok tt
  | arr :: rest =>
      let! _ := py_assert (length arr =? shape)%nat in assert_shapes shape rest
  end.

Definition assert_same_shape (arrays : list (list Q)) : result unit :=
  match arrays with
  | [] => Raise IndexError
  | arr0 :: rest => assert_shapes (length arr0) rest
  end.

(** The [dist_edges] of [_build_bin_edges]:
    [uniform_bins(0, maxdist, distance_bin_width)] on doubles, with the
    value of each edge. *)
Definition build_dist_edges {trt} (oq : DisaggParams trt) : result (list Q) :=
  match disagg_bin_edges_dist oq with
  | Some edges => Ok edges
  | None =>
      let! edges := uniform_bins (of_Z 0) (of_Q (maxdist oq))
                      (of_Q (distance_bin_width oq)) in
      Ok (map to_Q edges)
  end.

(** The [eps_edges] of [_build_bin_edges]. *)
Definition build_eps_edges {trt} (oq : DisaggParams trt) : list Q :=
  match disagg_bin_edges_eps oq with
  | Some edges => edges
  | None =>
      linspace (- job_truncation_level oq) (job_truncation_level oq)
        (num_epsilon_bins oq + 1)
  end.

(** The shape dictionary of [get_edges_shapedic]: a number of bins is a
    length minus one, which is [-1] for an empty array of edges. *)
Record ShapeDic : Type := {
  shape_mag : Z;
  shape_dist : Z;
  shape_lon : Z;
  shape_lat : Z;
  shape_eps : Z;
  shape_trt : nat;
  shape_N : nat;
  shape_M : nat;
  shape_P : nat;
  shape_Z : option nat
}.

(** ** Arrays of probabilities *)

(** The trailing axes (epsilon, intensity measure type, poe level) of the
    probability arrays are modelled by an index function: every operation
    of the source on them is elementwise. *)
Definition arr3 : Type := nat -> nat -> nat -> R.

Definition ones3 : arr3 := fun _ _ _ => 1%R.
Definition mul3 (a b : arr3) : arr3 := fun e m p => (a e m p * b e m p)%R.

(** A matrix over the leading axes (distance, longitude, latitude). *)
Abbreviation matrix := (list (list (list arr3))).

Definition cell_at (mat : matrix) (i j k : nat) : option arr3 :=
  row ← mat !! i; col ← row !! j; col !! k.

(** [mat[i, j, k] = f(mat[i, j, k])] for in-range natural indices. *)
Definition alter3 (f : arr3 -> arr3) (i j k : nat) (mat : matrix) : matrix :=
  alter (alter (alter f k) j) i mat.

Definition Rsum (l : list R) : R := fold_right Rplus 0%R l.
Definition Rprod (l : list R) : R := fold_right Rmult 1%R l.

(** A log-intensity: [-inf] marks zero hazard. *)
Inductive ext : Set :=
| NegInf
| Fin (q : Q).

(** One row of a context recarray. *)
Record Rupture : Type := {
  sids : nat;
  src_id : nat;
  mag : Q;
  rrup : Q;
  clon : Q;
  clat : Q;
  occurrence_rate : R;
  probs_occur : list R
}.

(** What the kernel reads of a [ContextMaker]; [time_span] is
    [cmaker.tom.time_span]. *)
Record ContextMaker : Type := {
  truncation_level : Q;
  phi_b : R;
  time_span : R;
  imtls : list string;
  imts : list string;
  epsilon_star : bool
}.

Record BinData : Type := {
  dists : list Q;
  lons : list Q;
  lats : list Q;
  pnes : list arr3
}.

(** The bin edges of a job: longitude and latitude edges are by site id. *)
Record JobBinEdges : Type := {
  job_mag_edges : list Q;
  job_dist_edges : list Q;
  job_lon_edges : gmap nat (list Q);
  job_lat_edges : gmap nat (list Q);
  job_eps_edges : list Q
}.

(** The five bin edges of one site: mag, dist, lon, lat, eps. *)
Record BinEdges : Type := {
  mag_edges : list Q;
  dist_edges : list Q;
  lon_edges : list Q;
  lat_edges : list Q;
  eps_edges : list Q
}.

(** [numpy.digitize(xs, bins) - 1] *)
Definition digitize_minus_1 (xs bins : list Q) : list Z :=
  map (fun x => (Z.of_nat (digitize x bins) - 1)%Z) xs.

(** [idx[idx == dim] = dim - 1] *)
Definition fold_last (dim : Z) (idx : list Z) : list Z :=
  map (fun i => if (i =? dim)%Z then (dim - 1)%Z else i) idx.

(** [mat6D[i_dist, i_lon, i_lat] *= pne] for every rupture in turn. *)
Fixpoint accumulate (D Lo La : nat) (mat : matrix)
    (rups : list (Z * Z * Z * arr3)) : result matrix :=
  match rups with
  | [] => Ok mat
  | (i_dist, i_lon, i_lat, pne) :: rest =>
      let! i := py_index D i_dist in
      let! j := py_index Lo i_lon in
      let! k := py_index La i_lat in
      accumulate D Lo La (alter3 (fun c => mul3 c pne) i j k mat) rest
  end.

(** Whether the rupture with bin indices [r] is multiplied into the
    cell [(i, j, k)] of a matrix of shape [(D, Lo, La)]. *)
Definition lands_in (D Lo La : nat) (i j k : nat) (r : Z * Z * Z * arr3) : bool :=
  match py_index D r.1.1.1, py_index Lo r.1.1.2, py_index La r.1.2 with
  | Ok i', Ok j', Ok k' => (i =? i')%nat && (j =? j')%nat && (k =? k')%nat
  | _, _, _ => false
  end.

Definition zip4 {A B C D} (a : list A) (b : list B) (c : list C) (d : list D)
  : list (A * B * C * D) :=
  zip (zip (zip a b) c) d.

(** [numpy.average(mats, weights=weights, axis=0)] at one cell. *)
Definition average_cell (weights : list R) (cells : list arr3) : arr3 :=
  fun e m p =>
    (Rsum (zip_with (fun w c => c e m p * w) weights cells) / Rsum weights)%R.

(** The shape of a matrix over its leading axes. *)
Definition skeleton (mat : matrix) : list (list (list unit)) :=
  map (map (map (fun _ => tt))) mat.

(** Stacking arrays of different shapes raises, as do weights whose length
    is not the number of arrays, and weights that sum to zero. Once the
    shapes agree every array has the cells of the first one. *)
Definition average (mats : list matrix) (weights : list R) : result matrix :=
  let first := default [] (head mats) in
  if negb (forallb (fun mat => bool_decide (skeleton mat = skeleton first)) mats)
  then Raise ValueError
  else if negb (length mats =? length weights)%nat then Raise ValueError
  else if Req_dec_T (Rsum weights) 0 then Raise ZeroDivisionError
  else
    Ok (imap (fun i row =>
          imap (fun j col =>
            imap (fun k (_ : arr3) =>
              average_cell weights
                (map (fun mat => default ones3 (cell_at mat i j k)) mats))
              col) row)
          first).

(** ** State of the Disaggregator *)

(** The state [__init__] leaves. *)
Record Disaggregator : Type := {
  sid : nat;
  cmaker : ContextMaker;
  epsstar : bool;
  bin_edges : BinEdges;
  fullmagi : list Z;
  fullctx : list Rupture
}.

(** The mutually exclusive sources of a group, and the rows of each in the
    sorted context. *)
Record SrcMutex : Type := {
  mutex_src_id : list nat;
  mutex_weight : list R;
  mutex_start : list nat;
  mutex_stop : list nat
}.

(** The state [init] adds for one magnitude bin. *)
Record MagBin : Type := {
  dis : Disaggregator;
  magi : Z;
  src_mutex : option SrcMutex;
  ctx : list Rupture;
  mea : nat -> nat -> nat -> Q;
  std : nat -> nat -> nat -> Q;
  weights : list R
}.

(** ** Sample inputs and collaborators

    Concrete values at which the properties below are instantiated. *)

Module Sample.

Definition rup (src : nat) (m d lo la : Q) (rate : R) (probs : list R) : Rupture :=
  {| sids := 0; src_id := src; mag := m; rrup := d; clon := lo; clat := la;
     occurrence_rate := rate; probs_occur := probs |}.

(** A distribution with all its mass at 0. *)
Definition cdf (tl x : Q) : R := if Qlt_bool x 0 then 0%R else 1%R.
Definition sf (phi_b : R) (x : Q) : R := (1 - cdf 0 x)%R.

(** The Poissonian formula, clipped to [0, 1]. *)
Definition pnes (rate : R) (probs : list R) (poes : arr3) (time_span : R) : arr3 :=
  fun e m p => Rmax 0 (Rmin 1 (exp (- rate * time_span * poes e m p))).

Definition no_idl (lon1 lon2 : Q) : bool := false.
Definition extent (lon1 lon2 : Q) : Q := (lon2 - lon1)%Q.
Definition identity_values (iml : Q) (imt : string) : ext := Fin iml.
Definition no_srcs (cm : ContextMaker) (srcs : list unit) (sid : nat)
  : list (list Rupture) := [].

Definition cm : ContextMaker :=
  {| truncation_level := 3; phi_b := 1; time_span := 1;
     imtls := ["PGA"%string]; imts := ["PGA"%string]; epsilon_star := false |}.

Definition job_edges : JobBinEdges :=
  {| job_mag_edges := [5; 6; 7]%Q;
     job_dist_edges := [0; 10; 20]%Q;
     job_lon_edges := {[ 0%nat := [-1; 1]%Q ]};
     job_lat_edges := {[ 0%nat := [-1; 1]%Q ]};
     job_eps_edges := [-3; 0; 3]%Q |}.

Definition edges : BinEdges :=
  {| mag_edges := [5; 7]%Q; dist_edges := [0; 10]%Q; lon_edges := [-1; 1]%Q;
     lat_edges := [-1; 1]%Q; eps_edges := [-3; 0; 3]%Q |}.

(** A magnitude bin with one rupture of rate 1 of source 0 and one of rate
    2 of source 1, both in the only (distance, longitude, latitude) cell,
    the sources being mutually exclusive with weights 1/2 and 1/2. *)
Definition mutex_state (w0 w1 : R) : MagBin :=
  let rups := [rup 0 6 5 0 0 1 []; rup 1 6 5 0 0 2 []] in
  {| dis := {| sid := 0; cmaker := cm; epsstar := false; bin_edges := edges;
               fullmagi := [0; 0]%Z; fullctx := rups |};
     magi := 0;
     src_mutex := Some {| mutex_src_id := [0; 1]%nat; mutex_weight := [w0; w1];
                          mutex_start := [0; 1]%nat; mutex_stop := [1; 2]%nat |};
     ctx := rups;
     mea := fun _ _ _ => 0%Q;
     std := fun _ _ _ => 1%Q;
     weights := [w0; w1] |}.

End Sample.

(** Sample job parameters: one tectonic region type, magnitudes 5 to 6.5,
    distances up to 25 km in bins of 10 km, four epsilon bins on [-3, 3]. *)
Module SampleJob.

Definition oq : DisaggParams unit :=
  {| mag_params := {| mag_bin_width := 1 # 2;
                      mags_by_trt := [(tt, [5; 13 # 2]); (tt, [11 # 2])]%Q;
                      disagg_bin_edges_mag := None |};
     distance_bin_width := 10;
     coordinate_bin_width := 1;
     maxdist := 25;
     num_epsilon_bins := 4;
     job_truncation_level := 3;
     disagg_bin_edges_dist := None;
     disagg_bin_edges_lon := None;
     disagg_bin_edges_lat := None;
     disagg_bin_edges_eps := None;
     rlz_index := None;
     num_rlzs_disagg := 0;
     job_imtls := ["PGA"%string];
     poes_disagg := [] |}.

(** The same job with the longitude edges given and the latitude edges
    not. *)
Definition oq_lon_only : DisaggParams unit :=
  {| mag_params := mag_params oq;
     distance_bin_width := 10; coordinate_bin_width := 1; maxdist := 25;
     num_epsilon_bins := 4; job_truncation_level := 3;
     disagg_bin_edges_dist := None;
     disagg_bin_edges_lon := Some [-1; 0; 1]%Q;
     disagg_bin_edges_lat := None;
     disagg_bin_edges_eps := None;
     rlz_index := None; num_rlzs_disagg := 0;
     job_imtls := ["PGA"%string]; poes_disagg := [] |}.

(** The same job with both the longitude and the latitude edges given. *)
Definition oq_lon_lat : DisaggParams unit :=
  {| mag_params := mag_params oq;
     distance_bin_width := 10; coordinate_bin_width := 1; maxdist := 25;
     num_epsilon_bins := 4; job_truncation_level := 3;
     disagg_bin_edges_dist := None;
     disagg_bin_edges_lon := Some [-1; 0; 1]%Q;
     disagg_bin_edges_lat := Some [-1; 1]%Q;
     disagg_bin_edges_eps := None;
     rlz_index := None; num_rlzs_disagg := 0;
     job_imtls := ["PGA"%string]; poes_disagg := [] |}.

Definition site0 : Site := {| site_id := 0; loc_x := 0; loc_y := 0 |}.
Definition site7 : Site := {| site_id := 7; loc_x := 0; loc_y := 0 |}.

(** A grid of two cells around the site. *)
Definition grid (lon lat size_km width : Q) : list Q * list Q :=
  ([lon - 1; lon; lon + 1]%Q, [lat - 1; lat; lat + 1]%Q).

(** The probability product over the longitude and latitude axes. *)
Definition pprod (mat : matrix) : list arr3 :=
  map (fun row => fun e m p =>
         (1 - Rprod (map (fun c : arr3 => 1 - c e m p) (concat row)))%R) mat.

(** A disaggregator with two ruptures of magnitude 5.5 and 6.5 on the
    magnitude edges 5, 6, 7. *)
Definition two_bins : Disaggregator :=
  {| sid := 0; cmaker := Sample.cm; epsstar := false;
     bin_edges := {| mag_edges := [5; 6; 7]%Q; dist_edges := [0; 10]%Q;
                     lon_edges := [-1; 1]%Q; lat_edges := [-1; 1]%Q;
                     eps_edges := [-3; 0; 3]%Q |};
     fullmagi := [0; 1]%Z;
     fullctx := [Sample.rup 0 (11 # 2) 5 0 0 1 []; Sample.rup 0 (13 # 2) 5 0 0 1 []] |}.

(** Two longitudes on the two sides of the date line. *)
Definition idl (lon1 lon2 : Q) : bool :=
  Qlt_bool (lon1 * lon2) 0
  && (Qlt_bool 180 (lon1 - lon2) || Qlt_bool 180 (lon2 - lon1)).

(** Means 0 and standard deviations 1 for every rupture. *)
Definition mean_stds (cm : ContextMaker) (c : list Rupture)
  : (nat -> nat -> nat -> Q) * (nat -> nat -> nat -> Q) :=
  (fun _ _ _ => 0%Q, fun _ _ _ => 1%Q).

(** One run for the whole array. *)
Definition one_run (src_ids : list nat) : list (nat * nat * nat) :=
  [(default 0%nat (head src_ids), 0%nat, length src_ids)].

Definition keep_order (c : list Rupture) : list Rupture := c.

(** A magnitude bin with one rupture, of the only source of a group of
    mutually exclusive sources, which has weight [w]. *)
Definition single_mutex (w : R) : MagBin :=
  let rups := [Sample.rup 0 6 5 0 0 1 []] in
  {| dis := {| sid := 0; cmaker := Sample.cm; epsstar := false;
               bin_edges := Sample.edges; fullmagi := [0]%Z; fullctx := rups |};
     magi := 0;
     src_mutex := Some {| mutex_src_id := [0]%nat; mutex_weight := [w];
                          mutex_start := [0]%nat; mutex_stop := [1]%nat |};
     ctx := rups;
     mea := fun _ _ _ => 0%Q;
     std := fun _ _ _ => 1%Q;
     weights := [w] |}.

(** The runs of equal integers of a list with their start and stop, from
    the position [start] on; [runs] is what [idx_start_stop] returns. *)
Fixpoint runs_from (start : nat) (l : list nat) : list (nat * nat * nat) :=
  match l with
  | [] => []
  | x :: l' =>
      match runs_from (S start) l' with
      | (y, s, e) :: rest =>
          if (x =? y)%nat then (x, start, e) :: rest
          else (x, start, S start) :: (y, s, e) :: rest
      | [] => [(x, start, S start)]
      end
  end.

Definition runs (l : list nat) : list (nat * nat * nat) := runs_from 0 l.

(** A stable sort by source id. *)
Fixpoint insert_by_src (r : Rupture) (l : list Rupture) : list Rupture :=
  match l with
  | [] => [r]
  | x :: l' =>
      if (src_id r <=? src_id x)%nat then r :: l else x :: insert_by_src r l'
  end.

Definition sort_src (c : list Rupture) : list Rupture :=
  fold_right insert_by_src [] c.

(** A disaggregator with one rupture of rate 2 of source 1 followed by one
    of rate 1 of source 0, both in the only magnitude bin and the only
    (distance, longitude, latitude) cell. *)
Definition two_sources : Disaggregator :=
  {| sid := 0; cmaker := Sample.cm; epsstar := false; bin_edges := Sample.edges;
     fullmagi := [0; 0]%Z;
     fullctx := [Sample.rup 1 6 5 0 0 2 []; Sample.rup 0 6 5 0 0 1 []] |}.

(** The listing of the two mutually exclusive sources 0 and 1 with their
    weights; [init] fills in the rows. *)
Definition listing (w0 w1 : R) : SrcMutex :=
  {| mutex_src_id := [0; 1]%nat; mutex_weight := [w0; w1];
     mutex_start := []; mutex_stop := [] |}.

End SampleJob.

(** Bin widths and magnitudes at which the magnitude edges are computed,
    for one tectonic region type and no edges given. *)
Module SampleMags.

Definition job (width : Q) (mags : list Q) : OqParam unit :=
  {| mag_bin_width := width; mags_by_trt := [(tt, mags)];
     disagg_bin_edges_mag := None |}.

(** Width 0.0625, magnitudes 6.25 and 6.4375: the three are doubles. *)
Definition sixteenths : OqParam unit := job (1 # 16) [25 # 4; 103 # 16]%Q.

(** Width 0.1, magnitude 3.4. *)
Definition tenths : OqParam unit := job (1 # 10) [34 # 10]%Q.

(** Width 0.0003, magnitudes 5.14 and 5.1429. *)
Definition fine : OqParam unit := job (3 # 10000) [514 # 100; 51429 # 10000]%Q.

End SampleMags.

(** ** The engine, over its external collaborators *)

Section Engine.

(** [tn_cdf tl x] is [scipy.stats.truncnorm(-tl, tl).cdf(x)]. *)
Variable tn_cdf : Q -> Q -> R.
(** [truncnorm_sf phi_b x] of [openquake.hazardlib.stats]. *)
Variable truncnorm_sf : R -> Q -> R.
(** [get_pnes rate probs poes time_span] of [openquake.hazardlib.tom]. *)
Variable get_pnes : R -> list R -> arr3 -> R -> arr3.
(** [cross_idl] and [get_longitudinal_extent] of
    [openquake.hazardlib.geo.utils]. *)
Variable cross_idl : Q -> Q -> bool.
Variable get_longitudinal_extent : Q -> Q -> Q.
(** [to_distribution_values] of [openquake.hazardlib.gsim.base], on one
    value. *)
Variable to_distribution_values : Q -> string -> ext.
(** [cmaker.get_mean_stds([ctx], split_by_mag=True)[:2]]: the arrays [mea]
    and [std], read as [mea g m u]. *)
Variable get_mean_stds :
  ContextMaker -> list Rupture -> (nat -> nat -> nat -> Q) * (nat -> nat -> nat -> Q).
(** [cmaker.from_srcs(srcs, sitecol)] for a type [source] of sources. *)
Variable source : Type.
Variable from_srcs : ContextMaker -> list source -> nat -> list (list Rupture).
(** [idx_start_stop] of [openquake.baselib.performance]: for each run of
    equal integers its value, start and stop. *)
Variable idx_start_stop : list nat -> list (nat * nat * nat).

(** [ctx.sort(order='src_id')]: numpy breaks ties with the remaining
    fields in the order of the dtype, which the model does not have; the
    sort is a collaborator. *)
Variable sort_by_src_id : list Rupture -> list Rupture.

(** What the range of the results rests on: the collaborators behave as
    a distribution. The CDF is non-decreasing and at most one and the
    survival function is its complement. *)
Definition distribution_like (cm : ContextMaker) : Prop :=
  (forall x y, (x <= y)%Q ->
     (tn_cdf (truncation_level cm) x <= tn_cdf (truncation_level cm) y)%R) /\
  (forall x, (tn_cdf (truncation_level cm) x <= 1)%R) /\
  (forall x, truncnorm_sf (phi_b cm) x = (1 - tn_cdf (truncation_level cm) x)%R).

(** [get_pnes] returns probabilities where it is meant to be called: for
    a non-negative rate, a non-negative time span and non-negative
    probabilities of exceedance. *)
Definition pnes_in_range : Prop :=
  forall rate probs poes t,
    (0 <= rate)%R -> (0 <= t)%R -> (forall e m p, (0 <= poes e m p)%R) ->
    forall e m p, (0 <= get_pnes rate probs poes t e m p <= 1)%R.

(** Some rupture of the batch carries [probs_occur]: the kernel then calls
    [get_pnes] for every rupture of the batch, and for no rupture
    otherwise. *)
Definition non_poissonian (c : list Rupture) : Prop :=
  exists rec, rec ∈ c /\ probs_occur rec <> [].

(** *** Epsilon band cache *)

Definition get_eps4 (eps_edges : list Q) (truncation_level : Q)
  : result (Q * Q * list R * list R) :=
  let cdf := tn_cdf truncation_level in
  let eps_bands :=
    zip_with (fun hi lo => (cdf hi - cdf lo)%R) (tail eps_edges) (removelast eps_edges) in
  let elist := seq 0 (length eps_bands) in
  let eps_cum := map (fun e => Rsum (drop e eps_bands)) elist ++ [0%R] in
  match eps_edges with
  | [] => Raise ValueError
  | x :: xs => Ok (Qminimum x xs, Qmaximum x xs, eps_bands, eps_cum)
  end.

(** *** Exceedance kernel *)

(** One cell [res[u, e]] of [_disagg_eps] after the loop over [e]: the
    band mass for the bins at or right of the located index [bin], the
    remainder for the bin that holds the residual, zero elsewhere. *)
Definition disagg_eps_cell (survival : R) (bin : nat) (cum_bands : list R)
    (e : nat) (eps_band : R) : result R :=
  if (bin <=? e)%nat then Ok eps_band
  else if (bin =? e + 1)%nat then
    match cum_bands !! bin with
    | Some c => Ok (survival - c)%R
    | None => Raise IndexError
    end
  else Ok 0%R.

(** The result has shape (U, E); a mask [inside] of another length than
    [survival], or an index outside [cum_bands], raises. *)
Definition _disagg_eps (survival : list R) (bins : list nat)
    (eps_bands cum_bands : list R) : result (list (list R)) :=
  if negb (length survival =? length bins)%nat then Raise IndexError
  else
    sequence
      (zip_with (fun s b => sequence (imap (disagg_eps_cell s b cum_bands) eps_bands))
         survival bins).

(** The (U, E) slice [poes[:, :, m, p]] for one intensity level. A zero
    standard deviation gives inf or nan in the source and, by the
    convention of [Qdiv], a zero residual here; the callers keep the
    standard deviations positive. *)
Definition poes_slice (ctx_len : nat) (mea std : nat -> nat -> nat -> Q)
    (cmaker : ContextMaker) (g m : nat) (eps_edges : list Q)
    (min_eps max_eps : Q) (eps_bands cum_bands : list R) (epsstar : bool)
    (iml : ext) : result (list (list R)) :=
  let E := length eps_bands in
  match iml with
  | NegInf => Ok (replicate ctx_len (replicate E 0%R))
  | Fin iml =>
      let lvls := map (fun u => ((iml - mea g m u) / std g m u)%Q) (seq 0 ctx_len) in
      let idxs := map (searchsorted eps_edges) lvls in
      if epsstar then
        sequence
          (zip_with (fun lvl idx =>
             if Qle_bool min_eps lvl && Qlt_bool lvl max_eps then
               let! e := py_index E (Z.of_nat idx - 1) in
               Ok (<[e := truncnorm_sf (phi_b cmaker) lvl]> (replicate E 0%R))
             else Ok (replicate E 0%R))
           lvls idxs)
      else
        _disagg_eps (map (truncnorm_sf (phi_b cmaker)) lvls) idxs eps_bands cum_bands
  end.

(** The block "disagg by eps": the slices for every (m, p) of [iml2]. *)
Definition disagg_by_eps (ctx_len : nat) (mea std : nat -> nat -> nat -> Q)
    (cmaker : ContextMaker) (g : nat) (iml2 : list (list ext))
    (eps_edges : list Q) (epsstar : bool)
  : result (nat * list (list (list (list R)))) :=
  let! eps4 := get_eps4 eps_edges (truncation_level cmaker) in
  let '(min_eps, max_eps, eps_bands, cum_bands) := eps4 in
  let! slices :=
    sequence (imap (fun m row =>
      sequence (map (poes_slice ctx_len mea std cmaker g m eps_edges
                       min_eps max_eps eps_bands cum_bands epsstar) row)) iml2) in
  Ok (length eps_bands, slices).

(** [poes[u]], of shape (E, M, P), read from the slices. *)
Definition poes_of (slices : list (list (list (list R)))) (u : nat) : arr3 :=
  fun e m p =>
    default 0%R (sl ← slices !! m; t ← sl !! p; row ← t !! u; row !! e).

(** The block "multiplying pnes". *)
Definition multiplying_pnes (ctx : list Rupture) (poes : nat -> arr3)
    (time_span : R) : list arr3 :=
  if existsb (fun rec => negb (length (probs_occur rec) =? 0)%nat) ctx then
    imap (fun u rec =>
      mul3 ones3 (get_pnes (occurrence_rate rec) (probs_occur rec) (poes u) time_span))
      ctx
  else
    imap (fun u rec =>
      mul3 ones3 (fun e m p => exp (- occurrence_rate rec * poes u e m p * time_span)))
      ctx.

(** *** Matrix accumulator *)

Definition _digitize_lons (lons lon_bins : list Q) : result (list Z) :=
  match lon_bins with
  | [] => Raise IndexError
  | b0 :: _ =>
      if cross_idl b0 (List.last lon_bins b0) then
        Ok (map (fun lon =>
              fold_left (fun idx i_lon =>
                let right := Qlt_bool 0 (get_longitudinal_extent lon
                                           (nth (i_lon + 1) lon_bins 0%Q)) in
                let left := (i_lon =? 0)%nat
                            || Qle_bool 0 (get_longitudinal_extent
                                             (nth i_lon lon_bins 0%Q) lon) in
                if right && left then Z.of_nat i_lon else idx)
                (seq 0 (length lon_bins - 1)) 0%Z) lons)
      else Ok (digitize_minus_1 lons lon_bins)
  end.

Definition _build_disagg_matrix (bdata : BinData)
    (bins : list Q * list Q * list Q * list Q) : result matrix :=
  let '(dist_bins, lon_bins, lat_bins, eps_bins) := bins in
  let dim1 := (Z.of_nat (length dist_bins) - 1)%Z in
  let dim2 := (Z.of_nat (length lon_bins) - 1)%Z in
  let dim3 := (Z.of_nat (length lat_bins) - 1)%Z in
  let dim4 := (Z.of_nat (length eps_bins) - 1)%Z in
  let dists_idx := digitize_minus_1 (dists bdata) dist_bins in
  let! lons_idx := _digitize_lons (lons bdata) lon_bins in
  let lats_idx := digitize_minus_1 (lats bdata) lat_bins in
  let dists_idx := fold_last dim1 dists_idx in
  let lons_idx := fold_last dim2 lons_idx in
  let lats_idx := fold_last dim3 lats_idx in
  if (dim1 <? 0)%Z || (dim2 <? 0)%Z || (dim3 <? 0)%Z || (dim4 <? 0)%Z
  then Raise ValueError
  else
    let D := Z.to_nat dim1 in
    let Lo := Z.to_nat dim2 in
    let La := Z.to_nat dim3 in
    let mat6D := replicate D (replicate Lo (replicate La ones3)) in
    let! mat6D :=
      accumulate D Lo La mat6D (zip4 dists_idx lons_idx lats_idx (pnes bdata)) in
    Ok (map (map (map (fun c : arr3 => fun e m p => (1 - c e m p)%R))) mat6D).

Definition _disaggregate (ctx : list Rupture) (mea std : nat -> nat -> nat -> Q)
    (cmaker : ContextMaker) (g : nat) (iml2 : list (list ext))
    (bin_edges : BinEdges) (epsstar : bool) : result matrix :=
  let! r := disagg_by_eps (length ctx) mea std cmaker g iml2
              (eps_edges bin_edges) epsstar in
  let pnes := multiplying_pnes ctx (poes_of r.2) (time_span cmaker) in
  let bindata := {| dists := map rrup ctx; lons := map clon ctx;
                    lats := map clat ctx; pnes := pnes |} in
  _build_disagg_matrix bindata
    (dist_edges bin_edges, lon_edges bin_edges, lat_edges bin_edges,
     eps_edges bin_edges).

(** The shape of the matrices built on given bin edges. *)
Definition shape_of (edges : BinEdges) : list (list (list unit)) :=
  replicate (length (dist_edges edges) - 1)
    (replicate (length (lon_edges edges) - 1)
       (replicate (length (lat_edges edges) - 1) tt)).

(** *** Disaggregator *)

Inductive site_arg : Type :=
| ASite (id : option nat)
| ASiteCollection (site_ids : list nat).

Inductive srcs_or_ctxs : Type :=
| Contexts (ctxs : list (list Rupture))
| Sources (srcs : list source).

(** [searchsorted(bin_edges[0], ctx.mag) - 1], with [-1] set to [0]. *)
Definition magnitude_bins (mag_edges : list Q) (ctx : list Rupture) : list Z :=
  map (fun i => if (i =? -1)%Z then 0%Z else i)
    (map (fun rec => (Z.of_nat (searchsorted mag_edges (mag rec)) - 1)%Z) ctx).

Definition __init__ (srcs_or_ctxs : srcs_or_ctxs) (site : site_arg)
    (cmaker : ContextMaker) (bin_edges : JobBinEdges)
    (imts : option (list string)) : result Disaggregator :=
  let! sitecol :=
    match site with
    | ASite id => Ok [default 0%nat id]
    | ASiteCollection site_ids =>
        let! _ := py_assert (length site_ids =? 1)%nat in Ok site_ids
    end in
  let! sid := match sitecol with [] => Raise IndexError | s :: _ => Ok s end in
  let! cmaker :=
    match imts with
    | None => Ok cmaker
    | Some imts =>
        let! _ := py_assert (forallb (fun imt => bool_decide (imt ∈ imtls cmaker)) imts) in
        Ok {| truncation_level := truncation_level cmaker; phi_b := phi_b cmaker;
              time_span := time_span cmaker; imtls := imtls cmaker;
              imts := imts; epsilon_star := epsilon_star cmaker |}
    end in
  let! lon := match job_lon_edges bin_edges !! sid with
              | Some e => Ok e | None => Raise KeyError end in
  let! lat := match job_lat_edges bin_edges !! sid with
              | Some e => Ok e | None => Raise KeyError end in
  let! ctxs :=
    match srcs_or_ctxs with
    | Contexts [] | Sources [] => Raise IndexError
    | Contexts ctxs => Ok (map (filter (fun rec => sids rec = sid)) ctxs)
    | Sources srcs => Ok (from_srcs cmaker srcs sid)
    end in
  let! ctx := match ctxs with [] => Raise ValueError | _ => Ok (concat ctxs) end in
  if (length ctx =? 0)%nat then Raise FarAwayRupture
  else
    Ok {| sid := sid; cmaker := cmaker; epsstar := epsilon_star cmaker;
          bin_edges := {| mag_edges := job_mag_edges bin_edges;
                          dist_edges := job_dist_edges bin_edges;
                          lon_edges := lon; lat_edges := lat;
                          eps_edges := job_eps_edges bin_edges |};
          fullmagi := magnitude_bins (job_mag_edges bin_edges) ctx;
          fullctx := ctx |}.

(** [fullctx[fullmagi == magi]] *)
Definition select_magi (magi : Z) (fullctx : list Rupture) (fullmagi : list Z)
  : list Rupture :=
  map fst (filter (fun x => x.2 = magi) (zip fullctx fullmagi)).

(** [Disaggregator.init]; a [src_mutex] of [None] stands for a false
    value (no or an empty specification). *)
Definition init (dis : Disaggregator) (magi : Z) (src_mutex : option SrcMutex)
  : result MagBin :=
  let ctx := select_magi magi (fullctx dis) (fullmagi dis) in
  if (length ctx =? 0)%nat then Raise FarAwayRupture
  else
    let ctx := match src_mutex with
               | Some _ => sort_by_src_id ctx
               | None => ctx
               end in
    let '(mea, std) := get_mean_stds (cmaker dis) ctx in
    match src_mutex with
    | Some sm =>
        let mat := idx_start_stop (map src_id ctx) in
        let src_ids := map (fun x => x.1.1) mat in
        let sm := {| mutex_src_id := mutex_src_id sm;
                     mutex_weight := mutex_weight sm;
                     mutex_start := map (fun x => x.1.2) mat;
                     mutex_stop := map (fun x => x.2) mat |} in
        Ok {| dis := dis; magi := magi; src_mutex := Some sm; ctx := ctx;
              mea := mea; std := std;
              weights :=
                map snd (filter (fun sw => sw.1 ∈ src_ids)
                           (zip (mutex_src_id sm) (mutex_weight sm))) |}
    | None =>
        Ok {| dis := dis; magi := magi; src_mutex := None; ctx := ctx;
              mea := mea; std := std; weights := [] |}
    end.

(** The logarithmic intensities [imlog2] of [disagg6D]: rows without an
    intensity measure type stay zero, a type without a row raises. *)
Definition imlog2_of (imts : list string) (iml2 : list (list Q))
  : result (list (list ext)) :=
  if (length iml2 <? length imts)%nat then Raise IndexError
  else
    Ok (imap (fun m row =>
          match imts !! m with
          | Some imt => map (fun iml => to_distribution_values iml imt) row
          | None => map (fun _ => Fin 0) row
          end) iml2).

(** [ctx[s1:s2]] *)
Definition slice {A} (s1 s2 : nat) (l : list A) : list A :=
  take (s2 - s1) (drop s1 l).

(** The matrix of the rows [s1:s2] of the context. *)
Definition disaggregate_range (st : MagBin) (g : nat) (imlog2 : list (list ext))
    (s1 s2 : nat) : result matrix :=
  _disaggregate (slice s1 s2 (ctx st))
    (fun g m u => mea st g m (s1 + u)%nat)
    (fun g m u => std st g m (s1 + u)%nat)
    (cmaker (dis st)) g imlog2 (bin_edges (dis st)) (epsstar (dis st)).

Definition disagg6D (st : MagBin) (iml2 : list (list Q)) (g : nat)
  : result matrix :=
  let! imlog2 := imlog2_of (imts (cmaker (dis st))) iml2 in
  match src_mutex st with
  | None =>
      _disaggregate (ctx st) (mea st) (std st) (cmaker (dis st)) g imlog2
        (bin_edges (dis st)) (epsstar (dis st))
  | Some sm =>
      let! mats :=
        sequence (map (fun '(s1, s2) => disaggregate_range st g imlog2 s1 s2)
                    (zip (mutex_start sm) (mutex_stop sm))) in
      average mats (weights st)
  end.

(** *** The remaining bin edges and the shape dictionary *)

(** [lon_lat_bins lon lat size_km coord_bin_width]: the grid of longitude
    and latitude edges around a site. Its steps are computed with
    [angular_distance] and floating point [numpy.arange]; the builder below
    only stores what it returns. *)
Variable lon_lat_bins : Q -> Q -> Q -> Q -> list Q * list Q.

(** The [lon_edges] and [lat_edges] of [_build_bin_edges], by site id,
    with the sanity check on their shapes. The check reads the values of
    each dictionary and is indifferent to their order. *)
Definition build_lon_lat_edges {trt} (oq : DisaggParams trt) (sitecol : list Site)
  : result (gmap nat (list Q) * gmap nat (list Q)) :=
  let! edges :=
    match disagg_bin_edges_lon oq, disagg_bin_edges_lat oq with
    | None, None =>
        Ok (fold_left (fun acc site =>
              let bins := lon_lat_bins (loc_x site) (loc_y site) (maxdist oq)
                            (coordinate_bin_width oq) in
              (<[site_id site := bins.1]> acc.1, <[site_id site := bins.2]> acc.2))
              sitecol (∅, ∅))
    | lon, lat =>
        let! _ := py_assert (length sitecol =? 1)%nat in
        let! lon := match lon with Some e => Ok e | None => Raise KeyError end in
        let! lat := match lat with Some e => Ok e | None => Raise KeyError end in
        Ok ({[ 0%nat := lon ]}, {[ 0%nat := lat ]})
    end in
  let! _ := assert_same_shape (map snd (map_to_list edges.1)) in
  let! _ := assert_same_shape (map snd (map_to_list edges.2)) in
  Ok edges.

Definition _build_bin_edges {trt} (oq : DisaggParams trt) (sitecol : list Site)
  : result JobBinEdges :=
  let! mag_edges := build_mag_edges (mag_params oq) in
  let! dist_edges := build_dist_edges oq in
  let! lon_lat := build_lon_lat_edges oq sitecol in
  Ok {| job_mag_edges := mag_edges; job_dist_edges := dist_edges;
        job_lon_edges := lon_lat.1; job_lat_edges := lon_lat.2;
        job_eps_edges := build_eps_edges oq |}.

(** [get_edges_shapedic]: the edges, the tectonic region types and the
    shape dictionary. The numbers of longitude and latitude bins are read
    from the edges stored under the key 0. *)
Definition get_edges_shapedic {trt} (oq : DisaggParams trt) (sitecol : list Site)
    (num_tot_rlzs : option nat) : result (JobBinEdges * list trt * ShapeDic) :=
  let! _ := py_assert (negb (length (mags_by_trt (mag_params oq)) =? 0)%nat) in
  let trts := map fst (mags_by_trt (mag_params oq)) in
  let Z :=
    match rlz_index oq with
    | None => if (num_rlzs_disagg oq =? 0)%nat then num_tot_rlzs
              else Some (num_rlzs_disagg oq)
    | Some idx => Some (length idx)
    end in
  let! edges := _build_bin_edges oq sitecol in
  let! lon0 := match job_lon_edges edges !! 0%nat with
               | Some e => Ok e | None => Raise KeyError end in
  let! lat0 := match job_lat_edges edges !! 0%nat with
               | Some e => Ok e | None => Raise KeyError end in
  Ok (edges, trts,
      {| shape_mag := (Z.of_nat (length (job_mag_edges edges)) - 1)%Z;
         shape_dist := (Z.of_nat (length (job_dist_edges edges)) - 1)%Z;
         shape_lon := (Z.of_nat (length lon0) - 1)%Z;
         shape_lat := (Z.of_nat (length lat0) - 1)%Z;
         shape_eps := (Z.of_nat (length (job_eps_edges edges)) - 1)%Z;
         shape_trt := length trts;
         shape_N := length sitecol;
         shape_M := length (job_imtls oq);
         shape_P := match poes_disagg oq with [] => 1%nat | poes => length poes end;
         shape_Z := Z |}).

(** *** Realizations and the magnitude-distance-epsilon matrix *)

(** The dictionary [g_by_rlz] of [__init__], from the realizations of
    each gsim in the order of [cmaker.gsims]: a later gsim overwrites an
    earlier one. *)
Definition g_by_rlz_of (gsims : list (list nat)) : gmap nat nat :=
  fold_left (fun acc gr => fold_left (fun acc rlz => <[rlz := gr.1]> acc) gr.2 acc)
    (imap pair gsims) ∅.

(** [pprod(mat6, axis=(1, 2))] of [openquake.baselib.general]: from a
    matrix of shape (D, Lo, La, E, M, P) to one of shape (D, E, M, P). *)
Variable pprod_lon_lat : matrix -> list arr3.

(** [Disaggregator.disagg_mag_dist_eps], with [g_by_rlz] the dictionary
    [self.g_by_rlz]. Allocating [mat5] with a negative dimension raises. *)
Definition disagg_mag_dist_eps (dis : Disaggregator) (g_by_rlz : gmap nat nat)
    (iml2 : list (list Q)) (rlzi : nat) (src_mutex : option SrcMutex)
  : result (list (list arr3)) :=
  let Ma := (Z.of_nat (length (mag_edges (bin_edges dis))) - 1)%Z in
  let D := (Z.of_nat (length (dist_edges (bin_edges dis))) - 1)%Z in
  let E := (Z.of_nat (length (eps_edges (bin_edges dis))) - 1)%Z in
  if (Ma <? 0)%Z || (D <? 0)%Z || (E <? 0)%Z then Raise ValueError
  else
    sequence
      (map (fun magi =>
              let! st := init dis magi src_mutex in
              let! g := match g_by_rlz !! rlzi with
                        | Some g => Ok g | None => Raise KeyError end in
              let! mat6 := disagg6D st iml2 g in
              Ok (pprod_lon_lat mat6))
         (arange 0 Ma)).

(** ** Properties of the binning primitives *)

Lemma Qlt_bool_iff (x y : Q) : Qlt_bool x y = true <-> (x < y)%Q.
Proof.
  unfold Qlt_bool. rewrite negb_true_iff, <- not_true_iff_false, Qle_bool_iff.
  split; [apply Qnot_le_lt | apply Qlt_not_le].
Qed.

Lemma Qlt_bool_false (x y : Q) : Qlt_bool x y = false <-> (y <= x)%Q.
Proof.
  unfold Qlt_bool. rewrite negb_false_iff. apply Qle_bool_iff.
Qed.

Lemma Qle_bool_false (x y : Q) : Qle_bool x y = false <-> (y < x)%Q.
Proof.
  rewrite <- not_true_iff_false, Qle_bool_iff.
  split; [apply Qnot_le_lt | apply Qlt_not_le].
Qed.

(** Everything left of the located index is below the value. *)
Lemma searchsorted_below (a : list Q) (v : Q) (j : nat) (x : Q) :
  (j < searchsorted a v)%nat -> a !! j = Some x -> (x < v)%Q.
Proof.
  revert j. induction a as [|y a IH]; simpl; intros j Hj Hx; [lia|].
  destruct (Qlt_bool y v) eqn:Hy; [|lia].
  destruct j as [|j]; simpl in Hx.
  - inversion Hx; subst. by apply Qlt_bool_iff.
  - apply (IH j); [lia | done].
Qed.

(** The element at the located index, when there is one, is not below. *)
Lemma searchsorted_at (a : list Q) (v : Q) (x : Q) :
  a !! searchsorted a v = Some x -> (v <= x)%Q.
Proof.
  induction a as [|y a IH]; simpl; [done|].
  destruct (Qlt_bool y v) eqn:Hy; simpl; [done|].
  intros Hx; inversion Hx; subst. by apply Qlt_bool_false.
Qed.

Lemma searchsorted_le_length (a : list Q) (v : Q) :
  (searchsorted a v <= length a)%nat.
Proof. induction a as [|y a IH]; simpl; [lia|]. destruct (Qlt_bool y v); simpl; lia. Qed.

(** The located index is the length exactly when every element is below. *)
Lemma searchsorted_lt_length (a : list Q) (v : Q) (x : Q) :
  x ∈ a -> (v <= x)%Q -> (searchsorted a v < length a)%nat.
Proof.
  induction a as [|y a IH]; simpl; intros Hin Hv; [by apply elem_of_nil in Hin|].
  destruct (Qlt_bool y v) eqn:Hy; [|lia].
  apply elem_of_cons in Hin as [->|Hin].
  - apply Qlt_bool_iff in Hy. lra.
  - specialize (IH Hin Hv). lia.
Qed.

Lemma digitize_below (x : Q) (bins : list Q) (j : nat) (b : Q) :
  (j < digitize x bins)%nat -> bins !! j = Some b -> (b <= x)%Q.
Proof.
  revert j. induction bins as [|y bins IH]; simpl; intros j Hj Hb; [lia|].
  destruct (Qle_bool y x) eqn:Hy; [|lia].
  destruct j as [|j]; simpl in Hb.
  - inversion Hb; subst. by apply Qle_bool_iff.
  - apply (IH j); [lia | done].
Qed.

Lemma digitize_at (x : Q) (bins : list Q) (b : Q) :
  bins !! digitize x bins = Some b -> (x < b)%Q.
Proof.
  induction bins as [|y bins IH]; simpl; [done|].
  destruct (Qle_bool y x) eqn:Hy; simpl; [done|].
  intros Hb; inversion Hb; subst. by apply Qle_bool_false.
Qed.

Lemma digitize_le_length (x : Q) (bins : list Q) :
  (digitize x bins <= length bins)%nat.
Proof. induction bins as [|y bins IH]; simpl; [lia|]. destruct (Qle_bool y x); simpl; lia. Qed.

Lemma last_elem_of (d y : Q) (l : list Q) : List.last (y :: l) d ∈ y :: l.
Proof.
  revert y. induction l as [|z l IH]; intros y; [apply list_elem_of_here|].
  change (List.last (y :: z :: l) d) with (List.last (z :: l) d).
  apply list_elem_of_further, IH.
Qed.

(** On ascending bins a value that reaches the last edge is past every
    edge. *)
Lemma digitize_all (x : Q) (bins : list Q) :
  StronglySorted Qlt bins -> (List.last bins x <= x)%Q ->
  digitize x bins = length bins.
Proof.
  induction 1 as [|y bins Hs IH Hall]; intros Hlast; [done|].
  cbn [digitize length].
  assert (Hy : (y <= x)%Q /\ (List.last bins x <= x)%Q).
  { destruct bins as [|z bins]; [simpl in *; lra|].
    change (List.last (y :: z :: bins) x) with (List.last (z :: bins) x) in Hlast.
    split; [|done].
    rewrite Forall_forall in Hall.
    specialize (Hall _ (last_elem_of x z bins)). lra. }
  destruct Hy as [Hy Hl]. apply Qle_bool_iff in Hy. rewrite Hy.
  f_equal. by apply IH.
Qed.

Lemma digitize_zero (x : Q) (b : Q) (bins : list Q) :
  (x < b)%Q -> digitize x (b :: bins) = 0%nat.
Proof. intros H. simpl. apply Qle_bool_false in H. by rewrite H. Qed.

(** ** Magnitude bins of the Disaggregator *)

Lemma searchsorted_head_ge (e0 : Q) (edges : list Q) (m : Q) :
  (m <= e0)%Q -> searchsorted (e0 :: edges) m = 0%nat.
Proof. intros H. simpl. apply Qlt_bool_false in H. by rewrite H. Qed.

Lemma searchsorted_head_lt (e0 : Q) (edges : list Q) (m : Q) :
  (e0 < m)%Q -> searchsorted (e0 :: edges) m = S (searchsorted edges m).
Proof. intros H. simpl. apply Qlt_bool_iff in H. by rewrite H. Qed.

(** On ascending edges a value above the last edge is above every edge. *)
Lemma searchsorted_all (a : list Q) (v : Q) :
  StronglySorted Qlt a -> (forall x, last a = Some x -> (x < v)%Q) ->
  searchsorted a v = length a.
Proof.
  induction 1 as [|y a Hs IH Hall]; intros Hlast; [done|].
  cbn [searchsorted length].
  assert (Hy : (y < v)%Q).
  { destruct a as [|z a]; [by apply Hlast|].
    rewrite Forall_forall in Hall.
    destruct (last (z :: a)) as [x|] eqn:Hx; [|by apply last_None in Hx].
    assert (Hin : x ∈ z :: a).
    { rewrite last_lookup in Hx. by eapply list_elem_of_lookup_2. }
    specialize (Hall x Hin). specialize (Hlast x Hx). lra. }
  apply Qlt_bool_iff in Hy. rewrite Hy. f_equal. apply IH.
  intros x Hx. apply Hlast. destruct a; [done|exact Hx].
Qed.

(** C9 (as amended). For strictly increasing magnitude edges, every rupture
    gets a magnitude bin: it is bin 0 when the magnitude is on or below the
    first edge, and for a magnitude [m] above the first edge and up to the
    last one it is the bin [i] with [mag_edges[i] < m <= mag_edges[i+1]]
    (bins are open on the left and closed on the right). A magnitude above
    the last edge gets the index of the last edge, which is no bin. *)
Theorem magnitude_bins_spec (edges : list Q) (ctx : list Rupture) (u : nat)
    (rec : Rupture) :
  StronglySorted Qlt edges -> ctx !! u = Some rec ->
  exists i : Z,
    magnitude_bins edges ctx !! u = Some i /\
    (forall e0, head edges = Some e0 -> (mag rec <= e0)%Q -> i = 0%Z) /\
    (forall e0 elast, head edges = Some e0 -> last edges = Some elast ->
       (e0 < mag rec)%Q -> (mag rec <= elast)%Q ->
       exists lo hi : Q,
         (0 <= i)%Z /\ edges !! Z.to_nat i = Some lo /\
         edges !! (Z.to_nat i + 1)%nat = Some hi /\
         (lo < mag rec)%Q /\ (mag rec <= hi)%Q) /\
    (forall elast, last edges = Some elast -> (elast < mag rec)%Q ->
       i = (Z.of_nat (length edges) - 1)%Z).
Proof.
  intros Hsorted Hu. unfold magnitude_bins.
  rewrite !list_lookup_fmap, Hu. simpl.
  eexists; split; [reflexivity|]. split; [|split].
  3: { intros elast Hl Hlt. rewrite searchsorted_all; [|done|].
       - destruct edges; [done|]. simpl length.
         destruct (Z.eqb_spec (Z.of_nat (S (length edges)) - 1) (-1)); [lia|done].
       - intros x Hx. congruence. }
  - intros e0 Hh Hle. destruct edges as [|x edges]; [done|].
    simpl in Hh. inversion Hh; subst x.
    rewrite searchsorted_head_ge by done. reflexivity.
  - intros e0 elast Hh Hl Hlo Hhi. destruct edges as [|x edges]; [done|].
    simpl in Hh. inversion Hh; subst x.
    assert (Hin : elast ∈ e0 :: edges).
    { apply list_elem_of_lookup. rewrite last_lookup in Hl. eauto. }
    pose proof (searchsorted_lt_length (e0 :: edges) (mag rec) elast Hin Hhi) as Hlt.
    pose proof (searchsorted_below (e0 :: edges) (mag rec)) as Hbelow.
    pose proof (searchsorted_at (e0 :: edges) (mag rec)) as Hat.
    rewrite searchsorted_head_lt in * by done.
    set (s := searchsorted edges (mag rec)) in *.
    replace (Z.of_nat (S s) - 1)%Z with (Z.of_nat s) by lia.
    destruct (Z.of_nat s =? -1)%Z eqn:E; [lia|].
    rewrite Nat2Z.id.
    destruct (lookup_lt_is_Some_2 (e0 :: edges) s) as [lo Hlo']; [simpl in *; lia|].
    destruct (lookup_lt_is_Some_2 (e0 :: edges) (s + 1)) as [hi Hhi'];
      [simpl in *; lia|].
    exists lo, hi. repeat split; try done; [lia| |].
    + apply (Hbelow s); [lia | done].
    + apply Hat. by replace (S s) with (s + 1)%nat by lia.
Qed.

(** ** Magnitude edges *)

Lemma Qmaximum_ge (m : Q) (ms : list Q) (x : Q) :
  x ∈ m :: ms -> (x <= Qmaximum m ms)%Q.
Proof.
  unfold Qmaximum. induction ms as [|y ms IH]; simpl; intros Hin.
  - apply list_elem_of_singleton in Hin as ->. lra.
  - pose proof (Q.le_max_l y (fold_right Qmax m ms)).
    pose proof (Q.le_max_r y (fold_right Qmax m ms)).
    apply elem_of_cons in Hin as [->|Hin].
    { specialize (IH (list_elem_of_here _ _)). lra. }
    apply elem_of_cons in Hin as [->|Hin]; [lra|].
    specialize (IH (list_elem_of_further _ _ _ Hin)). lra.
Qed.

Lemma Qmaximum_elem (e0 : Q) (rest : list Q) : Qmaximum e0 rest ∈ e0 :: rest.
Proof.
  unfold Qmaximum. induction rest as [|x rest IH]; simpl; [apply list_elem_of_here|].
  unfold Qmax at 1, GenericMinMax.gmax.
  destruct (x ?= fold_right Qmax e0 rest)%Q.
  - apply list_elem_of_further, list_elem_of_here.
  - apply elem_of_cons in IH as [->|IH]; [apply list_elem_of_here|].
    by do 2 apply list_elem_of_further.
  - apply list_elem_of_further, list_elem_of_here.
Qed.

(** The first scenario has doubles only: the edges are exact and the
    maximum is the last of them. *)
Example sixteenths_edges :
  build_mag_edges SampleMags.sixteenths
  = Ok [25 # 4; 101 # 16; 51 # 8; 103 # 16]%Q.
Proof. vm_compute. reflexivity. Qed.

(** C6. The magnitude edges the code builds do not always enclose the
    magnitudes. (1) Width 0.0625 and magnitudes 6.25 and 6.4375, all
    doubles: [n2 = 103], the product [0.0625 * 103] is the maximum 6.4375
    and [round(6.4375, 3)] is 6.438, above it, so [n2] is not incremented;
    the maximum is the last edge and digitizing it gives the number of
    edges. (2) Width 0.1 and the magnitude 3.4: the quotient rounds to 34,
    [n1 = 34], and the first edge [0.1 * 34] is 3.4000000000000004, above
    the magnitude, which digitizes to 0. (3) Width 0.0003 and magnitudes
    5.14 and 5.1429: [n2 = 17143], the product rounds to 5.143, [n2] is not
    incremented, and the last edge [0.0003 * 17143] is 5.142899999999999,
    below the maximum; the [Disaggregator] gives a rupture of that
    magnitude the index of the last edge, one past the last bin. *)
Theorem mag_edges_miss_magnitudes :
  let m1 := to_Q (of_Q (103 # 16)) in
  let m2 := to_Q (of_Q (34 # 10)) in
  let m3 := to_Q (of_Q (51429 # 10000)) in
  (exists edges : list Q,
     build_mag_edges SampleMags.sixteenths = Ok edges /\
     m1 = (103 # 16)%Q /\
     last edges = Some m1 /\
     digitize m1 edges = length edges) /\
  (exists e0 e1 : Q,
     build_mag_edges SampleMags.tenths = Ok [e0; e1] /\
     (m2 < e0)%Q /\
     digitize m2 [e0; e1] = 0%nat) /\
  (exists (edges : list Q) (e : Q),
     build_mag_edges SampleMags.fine = Ok edges /\
     last edges = Some e /\
     (e < m3)%Q /\
     digitize m3 edges = length edges /\
     magnitude_bins edges [Sample.rup 0 m3 5 0 0 1 []]
     = [(Z.of_nat (length edges) - 1)%Z]).
Proof.
  intros m1 m2 m3. split; [|split].
  - eexists. split; [vm_compute; reflexivity|].
    split; [vm_compute; reflexivity|]. split; vm_compute; reflexivity.
  - eexists _, _. split; [vm_compute; reflexivity|].
    split; vm_compute; reflexivity.
  - eexists _, _. split; [vm_compute; reflexivity|].
    split; [vm_compute; reflexivity|]. split; [vm_compute; reflexivity|].
    split; vm_compute; reflexivity.
Qed.

(** ** The error monad *)

Lemma sequence_imap_Ok {A B} (f : nat -> A -> result B) (g : nat -> A -> B)
    (l : list A) :
  (forall i x, l !! i = Some x -> f i x = Ok (g i x)) ->
  sequence (imap f l) = Ok (imap g l).
Proof.
  revert f g. induction l as [|a l IH]; intros f g H; [done|].
  simpl. rewrite (H 0%nat a eq_refl). simpl.
  rewrite (IH (f ∘ S) (g ∘ S)); [done|].
  intros i x Hi. apply (H (S i)), Hi.
Qed.

Lemma sequence_zip_with_Ok {A B C} (f : A -> B -> result C) (g : A -> B -> C)
    (l : list A) (k : list B) :
  (forall i x y, l !! i = Some x -> k !! i = Some y -> f x y = Ok (g x y)) ->
  sequence (zip_with f l k) = Ok (zip_with g l k).
Proof.
  revert k. induction l as [|a l IH]; intros [|b k] H; try done.
  simpl. rewrite (H 0%nat a b eq_refl eq_refl). simpl.
  rewrite IH; [done|]. intros i x y Hx Hy. by apply (H (S i)).
Qed.

Lemma bind_Ok {A B} (r : result A) (k : A -> result B) (b : B) :
  bind r k = Ok b -> exists a, r = Ok a /\ k a = Ok b.
Proof. destruct r as [a|e]; simpl; [eauto | done]. Qed.

Lemma sequence_Ok_lookup {A} (l : list (result A)) (r : list A) :
  sequence l = Ok r ->
  length r = length l /\ forall i a, r !! i = Some a -> l !! i = Some (Ok a).
Proof.
  revert r. induction l as [|x l IH]; simpl; intros r H.
  - inversion H; subst. split; [done|]. intros i a Hi. done.
  - apply bind_Ok in H as (a & -> & H). apply bind_Ok in H as (rest & Hrest & H).
    inversion H; subst. destruct (IH _ Hrest) as [Hlen Hlk].
    split; [simpl; lia|]. intros [|i] b Hi; simpl in *; [congruence | eauto].
Qed.

(** ** Epsilon bands *)

Lemma lookup_removelast {A} (l : list A) (i : nat) :
  (i + 1 < length l)%nat -> removelast l !! i = l !! i.
Proof.
  intros H. rewrite removelast_firstn_len. apply lookup_take_lt. lia.
Qed.

Lemma length_removelast {A} (l : list A) :
  length (removelast l) = (length l - 1)%nat.
Proof. rewrite removelast_firstn_len, length_take. lia. Qed.

Lemma length_tail' {A} (l : list A) : length (tail l) = (length l - 1)%nat.
Proof. destruct l; simpl; lia. Qed.

Lemma eps_cum_lookup (bands : list R) (e : nat) :
  (e <= length bands)%nat ->
  (map (fun e => Rsum (drop e bands)) (seq 0 (length bands)) ++ [0%R]) !! e
  = Some (Rsum (drop e bands)).
Proof.
  intros He. destruct (decide (e < length bands)%nat) as [Hlt|Hge].
  - rewrite lookup_app_l by (rewrite length_map, length_seq; lia).
    rewrite list_lookup_fmap, lookup_seq_lt by lia. reflexivity.
  - assert (e = length bands) as -> by lia.
    rewrite lookup_app_r by (rewrite length_map, length_seq; lia).
    rewrite length_map, length_seq, Nat.sub_diag, drop_all. reflexivity.
Qed.

Lemma get_eps4_inv (eps_edges : list Q) (tl : Q) (mn mx : Q) (bands cum : list R) :
  get_eps4 eps_edges tl = Ok (mn, mx, bands, cum) ->
  bands = zip_with (fun hi lo => (tn_cdf tl hi - tn_cdf tl lo)%R)
            (tail eps_edges) (removelast eps_edges) /\
  cum = map (fun e => Rsum (drop e bands)) (seq 0 (length bands)) ++ [0%R] /\
  exists e0 rest, eps_edges = e0 :: rest /\ mn = Qminimum e0 rest /\
                  mx = Qmaximum e0 rest.
Proof.
  unfold get_eps4. destruct eps_edges as [|e0 rest]; [done|].
  intros H. inversion H; subst. eauto 10.
Qed.

(** C5. For strictly increasing epsilon edges (at least one) and a positive
    truncation level, [get_eps4] returns [eps_bands] and [eps_cum] such
    that [eps_bands[e]] is the difference of the truncated normal CDF
    between the edges [e+1] and [e], [eps_cum[e]] is the sum of
    [eps_bands[e:]], [eps_cum] has one entry more than [eps_bands],
    [eps_cum[0]] is the sum of all bands and the last entry is zero. *)
Theorem get_eps4_spec (eps_edges : list Q) (tl : Q) :
  StronglySorted Qlt eps_edges -> (0 < tl)%Q -> eps_edges <> [] ->
  exists (min_eps max_eps : Q) (eps_bands eps_cum : list R),
    get_eps4 eps_edges tl = Ok (min_eps, max_eps, eps_bands, eps_cum) /\
    length eps_bands = (length eps_edges - 1)%nat /\
    (forall e lo hi, eps_edges !! e = Some lo -> eps_edges !! (e + 1)%nat = Some hi ->
       eps_bands !! e = Some (tn_cdf tl hi - tn_cdf tl lo)%R) /\
    length eps_cum = (length eps_bands + 1)%nat /\
    (forall e, (e <= length eps_bands)%nat ->
       eps_cum !! e = Some (Rsum (drop e eps_bands))) /\
    eps_cum !! 0%nat = Some (Rsum eps_bands) /\
    eps_cum !! length eps_bands = Some 0%R.
Proof.
  intros _ _ Hne. destruct eps_edges as [|e0 rest]; [done|].
  set (edges := e0 :: rest).
  set (bands := zip_with (fun hi lo => (tn_cdf tl hi - tn_cdf tl lo)%R)
                  (tail edges) (removelast edges)).
  set (cum := map (fun e => Rsum (drop e bands)) (seq 0 (length bands)) ++ [0%R]).
  assert (Hcum : forall e, (e <= length bands)%nat ->
                   cum !! e = Some (Rsum (drop e bands)))
    by apply eps_cum_lookup.
  exists (Qminimum e0 rest), (Qmaximum e0 rest), bands, cum.
  split; [reflexivity|]. split.
  { unfold bands. rewrite length_zip_with, length_tail', length_removelast. lia. }
  split.
  { intros e lo hi Hlo Hhi. unfold bands. rewrite lookup_zip_with.
    rewrite lookup_tail, lookup_removelast by (apply lookup_lt_Some in Hhi; done).
    replace (S e) with (e + 1)%nat by lia. rewrite Hhi, Hlo. reflexivity. }
  split.
  { unfold cum. rewrite length_app, length_map, length_seq. reflexivity. }
  split; [exact Hcum|]. split.
  - rewrite Hcum by lia. reflexivity.
  - rewrite Hcum by lia. rewrite drop_all. reflexivity.
Qed.

(** ** Epsilon decomposition *)

(** The value of [res[u, e]] when the index into [cum_bands] is valid. *)
Lemma disagg_eps_cell_Ok (s : R) (b : nat) (cum : list R) (c : R) (e : nat)
    (band : R) :
  cum !! b = Some c ->
  disagg_eps_cell s b cum e band
  = Ok (if (b <=? e)%nat then band else if (b =? e + 1)%nat then (s - c)%R else 0%R).
Proof.
  intros Hc. unfold disagg_eps_cell. rewrite Hc.
  destruct (b <=? e)%nat; [done|]. by destruct (b =? e + 1)%nat.
Qed.

Lemma disagg_eps_cell_far (s : R) (b : nat) (cum : list R) (e : nat) (band : R) :
  (e + 1 < b)%nat -> disagg_eps_cell s b cum e band = Ok 0%R.
Proof.
  intros H. unfold disagg_eps_cell.
  destruct (Nat.leb_spec b e); [lia|]. destruct (Nat.eqb_spec b (e + 1)); [lia|done].
Qed.

(** A row of the decomposition sums to the band masses right of the
    located index, plus the remainder [x] when the index is that of a
    bin. *)
Lemma row_sum (x : R) (bands : list R) (b : nat) :
  Rsum (imap (fun e band =>
          if (b <=? e)%nat then band else if (b =? e + 1)%nat then x else 0%R) bands)
  = (Rsum (drop b bands)
     + (if (1 <=? b)%nat && (b <=? length bands)%nat then x else 0))%R.
Proof.
  revert b. induction bands as [|band bands IH]; intros b.
  - rewrite drop_nil. destruct b; simpl; lra.
  - destruct b as [|b]; cbn [imap Rsum fold_right drop length];
      change (fold_right Rplus 0%R ?l) with (Rsum l).
    + rewrite (imap_ext _ (fun e band0 =>
                 if (0 <=? e)%nat then band0 else if (0 =? e + 1)%nat then x else 0%R))
        by (intros; reflexivity).
      rewrite (IH 0%nat). simpl. rewrite drop_0. lra.
    + rewrite (imap_ext _ (fun e band0 =>
                 if (b <=? e)%nat then band0 else if (b =? e + 1)%nat then x else 0%R))
        by (intros; reflexivity).
      rewrite IH. change (S b <=? S (length bands))%nat with (b <=? length bands)%nat.
      destruct b as [|b]; simpl; lra.
Qed.

Lemma disagg_eps_row_Ok (s : R) (b : nat) (bands : list R) :
  let cum := map (fun e => Rsum (drop e bands)) (seq 0 (length bands)) ++ [0%R] in
  sequence (imap (disagg_eps_cell s b cum) bands)
  = Ok (imap (fun e band =>
          if (b <=? e)%nat then band
          else if (b =? e + 1)%nat then (s - Rsum (drop b bands))%R else 0%R) bands).
Proof.
  intros cum. apply sequence_imap_Ok. intros e band He.
  apply lookup_lt_Some in He.
  destruct (decide (b <= length bands)%nat) as [Hb|Hb].
  - apply disagg_eps_cell_Ok, eps_cum_lookup, Hb.
  - rewrite disagg_eps_cell_far by lia.
    destruct (Nat.leb_spec b e); [lia|]. destruct (Nat.eqb_spec b (e + 1)); [lia|done].
Qed.

(** C1. With the bands and cumulative masses of [get_eps4], [_disagg_eps]
    returns, for every rupture whose located index [idx] is between 1 and
    the number of epsilon bins, a row holding the full band mass in every
    bin [e >= idx], the survival minus the cumulative mass at [idx] in the
    bin [idx - 1] and zero below; the row sums to the survival
    probability. *)
Theorem disagg_eps_sums_to_survival (eps_edges : list Q) (tl : Q)
    (min_eps max_eps : Q) (eps_bands cum_bands : list R)
    (survival : list R) (bins : list nat) :
  get_eps4 eps_edges tl = Ok (min_eps, max_eps, eps_bands, cum_bands) ->
  length survival = length bins ->
  exists res : list (list R),
    _disagg_eps survival bins eps_bands cum_bands = Ok res /\
    forall u s idx,
      survival !! u = Some s -> bins !! u = Some idx ->
      (1 <= idx)%nat -> (idx <= length eps_bands)%nat ->
      exists (row : list R) (c : R),
        res !! u = Some row /\ cum_bands !! idx = Some c /\
        (forall e band, eps_bands !! e = Some band ->
           row !! e = Some (if (idx <=? e)%nat then band
                            else if (idx =? e + 1)%nat then (s - c)%R else 0%R)) /\
        Rsum row = s.
Proof.
  intros Heps Hlen. apply get_eps4_inv in Heps as (_ & Hcum & _).
  unfold _disagg_eps. rewrite Hlen, Nat.eqb_refl. simpl.
  rewrite (sequence_zip_with_Ok _ (fun s b =>
             imap (fun e band =>
               if (b <=? e)%nat then band
               else if (b =? e + 1)%nat then (s - Rsum (drop b eps_bands))%R else 0%R)
               eps_bands)).
  2: { intros i s b _ _. rewrite Hcum. apply disagg_eps_row_Ok. }
  eexists; split; [reflexivity|].
  intros u s idx Hs Hb H1 HE.
  eexists; exists (Rsum (drop idx eps_bands)). split; [|split; [|split]].
  - rewrite lookup_zip_with, Hs, Hb. reflexivity.
  - rewrite Hcum. by apply eps_cum_lookup.
  - intros e band He. rewrite list_lookup_imap, He. reflexivity.
  - rewrite (row_sum (s - Rsum (drop idx eps_bands))%R eps_bands idx).
    destruct (Nat.leb_spec 1 idx); [|lia].
    destruct (Nat.leb_spec idx (length eps_bands)); [|lia]. simpl. lra.
Qed.

(** ** Occurrence model *)

Lemma any_probs_occur_false (ctx : list Rupture) :
  existsb (fun rec => negb (length (probs_occur rec) =? 0)%nat) ctx = false
  <-> forall rec, rec ∈ ctx -> probs_occur rec = [].
Proof.
  rewrite <- not_true_iff_false, existsb_exists. split.
  - intros H rec Hin. destruct (probs_occur rec) eqn:E; [done|].
    exfalso. apply H. exists rec. rewrite E. split; [by apply list_elem_of_In | done].
  - intros H (rec & Hin & Hne). apply list_elem_of_In in Hin.
    rewrite (H rec Hin) in Hne. done.
Qed.

Lemma any_probs_occur_true (ctx : list Rupture) :
  existsb (fun rec => negb (length (probs_occur rec) =? 0)%nat) ctx = true
  <-> exists rec, rec ∈ ctx /\ probs_occur rec <> [].
Proof.
  rewrite existsb_exists. split.
  - intros (rec & Hin & Hne). exists rec. split; [by apply list_elem_of_In|].
    intros E. rewrite E in Hne. done.
  - intros (rec & Hin & Hne). exists rec. split; [by apply list_elem_of_In|].
    destruct (probs_occur rec); done.
Qed.

(** C2. The kernel [_disaggregate] turns the exceedance probabilities into
    no-exceedance probabilities with [multiplying_pnes]. When every rupture
    of the batch has an empty [probs_occur], each cell is
    [exp(- occurrence_rate * poe * time_span)]; when some rupture of the
    batch has a non-empty one, the array of every rupture of the batch is
    what [get_pnes] returns for it. *)
Theorem multiplying_pnes_branch (ctx : list Rupture) (mea std : nat -> nat -> nat -> Q)
    (cmaker : ContextMaker) (g : nat) (iml2 : list (list ext))
    (bin_edges : BinEdges) (epsstar : bool) (poes : nat -> arr3) (t : R) :
  _disaggregate ctx mea std cmaker g iml2 bin_edges epsstar
  = bind (disagg_by_eps (length ctx) mea std cmaker g iml2 (eps_edges bin_edges) epsstar)
      (fun r =>
         _build_disagg_matrix
           {| dists := map rrup ctx; lons := map clon ctx; lats := map clat ctx;
              pnes := multiplying_pnes ctx (poes_of r.2) (time_span cmaker) |}
           (dist_edges bin_edges, lon_edges bin_edges, lat_edges bin_edges,
            eps_edges bin_edges)) /\
  length (multiplying_pnes ctx poes t) = length ctx /\
  ((forall rec, rec ∈ ctx -> probs_occur rec = []) ->
   forall u rec, ctx !! u = Some rec ->
     exists pne : arr3,
       multiplying_pnes ctx poes t !! u = Some pne /\
       forall e m p,
         pne e m p = exp (- occurrence_rate rec * poes u e m p * t)) /\
  ((exists rec, rec ∈ ctx /\ probs_occur rec <> []) ->
   forall u rec, ctx !! u = Some rec ->
     exists pne : arr3,
       multiplying_pnes ctx poes t !! u = Some pne /\
       forall e m p,
         pne e m p
         = get_pnes (occurrence_rate rec) (probs_occur rec) (poes u) t e m p).
Proof.
  split; [reflexivity|]. split; [|split].
  - unfold multiplying_pnes. case (existsb _ _); apply length_imap.
  - intros Hall u rec Hu. apply any_probs_occur_false in Hall.
    unfold multiplying_pnes. rewrite Hall, list_lookup_imap, Hu. simpl.
    eexists; split; [reflexivity|]. intros e m p. unfold mul3, ones3. lra.
  - intros Hany u rec Hu. apply any_probs_occur_true in Hany.
    unfold multiplying_pnes. rewrite Hany, list_lookup_imap, Hu. simpl.
    eexists; split; [reflexivity|]. intros e m p. unfold mul3, ones3. lra.
Qed.

(** ** Matrix accumulator *)

Lemma py_index_Ok (n : nat) (i : Z) :
  (1 <= n)%nat -> (-1 <= i)%Z -> (i < Z.of_nat n)%Z ->
  exists k, py_index n i = Ok k /\ (k < n)%nat /\
            k = (if (i <? 0)%Z then n - 1 else Z.to_nat i)%nat.
Proof.
  intros Hn Hlo Hhi. unfold py_index.
  destruct (Z.leb_spec 0 i); simpl.
  - destruct (Z.ltb_spec i (Z.of_nat n)); [|lia]. simpl.
    exists (Z.to_nat i). destruct (Z.ltb_spec i 0); [lia|]. repeat split; lia.
  - assert (i = -1)%Z as -> by lia.
    destruct (Z.leb_spec (- Z.of_nat n) (-1)); [|lia]. simpl.
    exists (n - 1)%nat. repeat split; [f_equal|]; lia.
Qed.

Lemma py_index_lt (n : nat) (i : Z) (k : nat) : py_index n i = Ok k -> (k < n)%nat.
Proof.
  unfold py_index.
  destruct (Z.leb_spec 0 i), (Z.ltb_spec i (Z.of_nat n)); simpl;
    try (intros Hk; inversion Hk; lia).
  all: destruct (Z.leb_spec (- Z.of_nat n) i), (Z.ltb_spec i 0); simpl;
    intros Hk; inversion Hk; lia.
Qed.

Lemma cell_at_alter3 (f : arr3 -> arr3) (i j k i' j' k' : nat) (mat : matrix) :
  cell_at (alter3 f i j k mat) i' j' k'
  = if decide (i = i' /\ j = j' /\ k = k') then f <$> cell_at mat i' j' k'
    else cell_at mat i' j' k'.
Proof.
  unfold cell_at, alter3. rewrite list_lookup_alter.
  destruct (decide (i = i')) as [->|Hi].
  - destruct (mat !! i') as [row|]; simpl; [|by case_decide].
    rewrite list_lookup_alter. destruct (decide (j = j')) as [->|Hj].
    + destruct (row !! j') as [col|]; simpl; [|by case_decide].
      rewrite list_lookup_alter. destruct (decide (k = k')) as [->|Hk].
      * rewrite decide_True by done. reflexivity.
      * rewrite decide_False by (intros (? & ? & ?); done). reflexivity.
    + rewrite decide_False by (intros (? & ? & ?); done). reflexivity.
  - rewrite decide_False by (intros (? & ? & ?); done). reflexivity.
Qed.

Lemma cell_at_ones (D Lo La i j k : nat) :
  (i < D)%nat -> (j < Lo)%nat -> (k < La)%nat ->
  cell_at (replicate D (replicate Lo (replicate La ones3))) i j k = Some ones3.
Proof.
  intros. unfold cell_at. rewrite lookup_replicate_2 by done. simpl.
  rewrite lookup_replicate_2 by done. simpl. by rewrite lookup_replicate_2.
Qed.

Lemma cell_at_map (f : arr3 -> arr3) (mat : matrix) (i j k : nat) :
  cell_at (map (map (map f)) mat) i j k = f <$> cell_at mat i j k.
Proof.
  unfold cell_at. rewrite list_lookup_fmap. destruct (mat !! i) as [row|]; [|done].
  simpl. rewrite list_lookup_fmap. destruct (row !! j) as [col|]; [|done].
  simpl. by rewrite list_lookup_fmap.
Qed.

Lemma lands_in_true (D Lo La i j k : nat) (r : Z * Z * Z * arr3) :
  lands_in D Lo La i j k r = true
  <-> py_index D r.1.1.1 = Ok i /\ py_index Lo r.1.1.2 = Ok j /\ py_index La r.1.2 = Ok k.
Proof.
  unfold lands_in.
  destruct (py_index D _) as [i'|], (py_index Lo _) as [j'|],
    (py_index La _) as [k'|]; try (split; [done | intros (? & ? & ?); done]).
  rewrite !andb_true_iff, !Nat.eqb_eq. split.
  - intros [[-> ->] ->]. done.
  - intros (H1 & H2 & H3). inversion H1; inversion H2; inversion H3. done.
Qed.

(** The loop multiplies into each cell the arrays of the ruptures that
    land in it, and raises only on an index out of range. *)
Lemma accumulate_spec (D Lo La : nat) (rups : list (Z * Z * Z * arr3)) :
  forall mat : matrix,
    (forall r, r ∈ rups ->
       exists i j k, py_index D r.1.1.1 = Ok i /\ py_index Lo r.1.1.2 = Ok j /\
                     py_index La r.1.2 = Ok k) ->
    exists mat' : matrix,
      accumulate D Lo La mat rups = Ok mat' /\
      forall i j k c, cell_at mat i j k = Some c ->
        exists c', cell_at mat' i j k = Some c' /\
          forall e m p,
            c' e m p
            = (c e m p * Rprod (map (fun r => r.2 e m p)
                                  (List.filter (lands_in D Lo La i j k) rups)))%R.
Proof.
  induction rups as [|r rups IH]; intros mat Hidx.
  - exists mat. split; [done|]. intros i j k c Hc. exists c. split; [done|].
    intros. simpl. lra.
  - destruct (Hidx r (list_elem_of_here _ _)) as (i0 & j0 & k0 & Hi & Hj & Hk).
    destruct r as [[[id il] ia] pne]. simpl in Hi, Hj, Hk.
    destruct (IH (alter3 (fun c => mul3 c pne) i0 j0 k0 mat)) as (mat' & Hacc & Hcells).
    { intros r Hr. apply Hidx. by apply list_elem_of_further. }
    exists mat'. split.
    { simpl. rewrite Hi, Hj, Hk. simpl. exact Hacc. }
    intros i j k c Hc.
    specialize (Hcells i j k). rewrite cell_at_alter3, Hc in Hcells.
    cbn [List.filter].
    destruct (lands_in D Lo La i j k (id, il, ia, pne)) eqn:Hland.
    + apply lands_in_true in Hland as (Hi' & Hj' & Hk'). simpl in Hi', Hj', Hk'.
      assert (i0 = i /\ j0 = j /\ k0 = k) as Heq by (split_and!; congruence).
      rewrite decide_True in Hcells by done.
      destruct (Hcells _ eq_refl) as (c' & Hc' & Hval).
      exists c'. split; [done|]. intros e m p. rewrite Hval. unfold mul3. simpl. lra.
    + rewrite decide_False in Hcells.
      * destruct (Hcells _ eq_refl) as (c' & Hc' & Hval). eauto.
      * intros (-> & -> & ->).
        assert (lands_in D Lo La i j k (id, il, ia, pne) = true); [|congruence].
        by apply lands_in_true.
Qed.

Lemma last_Some_default (l : list Q) (x d : Q) : last l = Some x -> List.last l d = x.
Proof.
  induction l as [|y l IH]; [done|]. destruct l as [|z l].
  - simpl. congruence.
  - intros H. change (List.last (y :: z :: l) d) with (List.last (z :: l) d).
    apply IH. exact H.
Qed.

(** A value on the last edge of ascending bins gets the index of the last
    bin. *)
Lemma last_edge_index (bins xs : list Q) (u : nat) (x xl : Q) :
  StronglySorted Qlt bins -> xs !! u = Some x -> last bins = Some xl -> (x == xl)%Q ->
  fold_last (Z.of_nat (length bins - 1)) (digitize_minus_1 xs bins) !! u
  = Some (Z.of_nat (length bins - 1) - 1)%Z.
Proof.
  intros Hs Hx Hl Heq. unfold fold_last, digitize_minus_1.
  rewrite !list_lookup_fmap, Hx. simpl.
  rewrite digitize_all; [| done |].
  - assert (0 < length bins)%nat by (destruct bins; [done | simpl; lia]).
    destruct (Z.eqb_spec (Z.of_nat (length bins) - 1) (Z.of_nat (length bins - 1)));
      [done | lia].
  - rewrite (last_Some_default bins xl x Hl). lra.
Qed.

(** A value below the first edge gets the index -1. *)
Lemma below_first_edge_index (bins xs : list Q) (u : nat) (x x0 : Q) :
  (2 <= length bins)%nat -> xs !! u = Some x -> head bins = Some x0 -> (x < x0)%Q ->
  fold_last (Z.of_nat (length bins - 1)) (digitize_minus_1 xs bins) !! u
  = Some (-1)%Z.
Proof.
  intros Hlen Hx Hh Hlt. unfold fold_last, digitize_minus_1.
  rewrite !list_lookup_fmap, Hx. simpl.
  destruct bins as [|b bins]; [done|]. simpl in Hh. inversion Hh; subst.
  rewrite digitize_zero by done.
  match goal with |- context [Z.eqb ?a ?b] => destruct (Z.eqb_spec a b) end;
    [lia | reflexivity].
Qed.

Lemma fold_last_digitize_range (bins xs : list Q) (i : Z) :
  i ∈ fold_last (Z.of_nat (length bins - 1)) (digitize_minus_1 xs bins) ->
  (1 <= length bins)%nat ->
  (-1 <= i)%Z /\ (i < Z.of_nat (length bins - 1) \/ length bins = 1%nat /\ i = -1)%Z.
Proof.
  unfold fold_last, digitize_minus_1. intros Hin Hlen.
  apply list_elem_of_fmap in Hin as (i0 & -> & Hin).
  apply list_elem_of_fmap in Hin as (x & -> & _).
  pose proof (digitize_le_length x bins).
  destruct (Z.eqb_spec (Z.of_nat (digitize x bins) - 1) (Z.of_nat (length bins - 1)));
    lia.
Qed.

Lemma digitize_lons_Ok (lons lon_bins : list Q) :
  (2 <= length lon_bins)%nat ->
  exists idx : list Z,
    _digitize_lons lons lon_bins = Ok idx /\
    length idx = length lons /\
    forall i, i ∈ fold_last (Z.of_nat (length lon_bins - 1)) idx ->
      (-1 <= i)%Z /\ (i < Z.of_nat (length lon_bins - 1))%Z.
Proof.
  intros Hlen. unfold _digitize_lons.
  destruct lon_bins as [|b0 rest] eqn:E; [simpl in Hlen; lia|]. rewrite <- E in *.
  destruct (cross_idl b0 (List.last lon_bins b0)).
  - eexists; split; [reflexivity|]. split; [by rewrite length_map|].
    intros i Hin. unfold fold_last in Hin.
    apply list_elem_of_fmap in Hin as (i0 & -> & Hin).
    apply list_elem_of_fmap in Hin as (lon & -> & _).
    set (n := (length lon_bins - 1)%nat).
    assert (Hinv : forall l acc,
              (0 <= acc < Z.of_nat n)%Z -> (forall j, j ∈ l -> (j < n)%nat) ->
              (0 <= fold_left (fun idx i_lon =>
                 if Qlt_bool 0 (get_longitudinal_extent lon (nth (i_lon + 1) lon_bins 0%Q))
                    && ((i_lon =? 0)%nat
                        || Qle_bool 0 (get_longitudinal_extent (nth i_lon lon_bins 0%Q) lon))
                 then Z.of_nat i_lon else idx) l acc < Z.of_nat n)%Z).
    { induction l as [|j l IH]; intros acc Hacc Hl; [done|]. simpl. apply IH.
      - specialize (Hl j (list_elem_of_here _ _)). case (_ && _); lia.
      - intros j' Hj'. by apply Hl, list_elem_of_further. }
    specialize (Hinv (seq 0 n) 0%Z).
    unfold n in *. clear n.
    assert (Hz : (0 <= 0 < Z.of_nat (length lon_bins - 1))%Z) by lia.
    assert (Hs : forall j, j ∈ seq 0 (length lon_bins - 1) ->
                   (j < length lon_bins - 1)%nat).
    { intros j Hj. apply elem_of_seq in Hj. lia. }
    specialize (Hinv Hz Hs).
    match goal with |- context [Z.eqb ?a ?b] => destruct (Z.eqb_spec a b) as [Heq|Hne] end;
      lia.
  - eexists; split; [reflexivity|].
    split; [unfold digitize_minus_1; by rewrite length_map|].
    intros i Hin. destruct (fold_last_digitize_range _ _ _ Hin) as [? [?|[? ?]]]; lia.
Qed.

Lemma elem_of_zip4 {A B C D} (a : list A) (b : list B) (c : list C) (d : list D)
    (r : A * B * C * D) :
  r ∈ zip4 a b c d -> r.1.1.1 ∈ a /\ r.1.1.2 ∈ b /\ r.1.2 ∈ c.
Proof.
  destruct r as [[[x y] z] w]. unfold zip4. intros H.
  apply elem_of_zip_l in H. pose proof (elem_of_zip_r _ _ _ _ H).
  apply elem_of_zip_l in H. pose proof (elem_of_zip_r _ _ _ _ H).
  apply elem_of_zip_l in H. done.
Qed.

Lemma dim_of_nat (n : nat) :
  (1 <= n)%nat -> (Z.of_nat n - 1)%Z = Z.of_nat (n - 1).
Proof. lia. Qed.

Lemma lookup_zip4 {A B C D} (a : list A) (b : list B) (c : list C) (d : list D)
    (u : nat) (r : A * B * C * D) :
  zip4 a b c d !! u = Some r ->
  a !! u = Some r.1.1.1 /\ b !! u = Some r.1.1.2 /\ c !! u = Some r.1.2 /\
  d !! u = Some r.2.
Proof.
  unfold zip4. intros H.
  apply lookup_zip_with_Some in H as (abc & w & -> & H & Hd).
  apply lookup_zip_with_Some in H as (ab & z & -> & H & Hc).
  apply lookup_zip_with_Some in H as (x & y & -> & Ha & Hb). done.
Qed.

(** Every rupture has bin indices that address a cell. *)
Lemma rups_valid (bdata : BinData) (dist_bins lon_bins lat_bins : list Q)
    (lons_idx : list Z) :
  (2 <= length dist_bins)%nat -> (2 <= length lon_bins)%nat ->
  (2 <= length lat_bins)%nat ->
  _digitize_lons (lons bdata) lon_bins = Ok lons_idx ->
  let D := (length dist_bins - 1)%nat in
  let Lo := (length lon_bins - 1)%nat in
  let La := (length lat_bins - 1)%nat in
  forall r,
    r ∈ zip4 (fold_last (Z.of_nat D) (digitize_minus_1 (dists bdata) dist_bins))
          (fold_last (Z.of_nat Lo) lons_idx)
          (fold_last (Z.of_nat La) (digitize_minus_1 (lats bdata) lat_bins))
          (pnes bdata) ->
    exists i j k, py_index D r.1.1.1 = Ok i /\ py_index Lo r.1.1.2 = Ok j /\
                  py_index La r.1.2 = Ok k.
Proof.
  intros Hd Hlo Hla Hlons D Lo La r Hr.
  destruct (digitize_lons_Ok (lons bdata) lon_bins Hlo) as (idx & Hidx & _ & Hrange).
  rewrite Hlons in Hidx. inversion Hidx; subst idx.
  apply elem_of_zip4 in Hr as (H1 & H2 & H3).
  apply fold_last_digitize_range in H1 as [? [?|[? ?]]]; [|lia..].
  apply Hrange in H2 as [? ?].
  apply fold_last_digitize_range in H3 as [? [?|[? ?]]]; [|lia..].
  destruct (py_index_Ok D r.1.1.1) as (i & -> & _); [unfold D; lia | lia | done |].
  destruct (py_index_Ok Lo r.1.1.2) as (j & -> & _); [unfold Lo; lia | lia | done |].
  destruct (py_index_Ok La r.1.2) as (k & -> & _); [unfold La; lia | lia | done |].
  by exists i, j, k.
Qed.

(** The matrix, its shape and its cells, for bins with at least one bin
    along every axis. *)
Lemma build_disagg_matrix_cells (bdata : BinData)
    (dist_bins lon_bins lat_bins eps_bins : list Q) :
  (2 <= length dist_bins)%nat -> (2 <= length lon_bins)%nat ->
  (2 <= length lat_bins)%nat -> (1 <= length eps_bins)%nat ->
  let D := (length dist_bins - 1)%nat in
  let Lo := (length lon_bins - 1)%nat in
  let La := (length lat_bins - 1)%nat in
  exists (mat : matrix) (lons_idx : list Z),
    _digitize_lons (lons bdata) lon_bins = Ok lons_idx /\
    length lons_idx = length (lons bdata) /\
    _build_disagg_matrix bdata (dist_bins, lon_bins, lat_bins, eps_bins) = Ok mat /\
    let rups :=
      zip4 (fold_last (Z.of_nat D) (digitize_minus_1 (dists bdata) dist_bins))
           (fold_last (Z.of_nat Lo) lons_idx)
           (fold_last (Z.of_nat La) (digitize_minus_1 (lats bdata) lat_bins))
           (pnes bdata) in
    forall i j k, (i < D)%nat -> (j < Lo)%nat -> (k < La)%nat ->
      exists cell : arr3,
        cell_at mat i j k = Some cell /\
        forall e m p,
          cell e m p
          = (1 - Rprod (map (fun r => r.2 e m p)
                          (List.filter (lands_in D Lo La i j k) rups)))%R.
Proof.
  intros Hd Hlo Hla He D Lo La.
  destruct (digitize_lons_Ok (lons bdata) lon_bins Hlo) as (lons_idx & Hlons & Hlen & Hrange).
  set (rups := zip4 (fold_last (Z.of_nat D) (digitize_minus_1 (dists bdata) dist_bins))
                 (fold_last (Z.of_nat Lo) lons_idx)
                 (fold_last (Z.of_nat La) (digitize_minus_1 (lats bdata) lat_bins))
                 (pnes bdata)).
  destruct (accumulate_spec D Lo La rups
              (replicate D (replicate Lo (replicate La ones3)))) as (acc & Hacc & Hcells).
  { by apply rups_valid. }
  exists (map (map (map (fun c : arr3 => fun e m p => (1 - c e m p)%R))) acc), lons_idx.
  split; [exact Hlons|]. split; [exact Hlen|]. split.
  - unfold _build_disagg_matrix. rewrite Hlons. cbn [bind].
    rewrite !dim_of_nat by lia. fold D Lo La.
    destruct (Z.ltb_spec (Z.of_nat D) 0); [lia|].
    destruct (Z.ltb_spec (Z.of_nat Lo) 0); [lia|].
    destruct (Z.ltb_spec (Z.of_nat La) 0); [lia|].
    destruct (Z.ltb_spec (Z.of_nat (length eps_bins - 1)) 0); [lia|].
    cbn [orb]. rewrite !Nat2Z.id. fold rups. rewrite Hacc. reflexivity.
  - intros rups' i j k Hi Hj Hk.
    destruct (Hcells i j k ones3 (cell_at_ones D Lo La i j k Hi Hj Hk)) as (c' & Hc' & Hval).
    exists (fun e m p => (1 - c' e m p)%R). split.
    + rewrite cell_at_map, Hc'. reflexivity.
    + intros e m p. rewrite Hval. unfold ones3, rups', rups. lra.
Qed.

(** C3. For bins with at least one bin along every axis,
    [_build_disagg_matrix] returns a matrix in which the cell of every
    (distance, longitude, latitude) bin is 1 minus the product, started at
    one, of the no-exceedance arrays of the ruptures whose bin indices
    address that cell; a cell that no rupture addresses is 0, and a
    distance or latitude equal to the last of strictly increasing edges
    has the index of the last bin. *)
Theorem build_disagg_matrix_spec (bdata : BinData)
    (dist_bins lon_bins lat_bins eps_bins : list Q) :
  (2 <= length dist_bins)%nat -> (2 <= length lon_bins)%nat ->
  (2 <= length lat_bins)%nat -> (1 <= length eps_bins)%nat ->
  let D := (length dist_bins - 1)%nat in
  let Lo := (length lon_bins - 1)%nat in
  let La := (length lat_bins - 1)%nat in
  exists (mat : matrix) (lons_idx : list Z),
    _digitize_lons (lons bdata) lon_bins = Ok lons_idx /\
    _build_disagg_matrix bdata (dist_bins, lon_bins, lat_bins, eps_bins) = Ok mat /\
    let dists_idx := fold_last (Z.of_nat D) (digitize_minus_1 (dists bdata) dist_bins) in
    let lats_idx := fold_last (Z.of_nat La) (digitize_minus_1 (lats bdata) lat_bins) in
    let rups := zip4 dists_idx (fold_last (Z.of_nat Lo) lons_idx) lats_idx (pnes bdata) in
    (forall i j k, (i < D)%nat -> (j < Lo)%nat -> (k < La)%nat ->
       exists cell : arr3,
         cell_at mat i j k = Some cell /\
         (forall e m p,
            cell e m p
            = (1 - Rprod (map (fun r => r.2 e m p)
                            (List.filter (lands_in D Lo La i j k) rups)))%R) /\
         (List.filter (lands_in D Lo La i j k) rups = [] ->
          forall e m p, cell e m p = 0%R)) /\
    (forall u x xl, StronglySorted Qlt dist_bins -> dists bdata !! u = Some x ->
       last dist_bins = Some xl -> (x == xl)%Q ->
       dists_idx !! u = Some (Z.of_nat D - 1)%Z /\
       py_index D (Z.of_nat D - 1) = Ok (D - 1)%nat) /\
    (forall u x xl, StronglySorted Qlt lat_bins -> lats bdata !! u = Some x ->
       last lat_bins = Some xl -> (x == xl)%Q ->
       lats_idx !! u = Some (Z.of_nat La - 1)%Z /\
       py_index La (Z.of_nat La - 1) = Ok (La - 1)%nat).
Proof.
  intros Hd Hlo Hla He D Lo La.
  destruct (build_disagg_matrix_cells bdata dist_bins lon_bins lat_bins eps_bins
              Hd Hlo Hla He) as (mat & lons_idx & Hlons & _ & Hmat & Hcells).
  exists mat, lons_idx. split; [exact Hlons|]. split; [exact Hmat|].
  intros dists_idx lats_idx rups. split; [|split].
  - intros i j k Hi Hj Hk.
    destruct (Hcells i j k Hi Hj Hk) as (cell & Hcell & Hval).
    exists cell. split; [exact Hcell|]. split; [exact Hval|].
    intros Hnone e m p. rewrite Hval. fold D Lo La dists_idx lats_idx rups.
    rewrite Hnone. simpl. lra.
  - intros u x xl Hs Hx Hl Heq. split.
    + by apply (last_edge_index dist_bins (dists bdata) u x xl).
    + destruct (py_index_Ok D (Z.of_nat D - 1)) as (k & -> & _ & ->);
        [unfold D; lia | lia | lia |].
      destruct (Z.ltb_spec (Z.of_nat D - 1) 0); f_equal; lia.
  - intros u x xl Hs Hx Hl Heq. split.
    + by apply (last_edge_index lat_bins (lats bdata) u x xl).
    + destruct (py_index_Ok La (Z.of_nat La - 1)) as (k & -> & _ & ->);
        [unfold La; lia | lia | lia |].
      destruct (Z.ltb_spec (Z.of_nat La - 1) 0); f_equal; lia.
Qed.

(** C10. A rupture whose distance (or latitude) is strictly below the
    first edge of that axis does not make [_build_disagg_matrix] raise and
    is not dropped: its bin index along the axis is -1, which the last-bin
    correction leaves alone and which addresses the last bin, so its
    no-exceedance array is a factor of a cell of the last bin of that
    axis. *)
Theorem low_coordinate_lands_in_last_bin (bdata : BinData)
    (dist_bins lon_bins lat_bins eps_bins : list Q) :
  (2 <= length dist_bins)%nat -> (2 <= length lon_bins)%nat ->
  (2 <= length lat_bins)%nat -> (1 <= length eps_bins)%nat ->
  let D := (length dist_bins - 1)%nat in
  let Lo := (length lon_bins - 1)%nat in
  let La := (length lat_bins - 1)%nat in
  exists (mat : matrix) (lons_idx : list Z),
    _digitize_lons (lons bdata) lon_bins = Ok lons_idx /\
    _build_disagg_matrix bdata (dist_bins, lon_bins, lat_bins, eps_bins) = Ok mat /\
    let dists_idx := fold_last (Z.of_nat D) (digitize_minus_1 (dists bdata) dist_bins) in
    let lats_idx := fold_last (Z.of_nat La) (digitize_minus_1 (lats bdata) lat_bins) in
    let rups := zip4 dists_idx (fold_last (Z.of_nat Lo) lons_idx) lats_idx (pnes bdata) in
    (forall u r x x0,
       rups !! u = Some r -> dists bdata !! u = Some x ->
       head dist_bins = Some x0 -> (x < x0)%Q ->
       r.1.1.1 = (-1)%Z /\ py_index D (-1) = Ok (D - 1)%nat /\
       exists (j k : nat) (cell : arr3),
         cell_at mat (D - 1) j k = Some cell /\
         r ∈ List.filter (lands_in D Lo La (D - 1) j k) rups /\
         forall e m p,
           cell e m p
           = (1 - Rprod (map (fun r => r.2 e m p)
                           (List.filter (lands_in D Lo La (D - 1) j k) rups)))%R) /\
    (forall u r x x0,
       rups !! u = Some r -> lats bdata !! u = Some x ->
       head lat_bins = Some x0 -> (x < x0)%Q ->
       r.1.2 = (-1)%Z /\ py_index La (-1) = Ok (La - 1)%nat /\
       exists (i j : nat) (cell : arr3),
         cell_at mat i j (La - 1) = Some cell /\
         r ∈ List.filter (lands_in D Lo La i j (La - 1)) rups /\
         forall e m p,
           cell e m p
           = (1 - Rprod (map (fun r => r.2 e m p)
                           (List.filter (lands_in D Lo La i j (La - 1)) rups)))%R).
Proof.
  intros Hd Hlo Hla He D Lo La.
  destruct (build_disagg_matrix_cells bdata dist_bins lon_bins lat_bins eps_bins
              Hd Hlo Hla He) as (mat & lons_idx & Hlons & _ & Hmat & Hcells).
  exists mat, lons_idx. split; [exact Hlons|]. split; [exact Hmat|].
  intros dists_idx lats_idx rups.
  assert (Hlast : forall n, (1 <= n)%nat -> py_index n (-1) = Ok (n - 1)%nat).
  { intros n Hn. destruct (py_index_Ok n (-1)) as (k & -> & _ & ->); [lia..|done]. }
  assert (Hvalid := rups_valid bdata dist_bins lon_bins lat_bins lons_idx
                      Hd Hlo Hla Hlons).
  split.
  - intros u r x x0 Hr Hx Hh Hlt.
    pose proof (lookup_zip4 _ _ _ _ _ _ Hr) as (Hr1 & _).
    unfold dists_idx, D in Hr1.
    rewrite (below_first_edge_index dist_bins (dists bdata) u x x0) in Hr1 by done.
    assert (Hm1 : r.1.1.1 = (-1)%Z) by congruence.
    split; [exact Hm1|]. split; [apply Hlast; unfold D; lia|].
    destruct (Hvalid r (list_elem_of_lookup_2 _ _ _ Hr)) as (i & j & k & Hi & Hj & Hk).
    rewrite Hm1, Hlast in Hi by (unfold D; lia). inversion Hi; subst i.
    destruct (Hcells (D - 1)%nat j k) as (cell & Hcell & Hval);
      [unfold D; lia | by eapply py_index_lt | by eapply py_index_lt |].
    exists j, k, cell. split; [exact Hcell|]. split; [|exact Hval].
    apply list_elem_of_In, filter_In. split.
    + apply list_elem_of_In, (list_elem_of_lookup_2 _ _ _ Hr).
    + apply lands_in_true. rewrite Hm1, Hlast by (unfold D; lia). done.
  - intros u r x x0 Hr Hx Hh Hlt.
    pose proof (lookup_zip4 _ _ _ _ _ _ Hr) as (_ & _ & Hr3 & _).
    unfold lats_idx, La in Hr3.
    rewrite (below_first_edge_index lat_bins (lats bdata) u x x0) in Hr3 by done.
    assert (Hm1 : r.1.2 = (-1)%Z) by congruence.
    split; [exact Hm1|]. split; [apply Hlast; unfold La; lia|].
    destruct (Hvalid r (list_elem_of_lookup_2 _ _ _ Hr)) as (i & j & k & Hi & Hj & Hk).
    rewrite Hm1, Hlast in Hk by (unfold La; lia). inversion Hk; subst k.
    destruct (Hcells i j (La - 1)%nat) as (cell & Hcell & Hval);
      [by eapply py_index_lt | by eapply py_index_lt | unfold La; lia |].
    exists i, j, cell. split; [exact Hcell|]. split; [|exact Hval].
    apply list_elem_of_In, filter_In. split.
    + apply list_elem_of_In, (list_elem_of_lookup_2 _ _ _ Hr).
    + apply lands_in_true. rewrite Hm1, Hlast by (unfold La; lia). done.
Qed.

(** ** The no-ruptures condition *)

(** [init] raises [FarAwayRupture] exactly when no rupture of the full
    context is assigned to the magnitude bin, and returns otherwise. *)
Lemma init_raises_iff (dis : Disaggregator) (magi : Z) (sm : option SrcMutex) :
  (select_magi magi (fullctx dis) (fullmagi dis) = [] ->
   init dis magi sm = Raise FarAwayRupture) /\
  (select_magi magi (fullctx dis) (fullmagi dis) <> [] ->
   exists st, init dis magi sm = Ok st).
Proof.
  unfold init. split.
  - intros ->. reflexivity.
  - intros Hne. destruct (select_magi magi (fullctx dis) (fullmagi dis)) as [|r l];
      [done|]. simpl.
    destruct sm as [sm|]; destruct (get_mean_stds _ _); eauto.
Qed.

(** With a site, no [imts] and a non-empty list of context arrays, the
    constructor raises [FarAwayRupture] exactly when no row of them is for
    the site, and returns the rows for the site otherwise. *)
Lemma Disaggregator_init_contexts (c : list Rupture) (cs : list (list Rupture))
    (id : option nat) (cm : ContextMaker) (edges : JobBinEdges) (lon lat : list Q) :
  let sid := default 0%nat id in
  let rows := concat (map (filter (fun rec => sids rec = sid)) (c :: cs)) in
  job_lon_edges edges !! sid = Some lon ->
  job_lat_edges edges !! sid = Some lat ->
  (rows = [] ->
   __init__ (Contexts (c :: cs)) (ASite id) cm edges None
   = Raise FarAwayRupture) /\
  (rows <> [] ->
   exists d, __init__ (Contexts (c :: cs)) (ASite id) cm edges None = Ok d /\
             fullctx d = rows /\
             fullmagi d = magnitude_bins (job_mag_edges edges) rows).
Proof.
  intros sid rows Hlon Hlat. unfold __init__. cbn [bind default].
  fold sid. rewrite Hlon, Hlat. cbn [bind]. fold rows. split.
  - intros ->. reflexivity.
  - intros Hne. destruct rows as [|r l] eqn:E; [done|].
    cbn [length Nat.eqb]. eexists; split; [reflexivity|]. done.
Qed.

(** ** The kernel returns *)

Lemma sequence_Ok_exists {A} (l : list (result A)) :
  Forall (fun r => exists a, r = Ok a) l -> exists r, sequence l = Ok r.
Proof.
  induction 1 as [|x l [a ->] _ [r IH]]; [by exists []|].
  exists (a :: r). simpl. by rewrite IH.
Qed.

Lemma disagg_eps_Ok (survival : list R) (bins : list nat) (bands : list R) :
  length survival = length bins ->
  _disagg_eps survival bins bands
    (map (fun e => Rsum (drop e bands)) (seq 0 (length bands)) ++ [0%R])
  = Ok (zip_with (fun s b =>
          imap (fun e band =>
            if (b <=? e)%nat then band
            else if (b =? e + 1)%nat then (s - Rsum (drop b bands))%R else 0%R) bands)
        survival bins).
Proof.
  intros Hlen. unfold _disagg_eps. rewrite Hlen, Nat.eqb_refl. simpl.
  apply sequence_zip_with_Ok. intros i s b _ _. apply disagg_eps_row_Ok.
Qed.

(** In epsilon-star mode the bin index of a residual inside
    [min_eps, max_eps) is always valid. *)
Lemma epsstar_index_Ok (e0 : Q) (rest : list Q) (lvl : Q) :
  Qle_bool (Qminimum e0 rest) lvl && Qlt_bool lvl (Qmaximum e0 rest) = true ->
  exists e,
    py_index (length rest) (Z.of_nat (searchsorted (e0 :: rest) lvl) - 1) = Ok e /\
    (e < length rest)%nat.
Proof.
  intros Hok. apply andb_true_iff in Hok as [Hmin Hmax].
  apply Qle_bool_iff in Hmin. apply Qlt_bool_iff in Hmax.
  assert (Hrest : (1 <= length rest)%nat).
  { destruct rest; [exfalso|simpl; lia]. unfold Qminimum, Qmaximum in *.
    simpl in *. lra. }
  pose proof (searchsorted_lt_length (e0 :: rest) lvl _ (Qmaximum_elem e0 rest)
                ltac:(lra)) as Hlt. cbn [length] in Hlt.
  destruct (py_index_Ok (length rest) (Z.of_nat (searchsorted (e0 :: rest) lvl) - 1))
    as (e & He & Hlt' & _); [lia..|]. eauto.
Qed.

Lemma poes_slice_Ok (U : nat) (mea std : nat -> nat -> nat -> Q) (cm : ContextMaker)
    (g m : nat) (edges : list Q) (mn mx : Q) (bands cum : list R) (star : bool)
    (iml : ext) :
  get_eps4 edges (truncation_level cm) = Ok (mn, mx, bands, cum) ->
  exists t, poes_slice U mea std cm g m edges mn mx bands cum star iml = Ok t.
Proof.
  intros Heps. pose proof Heps as Hinv.
  apply get_eps4_inv in Hinv as (Hbands & Hcum & e0 & rest & -> & -> & ->).
  assert (HE : length bands = length rest).
  { rewrite Hbands, length_zip_with, length_tail', length_removelast. simpl. lia. }
  unfold poes_slice. destruct iml as [|iml]; [eauto|].
  destruct star.
  - apply sequence_Ok_exists. apply Forall_forall. intros r Hr.
    apply list_elem_of_lookup in Hr as [i Hi].
    apply lookup_zip_with_Some in Hi as (lvl & idx & -> & Hlvl & Hidx).
    rewrite list_lookup_fmap, Hlvl in Hidx.
    change (Some (searchsorted (e0 :: rest) lvl) = Some idx) in Hidx.
    injection Hidx as <-.
    destruct (Qle_bool _ _ && Qlt_bool _ _) eqn:Hok; [|eauto].
    destruct (epsstar_index_Ok e0 rest lvl Hok) as (e & He & _).
    change (if Qlt_bool e0 lvl then S (searchsorted rest lvl) else 0%nat)
      with (searchsorted (e0 :: rest) lvl).
    rewrite HE, He. simpl. eauto.
  - subst cum. rewrite disagg_eps_Ok; [eauto|].
    by rewrite !length_map.
Qed.

Lemma disagg_by_eps_Ok (U : nat) (mea std : nat -> nat -> nat -> Q) (cm : ContextMaker)
    (g : nat) (iml2 : list (list ext)) (edges : list Q) (star : bool) :
  edges <> [] ->
  exists E slices, disagg_by_eps U mea std cm g iml2 edges star = Ok (E, slices).
Proof.
  intros Hne. unfold disagg_by_eps.
  destruct (get_eps4 edges (truncation_level cm)) as [[[[mn mx] bands] cum]|e] eqn:Heps.
  2: { destruct edges; [done|]. discriminate. }
  cbn [bind].
  destruct (sequence_Ok_exists
              (imap (fun m row =>
                 sequence (map (poes_slice U mea std cm g m edges mn mx bands cum star)
                             row)) iml2)) as [slices Hs].
  { apply Forall_forall. intros r Hr. apply list_elem_of_lookup in Hr as [m Hm].
    rewrite list_lookup_imap in Hm. destruct (iml2 !! m) as [row|]; [|done].
    simpl in Hm. inversion Hm; subst r.
    apply sequence_Ok_exists, Forall_forall. intros r Hr.
    apply list_elem_of_fmap in Hr as (iml & -> & _). by apply poes_slice_Ok. }
  rewrite Hs. simpl. eauto.
Qed.

(** The kernel returns a matrix whenever the epsilon edges are there and
    the other axes have at least one bin. *)
Lemma disaggregate_Ok (c : list Rupture) (mea std : nat -> nat -> nat -> Q)
    (cm : ContextMaker) (g : nat) (iml2 : list (list ext)) (edges : BinEdges)
    (star : bool) :
  (2 <= length (dist_edges edges))%nat -> (2 <= length (lon_edges edges))%nat ->
  (2 <= length (lat_edges edges))%nat -> (1 <= length (eps_edges edges))%nat ->
  exists mat, _disaggregate c mea std cm g iml2 edges star = Ok mat.
Proof.
  intros Hd Hlo Hla He. unfold _disaggregate.
  destruct (disagg_by_eps_Ok (length c) mea std cm g iml2 (eps_edges edges) star)
    as (E & slices & ->); [intros E0; rewrite E0 in He; simpl in He; lia|].
  cbn [bind].
  match goal with |- context [_build_disagg_matrix ?b _] =>
    destruct (build_disagg_matrix_cells b (dist_edges edges) (lon_edges edges)
                (lat_edges edges) (eps_edges edges) Hd Hlo Hla He)
      as (mat & _ & _ & _ & Hmat & _) end.
  eauto.
Qed.

(** ** Shapes and the weighted average *)

Lemma map_alter_same {A B} (g : A -> B) (f : A -> A) (i : nat) (l : list A) :
  (forall x, g (f x) = g x) -> map g (alter f i l) = map g l.
Proof.
  intros H. apply list_eq. intros j.
  rewrite !list_lookup_fmap, list_lookup_alter.
  destruct (decide (i = j)) as [->|]; [|done].
  destruct (l !! j); simpl; [|done]. by rewrite H.
Qed.

Lemma skeleton_alter3 (f : arr3 -> arr3) (i j k : nat) (mat : matrix) :
  skeleton (alter3 f i j k mat) = skeleton mat.
Proof.
  unfold skeleton, alter3. apply map_alter_same. intros row.
  apply map_alter_same. intros col. by apply map_alter_same.
Qed.

Lemma accumulate_skeleton (D Lo La : nat) (rups : list (Z * Z * Z * arr3)) :
  forall mat mat', accumulate D Lo La mat rups = Ok mat' -> skeleton mat' = skeleton mat.
Proof.
  induction rups as [|[[[id il] ia] pne] rups IH]; intros mat mat' H; simpl in H.
  - by inversion H.
  - apply bind_Ok in H as (i & _ & H). apply bind_Ok in H as (j & _ & H).
    apply bind_Ok in H as (k & _ & H). rewrite (IH _ _ H). apply skeleton_alter3.
Qed.

Lemma map_replicate {A B} (f : A -> B) (n : nat) (x : A) :
  map f (replicate n x) = replicate n (f x).
Proof. induction n as [|n IH]; simpl; [done|]. by rewrite IH. Qed.

Lemma disaggregate_skeleton (c : list Rupture) (mea std : nat -> nat -> nat -> Q)
    (cm : ContextMaker) (g : nat) (iml2 : list (list ext)) (edges : BinEdges)
    (star : bool) (mat : matrix) :
  _disaggregate c mea std cm g iml2 edges star = Ok mat ->
  skeleton mat = shape_of edges.
Proof.
  unfold _disaggregate. intros H. apply bind_Ok in H as (r & _ & H).
  unfold _build_disagg_matrix in H. apply bind_Ok in H as (lons_idx & _ & H).
  destruct (_ || _) in H; [done|].
  apply bind_Ok in H as (acc & Hacc & H). inversion H; subst mat.
  apply accumulate_skeleton in Hacc.
  unfold skeleton in *. rewrite !map_map.
  rewrite (map_ext _ (map (map (fun _ : arr3 => tt)))).
  2: { intros row. rewrite map_map. apply map_ext. intros col. by rewrite map_map. }
  rewrite Hacc. unfold shape_of. rewrite !map_replicate.
  do 3 f_equal; lia.
Qed.

Lemma sequence_map_Forall2 {A B} (f : A -> result B) (l : list A) (r : list B) :
  sequence (map f l) = Ok r -> Forall2 (fun x y => f x = Ok y) l r.
Proof.
  revert r. induction l as [|x l IH]; simpl; intros r H.
  - inversion H. constructor.
  - apply bind_Ok in H as (a & Ha & H). apply bind_Ok in H as (rest & Hrest & H).
    inversion H; subst. constructor; auto.
Qed.

Lemma cell_at_default (mats : list matrix) (cells : list arr3) (i j k : nat) :
  Forall2 (fun M c => cell_at M i j k = Some c) mats cells ->
  map (fun mat => default ones3 (cell_at mat i j k)) mats = cells.
Proof. induction 1 as [|M c mats cells H _ IH]; simpl; [done|]. by rewrite H, IH. Qed.

Lemma cell_at_imap3 (F : nat -> nat -> nat -> arr3) (M : matrix) (i j k : nat)
    (c : arr3) :
  cell_at M i j k = Some c ->
  cell_at (imap (fun i row => imap (fun j col => imap (fun k (_ : arr3) => F i j k) col)
                                row) M) i j k
  = Some (F i j k).
Proof.
  unfold cell_at. intros H. rewrite list_lookup_imap.
  destruct (M !! i) as [row|]; [|done]. simpl in *.
  rewrite list_lookup_imap. destruct (row !! j) as [col|]; [|done]. simpl in *.
  rewrite list_lookup_imap, H. reflexivity.
Qed.

(** The average of matrices of one shape, with as many weights of
    non-zero sum, is taken cell by cell. *)
Lemma average_Ok (mats : list matrix) (ws : list R) (S : list (list (list unit))) :
  Forall (fun M => skeleton M = S) mats -> length mats = length ws ->
  Rsum ws <> 0%R ->
  exists avg,
    average mats ws = Ok avg /\
    forall i j k cells,
      mats <> [] -> Forall2 (fun M c => cell_at M i j k = Some c) mats cells ->
      cell_at avg i j k = Some (average_cell ws cells).
Proof.
  intros Hskel Hlen Hsum. unfold average.
  assert (Hall : forallb (fun mat =>
            bool_decide (skeleton mat = skeleton (default [] (head mats)))) mats = true).
  { apply forallb_forall. intros M HM. apply bool_decide_eq_true.
    rewrite Forall_forall in Hskel. rewrite (Hskel M) by by apply list_elem_of_In.
    destruct mats as [|M0 mats]; [done|]. simpl. symmetry. apply Hskel, list_elem_of_here. }
  rewrite Hall, Hlen, Nat.eqb_refl. simpl.
  destruct (Req_dec_T (Rsum ws) 0) as [E|_]; [done|].
  eexists; split; [reflexivity|].
  intros i j k cells Hne Hcells.
  rewrite <- (cell_at_default _ _ _ _ _ Hcells).
  destruct mats as [|M0 mats]; [done|].
  inversion Hcells as [|? c0 ? ? Hc0 _]; subst.
  apply (cell_at_imap3
           (fun i j k => average_cell ws
              (map (fun mat => default ones3 (cell_at mat i j k)) (M0 :: mats)))
           M0 i j k c0 Hc0).
Qed.

(** ** Mutually exclusive sources *)

Lemma imlog2_of_Ok (imts : list string) (iml2 : list (list Q)) :
  (length imts <= length iml2)%nat -> exists imlog2, imlog2_of imts iml2 = Ok imlog2.
Proof.
  intros H. unfold imlog2_of. destruct (Nat.ltb_spec (length iml2) (length imts)); [lia|].
  eauto.
Qed.

(** With mutually exclusive sources [disagg6D] returns, and its cells are
    the averages of the cells of the matrices of the ranges. *)
Lemma disagg6D_mutex (st : MagBin) (sm : SrcMutex) (iml2 : list (list Q)) (g : nat) :
  src_mutex st = Some sm ->
  (length (imts (cmaker (dis st))) <= length iml2)%nat ->
  (2 <= length (dist_edges (bin_edges (dis st))))%nat ->
  (2 <= length (lon_edges (bin_edges (dis st))))%nat ->
  (2 <= length (lat_edges (bin_edges (dis st))))%nat ->
  (1 <= length (eps_edges (bin_edges (dis st))))%nat ->
  length (zip (mutex_start sm) (mutex_stop sm)) = length (weights st) ->
  Rsum (weights st) <> 0%R ->
  exists (imlog2 : list (list ext)) (mats : list matrix) (avg : matrix),
    imlog2_of (imts (cmaker (dis st))) iml2 = Ok imlog2 /\
    Forall2 (fun r M => disaggregate_range st g imlog2 r.1 r.2 = Ok M)
      (zip (mutex_start sm) (mutex_stop sm)) mats /\
    disagg6D st iml2 g = Ok avg /\
    forall i j k cells,
      Forall2 (fun M c => cell_at M i j k = Some c) mats cells ->
      cell_at avg i j k = Some (average_cell (weights st) cells).
Proof.
  intros Hsm Himts Hd Hlo Hla He Hlen Hsum.
  destruct (imlog2_of_Ok _ _ Himts) as [imlog2 Himl].
  set (ranges := zip (mutex_start sm) (mutex_stop sm)) in *.
  destruct (sequence_Ok_exists
              (map (fun '(s1, s2) => disaggregate_range st g imlog2 s1 s2) ranges))
    as [mats Hmats].
  { apply Forall_forall. intros r Hr. apply list_elem_of_fmap in Hr as ([s1 s2] & -> & _).
    by apply disaggregate_Ok. }
  assert (HF : Forall2 (fun r M => disaggregate_range st g imlog2 r.1 r.2 = Ok M)
                 ranges mats).
  { apply sequence_map_Forall2 in Hmats.
    eapply Forall2_impl; [exact Hmats|]. by intros [s1 s2] M. }
  destruct (average_Ok mats (weights st) (shape_of (bin_edges (dis st))))
    as (avg & Havg & Hcell).
  { apply Forall_forall. intros M HM.
    apply list_elem_of_lookup in HM as [s HM].
    destruct (Forall2_lookup_r _ _ _ _ _ HF HM) as (r & _ & Hr).
    by apply disaggregate_skeleton in Hr. }
  { rewrite <- Hlen. symmetry. by eapply Forall2_length. }
  { exact Hsum. }
  assert (Hmne : mats <> []).
  { intros ->. apply Forall2_length in HF. rewrite HF in Hlen. simpl in Hlen.
    destruct (weights st); [simpl in Hsum; lra|done]. }
  exists imlog2, mats, avg. split; [exact Himl|]. split; [exact HF|]. split.
  { unfold disagg6D. rewrite Himl, Hsm. cbn [bind]. fold ranges.
    rewrite Hmats. exact Havg. }
  intros i j k cells Hcells. by apply Hcell.
Qed.

(** The weights that [init] keeps: when the listing of the sources and
    the ids of the runs are both increasing and every run is listed, the
    kept weights are those of the runs, position by position. *)
Lemma listed_weights_aligned (P : nat -> Prop) `{!forall x, Decision (P x)}
    (S : list nat) (W : list R) (ids : list nat) :
  StronglySorted lt S -> StronglySorted lt ids ->
  (forall x, x ∈ ids -> x ∈ S) -> length S = length W ->
  (forall x, x ∈ S -> (P x <-> x ∈ ids)) ->
  Forall2 (fun id w => exists j : nat, S !! j = Some id /\ W !! j = Some w) ids
    (map snd (filter (fun sw : nat * R => P sw.1) (zip S W))).
Proof.
  intros HS. revert W ids. induction HS as [|s S' HS' IH Hs]; intros W ids Hids Hsub Hlen HP.
  - destruct ids as [|h ids']; [constructor|].
    specialize (Hsub h (list_elem_of_here _ _)). by apply elem_of_nil in Hsub.
  - destruct W as [|w W']; [discriminate|]. simpl in Hlen.
    assert (Hshift : forall ids0 ws,
              Forall2 (fun id w0 => exists j : nat, S' !! j = Some id /\ W' !! j = Some w0)
                ids0 ws ->
              Forall2 (fun id w0 => exists j : nat,
                         (s :: S') !! j = Some id /\ (w :: W') !! j = Some w0) ids0 ws).
    { intros ids0 ws HF. eapply Forall2_impl; [exact HF|].
      intros id w0 (j & H1 & H2). by exists (Datatypes.S j). }
    rewrite Forall_forall in Hs.
    cbn [zip zip_with]. rewrite filter_cons. cbn [fst].
    destruct (decide (P s)) as [Hp|Hp].
    + apply (HP s (list_elem_of_here _ _)) in Hp.
      destruct ids as [|h ids']; [by apply elem_of_nil in Hp|].
      apply StronglySorted_inv in Hids as [Hids' Hh]. rewrite Forall_forall in Hh.
      assert (h = s) as ->.
      { pose proof (Hsub h (list_elem_of_here _ _)) as Hin.
        apply elem_of_cons in Hin as [?|Hin]; [done|].
        apply elem_of_cons in Hp as [?|Hp]; [done|].
        specialize (Hs h Hin). specialize (Hh s Hp). lia. }
      cbn [map snd]. constructor; [by exists 0%nat|].
      apply Hshift, IH; [exact Hids'| |lia|].
      * intros x Hx. specialize (Hh x Hx).
        pose proof (Hsub x (list_elem_of_further _ _ _ Hx)) as Hin.
        apply elem_of_cons in Hin as [?|Hin]; [lia|exact Hin].
      * intros x Hx. specialize (Hs x Hx).
        rewrite (HP x (list_elem_of_further _ _ _ Hx)), elem_of_cons.
        split; [intros [?|?]; [lia|done] | by right].
    + apply Hshift, IH; [exact Hids| |lia|].
      * intros x Hx. pose proof (Hsub x Hx) as Hin.
        apply elem_of_cons in Hin as [->|Hin]; [|exact Hin].
        exfalso. apply Hp. by apply (HP s (list_elem_of_here _ _)).
      * intros x Hx. apply HP. by apply list_elem_of_further.
Qed.

Lemma zip_map_same {A B C} (f : A -> B) (h : A -> C) (l : list A) :
  zip (map f l) (map h l) = map (fun x => (f x, h x)) l.
Proof. induction l as [|a l IH]; [reflexivity|]. simpl. by rewrite <- IH. Qed.

(** C4. With mutually exclusive sources, [disagg6D] runs the kernel once
    per source range [(start, stop)], on the rows [ctx[start:stop]] with
    their means and standard deviations, in the order of the ranges, and
    returns the average of these matrices with the weights taken in the
    same order: cell by cell, the sum of [weights[s] * mats[s]] over the
    sum of the weights. For two ranges of weight 1/2 each the cell is
    [(M1 + M2) / 2]; for probabilities [M1], [M2] this is at most
    [1 - (1 - M1)(1 - M2)] and differs from it unless both are 0 or both
    are 1. When the state comes from [init], the context is the sorted
    selection of the magnitude bin, the ranges are the runs of equal source
    ids in it, in their order, and the weights are those of the listed
    sources that have a run, in the order of the listing; when the listing
    and the runs are both in increasing order of source id, the weight at
    each position is the one listed for the source of the range at that
    position. *)
Theorem disagg6D_mutex_average (st : MagBin) (sm : SrcMutex) (iml2 : list (list Q))
    (g : nat) :
  src_mutex st = Some sm ->
  (length (imts (cmaker (dis st))) <= length iml2)%nat ->
  (2 <= length (dist_edges (bin_edges (dis st))))%nat ->
  (2 <= length (lon_edges (bin_edges (dis st))))%nat ->
  (2 <= length (lat_edges (bin_edges (dis st))))%nat ->
  (1 <= length (eps_edges (bin_edges (dis st))))%nat ->
  length (zip (mutex_start sm) (mutex_stop sm)) = length (weights st) ->
  Rsum (weights st) <> 0%R ->
  exists (imlog2 : list (list ext)) (mats : list matrix) (avg : matrix),
    imlog2_of (imts (cmaker (dis st))) iml2 = Ok imlog2 /\
    Forall2 (fun r M =>
               _disaggregate (take (r.2 - r.1) (drop r.1 (ctx st)))
                 (fun g m u => mea st g m (r.1 + u)%nat)
                 (fun g m u => std st g m (r.1 + u)%nat)
                 (cmaker (dis st)) g imlog2 (bin_edges (dis st)) (epsstar (dis st))
               = Ok M)
      (zip (mutex_start sm) (mutex_stop sm)) mats /\
    disagg6D st iml2 g = Ok avg /\
    (forall i j k cells,
       Forall2 (fun M c => cell_at M i j k = Some c) mats cells ->
       exists c : arr3,
         cell_at avg i j k = Some c /\
         forall e m p,
           c e m p
           = (Rsum (zip_with (fun w c => c e m p * w) (weights st) cells)
              / Rsum (weights st))%R) /\
    (forall M1 M2 i j k c1 c2,
       mats = [M1; M2] -> weights st = [(1 / 2)%R; (1 / 2)%R] ->
       cell_at M1 i j k = Some c1 -> cell_at M2 i j k = Some c2 ->
       exists c : arr3,
         cell_at avg i j k = Some c /\
         forall e m p,
           c e m p = ((c1 e m p + c2 e m p) / 2)%R /\
           ((0 <= c1 e m p <= 1)%R -> (0 <= c2 e m p <= 1)%R ->
            (c e m p <= 1 - (1 - c1 e m p) * (1 - c2 e m p))%R /\
            (c e m p = (1 - (1 - c1 e m p) * (1 - c2 e m p))%R ->
             c1 e m p = c2 e m p /\ (c1 e m p = 0%R \/ c1 e m p = 1%R)))) /\
    (forall (d : Disaggregator) (i : Z) (sm0 : SrcMutex),
       init d i (Some sm0) = Ok st ->
       let runs := idx_start_stop (map src_id (ctx st)) in
       ctx st = sort_by_src_id (select_magi i (fullctx d) (fullmagi d)) /\
       zip (mutex_start sm) (mutex_stop sm) = map (fun x => (x.1.2, x.2)) runs /\
       weights st
       = map snd (filter (fun sw => sw.1 ∈ map (fun x => x.1.1) runs)
                    (zip (mutex_src_id sm0) (mutex_weight sm0))) /\
       (StronglySorted lt (map (fun x => x.1.1) runs) ->
        StronglySorted lt (mutex_src_id sm0) ->
        (forall x, x ∈ map (fun x => x.1.1) runs -> x ∈ mutex_src_id sm0) ->
        length (mutex_src_id sm0) = length (mutex_weight sm0) ->
        Forall2 (fun run w =>
                   exists j : nat,
                     mutex_src_id sm0 !! j = Some run.1.1 /\
                     mutex_weight sm0 !! j = Some w)
          runs (weights st))).
Proof.
  intros Hsm Himts Hd Hlo Hla He Hlen Hsum.
  destruct (disagg6D_mutex st sm iml2 g Hsm Himts Hd Hlo Hla He Hlen Hsum)
    as (imlog2 & mats & avg & Himl & HF & Havg & Hcell).
  exists imlog2, mats, avg. split; [exact Himl|]. split.
  { eapply Forall2_impl; [exact HF|]. intros r M Hr. exact Hr. }
  split; [exact Havg|]. split; [|split].
  - intros i j k cells Hcells. eexists; split; [by apply Hcell|].
    intros e m p. reflexivity.
  - intros M1 M2 i j k c1 c2 -> Hw H1 H2.
    eexists; split; [apply (Hcell i j k [c1; c2]); by repeat constructor|].
    intros e m p. unfold average_cell. rewrite Hw. simpl.
    assert (Hv : (((c1 e m p * (1 / 2) + (c2 e m p * (1 / 2) + 0))
                   / (1 / 2 + (1 / 2 + 0)))%R = ((c1 e m p + c2 e m p) / 2)%R))
      by (field; lra).
    split; [exact Hv|]. intros Hc1 Hc2. rewrite Hv. split; [nra|].
    intros Heq.
    assert (Hz : (c1 e m p * (1 - c2 e m p) + c2 e m p * (1 - c1 e m p) = 0)%R) by lra.
    assert (Ha : (0 <= c1 e m p * (1 - c2 e m p))%R) by nra.
    assert (Hb : (0 <= c2 e m p * (1 - c1 e m p))%R) by nra.
    assert (Ha0 : (c1 e m p * (1 - c2 e m p) = 0)%R) by lra.
    assert (Hb0 : (c2 e m p * (1 - c1 e m p) = 0)%R) by lra.
    apply Rmult_integral in Ha0, Hb0.
    destruct Ha0 as [?|?], Hb0 as [?|?]; split; try lra; (left; lra) || (right; lra).
  - intros d i sm0 Hinit runs. unfold init in Hinit.
    destruct (length (select_magi i (fullctx d) (fullmagi d)) =? 0)%nat;
      [discriminate|].
    destruct (get_mean_stds (cmaker d)
                (sort_by_src_id (select_magi i (fullctx d) (fullmagi d))))
      as [me sd].
    injection Hinit as Hst. subst st. cbn [ctx weights src_mutex] in *.
    injection Hsm as Hsm. subst sm. cbn [mutex_start mutex_stop].
    split; [reflexivity|]. split; [apply zip_map_same|]. split; [reflexivity|].
    intros Hruns Hlist Hsub Hlens.
    pose proof (listed_weights_aligned
                  (fun x => x ∈ map (fun x : nat * nat * nat => x.1.1) runs)
                  (mutex_src_id sm0) (mutex_weight sm0)
                  (map (fun x : nat * nat * nat => x.1.1) runs)
                  Hlist Hruns Hsub Hlens (fun x _ => conj (fun H => H) (fun H => H)))
      as HF2.
    apply Forall2_fmap_l in HF2. exact HF2.
Qed.

(** ** Range of the exceedance probabilities *)

Lemma bands_cons (f : Q -> R) (x y : Q) (rest : list Q) :
  zip_with (fun hi lo => (f hi - f lo)%R) (tail (x :: y :: rest))
    (removelast (x :: y :: rest))
  = (f y - f x)%R
    :: zip_with (fun hi lo => (f hi - f lo)%R) (tail (y :: rest)) (removelast (y :: rest)).
Proof. reflexivity. Qed.

(** The cumulative mass from a bin on telescopes to a CDF difference. *)
Lemma bands_telescope (f : Q -> R) (edges : list Q) (b : nat) :
  edges <> [] ->
  (b <= length (zip_with (fun hi lo => (f hi - f lo)%R) (tail edges)
                  (removelast edges)))%nat ->
  exists xb xl,
    edges !! b = Some xb /\ last edges = Some xl /\
    Rsum (drop b (zip_with (fun hi lo => (f hi - f lo)%R) (tail edges)
                    (removelast edges)))
    = (f xl - f xb)%R.
Proof.
  revert b. induction edges as [|x edges IH]; intros b Hne Hb; [done|].
  destruct edges as [|y rest].
  - simpl in Hb. assert (b = 0)%nat as -> by lia.
    exists x, x. repeat split. simpl. lra.
  - rewrite bands_cons in Hb |- *. destruct b as [|b].
    + destruct (IH 0%nat) as (xb & xl & Hxb & Hxl & Hsum); [done | lia |].
      simpl in Hxb. inversion Hxb; subst xb.
      exists x, xl. split; [done|]. split; [exact Hxl|].
      rewrite drop_0 in *. cbn [Rsum fold_right] in *. unfold Rsum in Hsum.
      rewrite Hsum. lra.
    + destruct (IH b) as (xb & xl & Hxb & Hxl & Hsum); [done | cbn [length] in Hb; lia |].
      exists xb, xl. split; [exact Hxb|]. split; [exact Hxl|]. exact Hsum.
Qed.

Lemma sorted_adjacent (edges : list Q) (e : nat) (lo hi : Q) :
  StronglySorted Qlt edges -> edges !! e = Some lo -> edges !! (e + 1)%nat = Some hi ->
  (lo < hi)%Q.
Proof.
  intros Hs. revert e. induction Hs as [|x edges Hs IH Hall]; intros e Hlo Hhi; [done|].
  destruct e as [|e]; simpl in *.
  - inversion Hlo; subst. rewrite Forall_forall in Hall.
    apply Hall. by eapply list_elem_of_lookup_2.
  - by apply (IH e).
Qed.

Lemma exp_nonpos_le_1 (x : R) : (x <= 0)%R -> (0 < exp x <= 1)%R.
Proof.
  intros H. split; [apply exp_pos|].
  destruct H as [H | ->]; [|rewrite exp_0; lra].
  left. rewrite <- exp_0. by apply exp_increasing.
Qed.

Lemma Rprod_range (l : list R) :
  Forall (fun x => (0 <= x <= 1)%R) l -> (0 <= Rprod l <= 1)%R.
Proof.
  induction 1 as [|x l Hx _ IH]; simpl; [lra|]. nra.
Qed.

(** With a distribution-like CDF and ascending edges, no entry of a slice
    of exceedance probabilities is negative. *)
Lemma poes_slice_nonneg (U : nat) (mea std : nat -> nat -> nat -> Q) (cm : ContextMaker)
    (g m : nat) (edges : list Q) (mn mx : Q) (bands cum : list R) (star : bool)
    (iml : ext) (t : list (list R)) :
  distribution_like cm -> StronglySorted Qlt edges ->
  get_eps4 edges (truncation_level cm) = Ok (mn, mx, bands, cum) ->
  poes_slice U mea std cm g m edges mn mx bands cum star iml = Ok t ->
  forall u row e v, t !! u = Some row -> row !! e = Some v -> (0 <= v)%R.
Proof.
  intros (Hmono & Hle1 & Hsf) Hsorted Heps Ht u row e v Hrow Hv.
  pose proof Heps as Hinv.
  apply get_eps4_inv in Hinv as (Hbands & Hcum & e0 & rest & Hedges & -> & ->).
  assert (Hsf0 : forall x, (0 <= truncnorm_sf (phi_b cm) x)%R).
  { intros x. rewrite Hsf. specialize (Hle1 x). lra. }
  unfold poes_slice in Ht. destruct iml as [|iml].
  { inversion Ht; subst t. apply lookup_replicate in Hrow as [-> _].
    apply lookup_replicate in Hv as [-> _]. lra. }
  destruct star.
  - apply sequence_Ok_lookup in Ht as [_ Ht]. specialize (Ht u row Hrow).
    apply lookup_zip_with_Some in Ht as (lvl & idx & Hr & _ & _).
    destruct (Qle_bool _ _ && Qlt_bool _ _).
    + symmetry in Hr. apply bind_Ok in Hr as (e' & _ & Hr). inversion Hr; subst row.
      apply list_lookup_insert_Some in Hv as [(_ & <- & _)|(_ & Hv)]; [apply Hsf0|].
      apply lookup_replicate in Hv as [-> _]. lra.
    + inversion Hr; subst row. apply lookup_replicate in Hv as [-> _]. lra.
  - subst cum. rewrite disagg_eps_Ok in Ht by by rewrite !length_map.
    inversion Ht; subst t. clear Ht.
    apply lookup_zip_with_Some in Hrow as (s & b & -> & Hs & Hb).
    rewrite list_lookup_imap in Hv.
    destruct (bands !! e) as [band|] eqn:Hband; [|done]. simpl in Hv.
    inversion Hv; subst v. clear Hv.
    rewrite list_lookup_fmap in Hs. rewrite list_lookup_fmap in Hb.
    destruct (_ !! u) as [lvl|] eqn:Hlvl; [|done].
    simpl in Hs, Hb. inversion Hs; subst s. inversion Hb; subst b. clear Hs Hb.
    destruct (Nat.leb_spec (searchsorted edges lvl) e).
    + (* a full band *)
      rewrite Hbands in Hband. apply lookup_zip_with_Some in Hband
        as (hi & lo & -> & Hhi & Hlo).
      rewrite lookup_tail in Hhi.
      assert (Hlt : (e + 1 < length edges)%nat)
        by (apply lookup_lt_Some in Hhi; lia).
      rewrite lookup_removelast in Hlo by done.
      replace (S e) with (e + 1)%nat in Hhi by lia.
      pose proof (sorted_adjacent edges e lo hi Hsorted Hlo Hhi).
      assert (lo <= hi)%Q as Hlh by lra. specialize (Hmono lo hi Hlh). lra.
    + destruct (Nat.eqb_spec (searchsorted edges lvl) (e + 1)) as [Hb|_]; [|lra].
      (* the bin of the residual *)
      assert (He : (e < length bands)%nat) by by eapply lookup_lt_Some.
      destruct (bands_telescope (tn_cdf (truncation_level cm)) edges
                  (searchsorted edges lvl)) as (xb & xl & Hxb & _ & Hsum).
      { by rewrite Hedges. }
      { rewrite <- Hbands. lia. }
      rewrite <- Hbands in Hsum. rewrite Hsum, Hsf.
      pose proof (searchsorted_at edges lvl xb Hxb) as Hle.
      specialize (Hmono lvl xb Hle). specialize (Hle1 xl). lra.
Qed.

Lemma poes_of_nonneg (U : nat) (mea std : nat -> nat -> nat -> Q) (cm : ContextMaker)
    (g : nat) (iml2 : list (list ext)) (edges : list Q) (star : bool) (E : nat)
    (slices : list (list (list (list R)))) :
  distribution_like cm -> StronglySorted Qlt edges ->
  disagg_by_eps U mea std cm g iml2 edges star = Ok (E, slices) ->
  forall u e m p, (0 <= poes_of slices u e m p)%R.
Proof.
  intros Hdist Hsorted H u e m p. unfold disagg_by_eps in H.
  apply bind_Ok in H as ([[[mn mx] bands] cum] & Heps & H).
  apply bind_Ok in H as (sl & Hsl & H). inversion H; subst E slices. clear H.
  unfold poes_of.
  destruct (sl !! m) as [row|] eqn:Hm; simpl; [|lra].
  destruct (row !! p) as [t|] eqn:Hp; simpl; [|lra].
  destruct (t !! u) as [r|] eqn:Hu; simpl; [|lra].
  destruct (r !! e) as [v|] eqn:He; simpl; [|lra].
  apply sequence_Ok_lookup in Hsl as [_ Hsl]. specialize (Hsl m row Hm).
  rewrite list_lookup_imap in Hsl.
  destruct (iml2 !! m) as [imls|]; [|done]. simpl in Hsl.
  inversion Hsl as [Hrow]. clear Hsl.
  apply sequence_Ok_lookup in Hrow as [_ Hrow]. specialize (Hrow p t Hp).
  rewrite list_lookup_fmap in Hrow.
  destruct (imls !! p) as [iml|]; [|done]. simpl in Hrow.
  inversion Hrow as [Ht].
  by apply (poes_slice_nonneg U mea std cm g m edges mn mx bands cum star iml t
              Hdist Hsorted Heps Ht u r e v).
Qed.

Lemma non_poissonian_existsb (c : list Rupture) :
  existsb (fun rec => negb (length (probs_occur rec) =? 0)%nat) c = true ->
  non_poissonian c.
Proof.
  intros H. apply existsb_exists in H as (rec & Hin & Hne).
  exists rec. split; [by apply list_elem_of_In|].
  intros E. rewrite E in Hne. discriminate.
Qed.

(** The no-exceedance probabilities are probabilities; [get_pnes] matters
    only for a batch that goes through it. *)
Lemma multiplying_pnes_range (c : list Rupture) (poes : nat -> arr3) (t : R) :
  (non_poissonian c -> pnes_in_range) ->
  (forall rec, rec ∈ c -> (0 <= occurrence_rate rec)%R) -> (0 <= t)%R ->
  (forall u e m p, (0 <= poes u e m p)%R) ->
  forall pne, pne ∈ multiplying_pnes c poes t ->
    forall e m p, (0 <= pne e m p <= 1)%R.
Proof.
  intros Hpnes Hrate Ht Hpoes pne Hin e m p.
  apply list_elem_of_lookup in Hin as [u Hu].
  unfold multiplying_pnes in Hu. destruct (existsb _ _) eqn:Ex.
  - specialize (Hpnes (non_poissonian_existsb c Ex)).
    rewrite list_lookup_imap in Hu. destruct (c !! u) as [rec|] eqn:Hrec; [|done].
    simpl in Hu. inversion Hu; subst pne. unfold mul3, ones3.
    assert (Hr : (0 <= occurrence_rate rec)%R)
      by (apply Hrate; by eapply list_elem_of_lookup_2).
    specialize (Hpnes (occurrence_rate rec) (probs_occur rec) (poes u) t Hr Ht
                  (Hpoes u) e m p). lra.
  - rewrite list_lookup_imap in Hu. destruct (c !! u) as [rec|] eqn:Hrec; [|done].
    simpl in Hu. inversion Hu; subst pne. unfold mul3, ones3.
    assert (Hr : (0 <= occurrence_rate rec)%R)
      by (apply Hrate; by eapply list_elem_of_lookup_2).
    specialize (Hpoes u e m p).
    assert (Hrp : (0 <= occurrence_rate rec * poes u e m p)%R) by nra.
    destruct (exp_nonpos_le_1 (- occurrence_rate rec * poes u e m p * t)); [nra|lra].
Qed.

(** The cells of the kernel's matrix: one minus a product of
    no-exceedance probabilities, hence a probability. *)
Lemma disaggregate_cells (c : list Rupture) (mea std : nat -> nat -> nat -> Q)
    (cm : ContextMaker) (g : nat) (iml2 : list (list ext)) (edges : BinEdges)
    (star : bool) :
  distribution_like cm -> (non_poissonian c -> pnes_in_range) ->
  StronglySorted Qlt (eps_edges edges) ->
  (2 <= length (dist_edges edges))%nat -> (2 <= length (lon_edges edges))%nat ->
  (2 <= length (lat_edges edges))%nat -> (1 <= length (eps_edges edges))%nat ->
  (forall rec, rec ∈ c -> (0 <= occurrence_rate rec)%R) -> (0 <= time_span cm)%R ->
  let D := (length (dist_edges edges) - 1)%nat in
  let Lo := (length (lon_edges edges) - 1)%nat in
  let La := (length (lat_edges edges) - 1)%nat in
  exists (E : nat) (slices : list (list (list (list R)))) (lons_idx : list Z)
         (mat : matrix),
    disagg_by_eps (length c) mea std cm g iml2 (eps_edges edges) star = Ok (E, slices) /\
    _digitize_lons (map clon c) (lon_edges edges) = Ok lons_idx /\
    _disaggregate c mea std cm g iml2 edges star = Ok mat /\
    let rups :=
      zip4 (fold_last (Z.of_nat D) (digitize_minus_1 (map rrup c) (dist_edges edges)))
           (fold_last (Z.of_nat Lo) lons_idx)
           (fold_last (Z.of_nat La) (digitize_minus_1 (map clat c) (lat_edges edges)))
           (multiplying_pnes c (poes_of slices) (time_span cm)) in
    forall i j k, (i < D)%nat -> (j < Lo)%nat -> (k < La)%nat ->
      exists cell : arr3,
        cell_at mat i j k = Some cell /\
        forall e m p,
          cell e m p
          = (1 - Rprod (map (fun r => r.2 e m p)
                          (List.filter (lands_in D Lo La i j k) rups)))%R /\
          (0 <= cell e m p <= 1)%R.
Proof.
  intros Hdist Hpnes Hsorted Hd Hlo Hla He Hrate Ht D Lo La.
  destruct (disagg_by_eps_Ok (length c) mea std cm g iml2 (eps_edges edges) star)
    as (E & slices & Hby); [intros E0; rewrite E0 in He; simpl in He; lia|].
  set (bdata := {| dists := map rrup c; lons := map clon c; lats := map clat c;
                   pnes := multiplying_pnes c (poes_of slices) (time_span cm) |}).
  destruct (build_disagg_matrix_cells bdata (dist_edges edges) (lon_edges edges)
              (lat_edges edges) (eps_edges edges) Hd Hlo Hla He)
    as (mat & lons_idx & Hlons & _ & Hmat & Hcells).
  exists E, slices, lons_idx, mat. split; [exact Hby|]. split; [exact Hlons|]. split.
  { unfold _disaggregate. rewrite Hby. exact Hmat. }
  intros rups i j k Hi Hj Hk.
  destruct (Hcells i j k Hi Hj Hk) as (cell & Hcell & Hval).
  exists cell. split; [exact Hcell|]. intros e m p. split; [apply Hval|].
  rewrite Hval.
  match goal with |- (0 <= 1 - ?x <= 1)%R => assert (Hr : (0 <= x <= 1)%R); [|lra] end.
  apply Rprod_range, Forall_forall. intros x Hx.
  apply list_elem_of_fmap in Hx as (r & -> & Hr).
  apply list_elem_of_In, filter_In in Hr as [Hr _]. apply list_elem_of_In in Hr.
  apply list_elem_of_lookup in Hr as [u Hu].
  apply lookup_zip4 in Hu as (_ & _ & _ & Hpne).
  apply (multiplying_pnes_range c (poes_of slices) (time_span cm) Hpnes Hrate Ht).
  - by apply (poes_of_nonneg (length c) mea std cm g iml2 (eps_edges edges) star E).
  - by eapply list_elem_of_lookup_2.
Qed.

Lemma weighted_sum_range (ws : list R) (cells : list arr3) (e m p : nat) :
  Forall (fun w => (0 <= w)%R) ws ->
  Forall (fun c : arr3 => forall e m p, (0 <= c e m p <= 1)%R) cells ->
  (0 <= Rsum (zip_with (fun w (c : arr3) => c e m p * w) ws cells) <= Rsum ws)%R.
Proof.
  intros Hw. revert cells. induction Hw as [|w ws Hw0 Hw IH]; intros cells Hc.
  - simpl. lra.
  - destruct Hc as [|c cells Hc0 Hc].
    + simpl. assert (0 <= Rsum ws)%R; [|lra].
      clear IH. induction Hw; simpl; lra.
    + simpl. specialize (IH cells Hc). specialize (Hc0 e m p). nra.
Qed.

Lemma average_cell_range (ws : list R) (cells : list arr3) :
  Forall (fun w => (0 <= w)%R) ws -> (0 < Rsum ws)%R ->
  Forall (fun c : arr3 => forall e m p, (0 <= c e m p <= 1)%R) cells ->
  forall e m p, (0 <= average_cell ws cells e m p <= 1)%R.
Proof.
  intros Hw Hpos Hc e m p. unfold average_cell.
  pose proof (weighted_sum_range ws cells e m p Hw Hc) as [H0 H1].
  pose proof (Rinv_0_lt_compat _ Hpos) as Hinv.
  unfold Rdiv. split; [apply Rmult_le_pos; [exact H0 | by apply Rlt_le]|].
  apply (Rmult_le_reg_r (Rsum ws)); [done|].
  rewrite Rmult_assoc, Rinv_l by lra. rewrite Rmult_1_r, Rmult_1_l. exact H1.
Qed.

Lemma Forall_exists_Forall2 {A B} (P : A -> B -> Prop) (Q : B -> Prop) (l : list A) :
  Forall (fun a => exists b, P a b /\ Q b) l ->
  exists k, Forall2 P l k /\ Forall Q k.
Proof.
  induction 1 as [|a l (b & Hb & Hq) _ (k & Hk & Hqk)]; [by exists []|].
  exists (b :: k). split; by constructor.
Qed.

Lemma elem_of_slice {A} (s1 s2 : nat) (l : list A) (x : A) :
  x ∈ slice s1 s2 l -> x ∈ l.
Proof. unfold slice. intros H. by apply subseteq_drop with s1, subseteq_take with (s2 - s1)%nat. Qed.

(** C7 (as amended). The truncated normal behaves as a distribution,
    [get_pnes] returns probabilities when the batch goes through it, the
    epsilon edges are strictly increasing, every axis has at least one
    bin, the occurrence rates and the time span are non-negative. Then
    (1) on every batch the kernel [_disaggregate] returns a matrix whose
    cells are 1 minus the product of the no-exceedance values of the
    ruptures binned into the cell, and lie in [0, 1]; (2) without mutually
    exclusive sources [disagg6D] returns the kernel's matrix of the whole
    context, which is of that form; (3) with mutually exclusive sources,
    for non-negative weights of positive sum, one per range, [disagg6D]
    returns a matrix whose cells are the weighted averages of the cells of
    the kernel's matrices of the ranges [ctx[start:stop]], each of that
    form, and lie in [0, 1]. *)
Theorem exceedance_range (st : MagBin) (iml2 : list (list Q)) (g : nat) :
  let cm := cmaker (dis st) in
  let edges := bin_edges (dis st) in
  let D := (length (dist_edges edges) - 1)%nat in
  let Lo := (length (lon_edges edges) - 1)%nat in
  let La := (length (lat_edges edges) - 1)%nat in
  let product_cells :=
    fun (c : list Rupture) (mea std : nat -> nat -> nat -> Q)
        (imlog2 : list (list ext)) (mat : matrix) =>
      exists (E : nat) (slices : list (list (list (list R)))) (lons_idx : list Z),
        disagg_by_eps (length c) mea std cm g imlog2 (eps_edges edges)
          (epsstar (dis st)) = Ok (E, slices) /\
        _digitize_lons (map clon c) (lon_edges edges) = Ok lons_idx /\
        _disaggregate c mea std cm g imlog2 edges (epsstar (dis st)) = Ok mat /\
        let rups :=
          zip4 (fold_last (Z.of_nat D)
                  (digitize_minus_1 (map rrup c) (dist_edges edges)))
               (fold_last (Z.of_nat Lo) lons_idx)
               (fold_last (Z.of_nat La)
                  (digitize_minus_1 (map clat c) (lat_edges edges)))
               (multiplying_pnes c (poes_of slices) (time_span cm)) in
        forall i j k, (i < D)%nat -> (j < Lo)%nat -> (k < La)%nat ->
          exists cell : arr3,
            cell_at mat i j k = Some cell /\
            forall e m p,
              cell e m p
              = (1 - Rprod (map (fun r => r.2 e m p)
                              (List.filter (lands_in D Lo La i j k) rups)))%R /\
              (0 <= cell e m p <= 1)%R in
  distribution_like cm ->
  (non_poissonian (ctx st) -> pnes_in_range) ->
  StronglySorted Qlt (eps_edges edges) ->
  (2 <= length (dist_edges edges))%nat -> (2 <= length (lon_edges edges))%nat ->
  (2 <= length (lat_edges edges))%nat -> (1 <= length (eps_edges edges))%nat ->
  (length (imts cm) <= length iml2)%nat ->
  (0 <= time_span cm)%R ->
  (forall rec, rec ∈ ctx st -> (0 <= occurrence_rate rec)%R) ->
  (forall (c : list Rupture) (mea std : nat -> nat -> nat -> Q)
          (imlog2 : list (list ext)),
     (forall rec, rec ∈ c -> (0 <= occurrence_rate rec)%R) ->
     (non_poissonian c -> pnes_in_range) ->
     exists mat : matrix, product_cells c mea std imlog2 mat) /\
  (src_mutex st = None ->
   exists (imlog2 : list (list ext)) (mat : matrix),
     imlog2_of (imts cm) iml2 = Ok imlog2 /\
     disagg6D st iml2 g = Ok mat /\
     product_cells (ctx st) (mea st) (std st) imlog2 mat) /\
  (forall sm : SrcMutex,
     src_mutex st = Some sm ->
     length (zip (mutex_start sm) (mutex_stop sm)) = length (weights st) ->
     Forall (fun w => (0 <= w)%R) (weights st) -> (0 < Rsum (weights st))%R ->
     exists (imlog2 : list (list ext)) (mats : list matrix) (avg : matrix),
       imlog2_of (imts cm) iml2 = Ok imlog2 /\
       Forall2 (fun r M =>
                  product_cells (take (r.2 - r.1) (drop r.1 (ctx st)))
                    (fun g m u => mea st g m (r.1 + u)%nat)
                    (fun g m u => std st g m (r.1 + u)%nat) imlog2 M)
         (zip (mutex_start sm) (mutex_stop sm)) mats /\
       disagg6D st iml2 g = Ok avg /\
       forall i j k, (i < D)%nat -> (j < Lo)%nat -> (k < La)%nat ->
         exists (cells : list arr3) (cell : arr3),
           Forall2 (fun M c => cell_at M i j k = Some c) mats cells /\
           cell_at avg i j k = Some cell /\
           forall e m p,
             cell e m p
             = (Rsum (zip_with (fun w (c : arr3) => c e m p * w) (weights st) cells)
                / Rsum (weights st))%R /\
             (0 <= cell e m p <= 1)%R).
Proof.
  intros cm edges D Lo La product_cells Hdist Hpnes Hsorted Hd Hlo Hla He Himts Ht
    Hrate.
  assert (Hkernel : forall c mea std imlog2,
            (forall rec, rec ∈ c -> (0 <= occurrence_rate rec)%R) ->
            (non_poissonian c -> pnes_in_range) ->
            exists mat : matrix, product_cells c mea std imlog2 mat).
  { intros c mea std imlog2 Hc Hp.
    destruct (disaggregate_cells c mea std cm g imlog2 edges (epsstar (dis st))
                Hdist Hp Hsorted Hd Hlo Hla He Hc Ht)
      as (E & slices & lons_idx & mat & Hby & Hlons & Hmat & Hcells).
    exists mat, E, slices, lons_idx. repeat (split; [assumption|]). exact Hcells. }
  split; [exact Hkernel|]. split.
  - intros Hnone. destruct (imlog2_of_Ok _ _ Himts) as [imlog2 Himl].
    destruct (Hkernel (ctx st) (mea st) (std st) imlog2 Hrate Hpnes) as (mat & Hprod).
    exists imlog2, mat. split; [exact Himl|]. split; [|exact Hprod].
    destruct Hprod as (E & slices & lons_idx & _ & _ & Hmat & _).
    unfold disagg6D. fold cm. rewrite Himl, Hnone. exact Hmat.
  - intros sm Hsm Hlen Hw Hpos.
    destruct (disagg6D_mutex st sm iml2 g Hsm Himts Hd Hlo Hla He Hlen)
      as (imlog2 & mats & avg & Himl & HF & Havg & Hcell); [lra|].
    assert (HP : Forall2 (fun r M =>
                  product_cells (take (r.2 - r.1) (drop r.1 (ctx st)))
                    (fun g m u => mea st g m (r.1 + u)%nat)
                    (fun g m u => std st g m (r.1 + u)%nat) imlog2 M)
                 (zip (mutex_start sm) (mutex_stop sm)) mats).
    { eapply Forall2_impl; [exact HF|]. intros [s1 s2] M Hr. cbn [fst snd] in *.
      destruct (Hkernel (take (s2 - s1) (drop s1 (ctx st)))
                  (fun g m u => mea st g m (s1 + u)%nat)
                  (fun g m u => std st g m (s1 + u)%nat) imlog2)
        as (mat & Hprod).
      { intros rec Hrec. by apply Hrate, (elem_of_slice s1 s2). }
      { intros (rec & Hrec & Hne). apply Hpnes. exists rec.
        split; [by apply (elem_of_slice s1 s2)|exact Hne]. }
      assert (Hmat : _disaggregate (take (s2 - s1) (drop s1 (ctx st)))
                       (fun g m u => mea st g m (s1 + u)%nat)
                       (fun g m u => std st g m (s1 + u)%nat) cm g imlog2 edges
                       (epsstar (dis st)) = Ok mat)
        by (destruct Hprod as (? & ? & ? & _ & _ & H & _); exact H).
      unfold disaggregate_range, slice in Hr. fold cm edges in Hr.
      rewrite Hr in Hmat. inversion Hmat; subst mat. exact Hprod. }
    exists imlog2, mats, avg. split; [exact Himl|]. split; [exact HP|].
    split; [exact Havg|].
    intros i j k Hi Hj Hk.
    destruct (Forall_exists_Forall2
                (fun (M : matrix) c => cell_at M i j k = Some c)
                (fun c : arr3 => forall e m p, (0 <= c e m p <= 1)%R) mats)
      as (cells & Hcells & Hrange).
    { apply Forall_forall. intros M HM.
      apply list_elem_of_lookup in HM as [s HM].
      destruct (Forall2_lookup_r _ _ _ _ _ HP HM) as (r & _ & Hr).
      destruct Hr as (E & slices & lons_idx & _ & _ & _ & Hc).
      destruct (Hc i j k Hi Hj Hk) as (cell & Hcl & Hval).
      exists cell. split; [exact Hcl|]. intros e m p. apply Hval. }
    exists cells, (average_cell (weights st) cells).
    split; [exact Hcells|]. split; [by apply Hcell|].
    intros e m p. split; [reflexivity|]. by apply average_cell_range.
Qed.

(** ** Further properties of the bin edges *)

Lemma StronglySorted_map_seq (f : nat -> Q) (s n : nat) :
  (forall i j, (i < j)%nat -> (f i < f j)%Q) -> StronglySorted Qlt (map f (seq s n)).
Proof.
  intros Hf. revert s. induction n as [|n IH]; intros s; simpl; constructor.
  - apply IH.
  - apply Forall_forall. intros x Hx. apply list_elem_of_fmap in Hx as (j & -> & Hj).
    apply elem_of_seq in Hj. apply Hf. lia.
Qed.

(** ** Where a value is binned *)

Lemma digitize_interior (x : Q) (bins : list Q) (x0 xl : Q) :
  head bins = Some x0 -> last bins = Some xl -> (x0 <= x)%Q -> (x < xl)%Q ->
  exists (i : nat) (lo hi : Q),
    digitize x bins = S i /\ bins !! i = Some lo /\ bins !! S i = Some hi /\
    (lo <= x)%Q /\ (x < hi)%Q.
Proof.
  intros Hh Hl H0 H1.
  destruct bins as [|b bins']; [discriminate|].
  injection Hh as ->.
  assert (Hd : digitize x (x0 :: bins') = S (digitize x bins')).
  { cbn [digitize]. assert (E : Qle_bool x0 x = true) by (apply Qle_bool_iff; exact H0).
    rewrite E. reflexivity. }
  pose proof (digitize_le_length x (x0 :: bins')) as Hle.
  assert (Hlt : (digitize x (x0 :: bins') < length (x0 :: bins'))%nat).
  { destruct (decide (digitize x (x0 :: bins') = length (x0 :: bins'))) as [E|E]; [|lia].
    exfalso. rewrite last_lookup in Hl.
    assert (Hj : (pred (length (x0 :: bins')) < digitize x (x0 :: bins'))%nat)
      by (rewrite E; cbn [length]; lia).
    pose proof (digitize_below x (x0 :: bins') _ xl Hj Hl). lra. }
  destruct (lookup_lt_is_Some_2 _ _ Hlt) as [hi Hhi].
  assert (Hlt' : (digitize x bins' < length (x0 :: bins'))%nat) by lia.
  destruct (lookup_lt_is_Some_2 _ _ Hlt') as [lo Hlo].
  exists (digitize x bins'), lo, hi.
  split; [exact Hd|]. split; [exact Hlo|]. rewrite <- Hd. split; [exact Hhi|].
  split.
  - apply (digitize_below x (x0 :: bins') (digitize x bins')); [lia | exact Hlo].
  - apply (digitize_at x (x0 :: bins')). exact Hhi.
Qed.

(** The three cases of the cell index of a coordinate: below the first
    edge, inside the edges, at or above the last edge. *)
Lemma bin_index_cases (bins xs : list Q) (u : nat) (x x0 xl : Q) :
  StronglySorted Qlt bins -> (2 <= length bins)%nat ->
  head bins = Some x0 -> last bins = Some xl -> xs !! u = Some x ->
  let dim := (Z.of_nat (length bins) - 1)%Z in
  exists (i : Z) (k : nat),
    fold_last dim (digitize_minus_1 xs bins) !! u = Some i /\
    py_index (Z.to_nat dim) i = Ok k /\
    (k < Z.to_nat dim)%nat /\
    ((x < x0)%Q \/ (xl <= x)%Q -> k = (Z.to_nat dim - 1)%nat) /\
    ((x0 <= x)%Q -> (x < xl)%Q ->
     exists lo hi : Q,
       bins !! k = Some lo /\ bins !! (k + 1)%nat = Some hi /\
       (lo <= x)%Q /\ (x < hi)%Q).
Proof.
  intros Hs Hlen Hh Hl Hx dim.
  assert (Hdim : dim = Z.of_nat (length bins - 1)) by (unfold dim; lia).
  assert (Hidx : fold_last dim (digitize_minus_1 xs bins) !! u
                 = Some (if (Z.of_nat (digitize x bins) - 1 =? dim)%Z
                         then (dim - 1)%Z else (Z.of_nat (digitize x bins) - 1)%Z)).
  { unfold fold_last, digitize_minus_1. rewrite !list_lookup_fmap, Hx. reflexivity. }
  destruct (Qlt_le_dec x x0) as [Hlow|Hge].
  - (* below the first edge *)
    destruct bins as [|b bins']; [discriminate|]. injection Hh as ->.
    rewrite (digitize_zero x x0 bins' Hlow) in Hidx.
    destruct (Z.eqb_spec (Z.of_nat 0 - 1) dim) as [E|_]; [cbn [length] in *; lia|].
    destruct (py_index_Ok (Z.to_nat dim) (-1)) as (k & Hk & Hklt & Hkv);
      [cbn [length] in *; lia..|].
    exists (-1)%Z, k. split; [exact Hidx|]. split; [exact Hk|]. split; [exact Hklt|].
    split; [intros _; exact Hkv | intros; lra].
  - destruct (Qlt_le_dec x xl) as [Hin|Hhigh].
    + (* inside *)
      destruct (digitize_interior x bins x0 xl Hh Hl Hge Hin)
        as (i & lo & hi & Hd & Hlo & Hhi & Hlox & Hxhi).
      rewrite Hd in Hidx.
      assert (Hi : (S i < length bins)%nat) by (apply lookup_lt_is_Some; eauto).
      destruct (Z.eqb_spec (Z.of_nat (S i) - 1) dim) as [E|_]; [lia|].
      destruct (py_index_Ok (Z.to_nat dim) (Z.of_nat (S i) - 1)) as (k & Hk & Hklt & Hkv);
        [lia..|].
      assert (Ek : k = i).
      { rewrite Hkv. destruct (Z.ltb_spec (Z.of_nat (S i) - 1) 0); lia. }
      clear Hkv. subst k.
      exists (Z.of_nat (S i) - 1)%Z, i. split; [exact Hidx|]. split; [exact Hk|].
      split; [exact Hklt|]. split; [intros [?|?]; lra|].
      intros _ _. exists lo, hi. replace (i + 1)%nat with (S i) by lia. auto.
    + (* at or above the last edge *)
      assert (Hall : digitize x bins = length bins).
      { apply digitize_all; [exact Hs|]. rewrite (last_Some_default bins xl x Hl). exact Hhigh. }
      rewrite Hall in Hidx.
      destruct (Z.eqb_spec (Z.of_nat (length bins) - 1) dim) as [_|E]; [|unfold dim in E; lia].
      destruct (py_index_Ok (Z.to_nat dim) (dim - 1)) as (k & Hk & Hklt & Hkv); [lia..|].
      exists (dim - 1)%Z, k. split; [exact Hidx|]. split; [exact Hk|]. split; [exact Hklt|].
      split; [|intros; lra].
      intros _. rewrite Hkv. destruct (Z.ltb_spec (dim - 1) 0); lia.
Qed.

(** X2. The cell index of a coordinate on an axis with ascending edges
    (at least two): a value between the first edge (included) and the last
    edge (excluded) goes to the bin whose lower edge is at most the value
    and whose upper edge is above it; every value at or above the last
    edge, and every value below the first edge, goes to the last bin. No
    value is rejected. *)
Lemma digitize_bin_index (bins xs : list Q) (u : nat) (x x0 xl : Q) :
  StronglySorted Qlt bins -> (2 <= length bins)%nat ->
  head bins = Some x0 -> last bins = Some xl -> xs !! u = Some x ->
  let dim := (Z.of_nat (length bins) - 1)%Z in
  exists (i : Z) (k : nat),
    fold_last dim (digitize_minus_1 xs bins) !! u = Some i /\
    py_index (Z.to_nat dim) i = Ok k /\
    (k < Z.to_nat dim)%nat /\
    ((x < x0)%Q \/ (xl <= x)%Q -> k = (Z.to_nat dim - 1)%nat) /\
    ((x0 <= x)%Q -> (x < xl)%Q ->
     exists lo hi : Q,
       bins !! k = Some lo /\ bins !! (k + 1)%nat = Some hi /\
       (lo <= x)%Q /\ (x < hi)%Q).
Proof. exact (bin_index_cases bins xs u x x0 xl). Qed.

(** ** Epsilon edges and the mass of the bands *)

Lemma StronglySorted_snoc (l : list Q) (y : Q) :
  StronglySorted Qlt l -> Forall (fun x => (x < y)%Q) l -> StronglySorted Qlt (l ++ [y]).
Proof.
  induction 1 as [|a l Hs IH Ha]; intros Hy; simpl.
  - repeat constructor.
  - apply Forall_cons in Hy as [Hay Hy]. constructor; [apply IH; exact Hy|].
    apply Forall_app. split; [exact Ha | repeat constructor; exact Hay].
Qed.

Lemma sorted_le_last (l : list Q) (xl y : Q) :
  StronglySorted Qlt l -> last l = Some xl -> y ∈ l -> (y <= xl)%Q.
Proof.
  induction 1 as [|a l Hs IH Ha]; intros Hl Hy; [by apply elem_of_nil in Hy|].
  destruct l as [|b l'].
  - injection Hl as <-. apply list_elem_of_singleton in Hy as ->. lra.
  - change (last (a :: b :: l')) with (last (b :: l')) in Hl.
    apply elem_of_cons in Hy as [->|Hy]; [|by apply IH].
    assert (Hxl : xl ∈ b :: l').
    { rewrite last_lookup in Hl. eapply list_elem_of_lookup_2. exact Hl. }
    rewrite Forall_forall in Ha. specialize (Ha _ Hxl). lra.
Qed.

Lemma sorted_Qminimum (x : Q) (l : list Q) :
  StronglySorted Qlt (x :: l) -> (Qminimum x l == x)%Q.
Proof.
  intros Hs. apply StronglySorted_inv in Hs as [_ Hx].
  unfold Qminimum. induction l as [|a l IH]; simpl; [reflexivity|].
  apply Forall_cons in Hx as [Hxa Hx]. specialize (IH Hx).
  rewrite Q.min_r; [exact IH | rewrite IH; lra].
Qed.

Lemma sorted_Qmaximum (x : Q) (l : list Q) (xl : Q) :
  StronglySorted Qlt (x :: l) -> last (x :: l) = Some xl -> (Qmaximum x l == xl)%Q.
Proof.
  intros Hs Hl.
  assert (H1 : (Qmaximum x l <= xl)%Q).
  { apply (sorted_le_last (x :: l)); [exact Hs | exact Hl | apply Qmaximum_elem]. }
  assert (H2 : (xl <= Qmaximum x l)%Q).
  { apply Qmaximum_ge. rewrite last_lookup in Hl. eapply list_elem_of_lookup_2. exact Hl. }
  lra.
Qed.

Lemma linspace_spec (start stop : Q) (n : nat) :
  (start < stop)%Q -> (1 <= n)%nat ->
  let edges := linspace start stop (n + 1) in
  let step := ((stop - start) / inject_Z (Z.of_nat n))%Q in
  length edges = (n + 1)%nat /\
  StronglySorted Qlt edges /\
  (forall i x, edges !! i = Some x -> (x == start + inject_Z (Z.of_nat i) * step)%Q) /\
  last edges = Some stop.
Proof.
  intros Hlt Hn edges step.
  assert (En : (n + 1 = S (S (n - 1)))%nat) by lia.
  assert (Hedges : edges
                   = map (fun i => (inject_Z (Z.of_nat i) * step + start)%Q) (seq 0 n)
                     ++ [stop]).
  { unfold edges. rewrite En. cbn [linspace].
    replace (S (n - 1)) with n by lia. reflexivity. }
  assert (Hnq : (0 < inject_Z (Z.of_nat n))%Q).
  { change 0%Q with (inject_Z 0). rewrite <- Zlt_Qlt. lia. }
  assert (Hstep : (0 < step)%Q).
  { unfold step. apply Qlt_shift_div_l; [exact Hnq | lra]. }
  assert (Hstop : (stop == start + inject_Z (Z.of_nat n) * step)%Q).
  { unfold step. field. lra. }
  rewrite Hedges. split; [rewrite length_app, length_map, length_seq; reflexivity|].
  split.
  { apply StronglySorted_snoc.
    - apply StronglySorted_map_seq. intros i j Hij.
      assert (Hq : (inject_Z (Z.of_nat i) < inject_Z (Z.of_nat j))%Q)
        by (rewrite <- Zlt_Qlt; lia).
      nra.
    - apply Forall_forall. intros x Hx. apply list_elem_of_fmap in Hx as (i & -> & Hi).
      apply elem_of_seq in Hi.
      assert (Hq : (inject_Z (Z.of_nat i) < inject_Z (Z.of_nat n))%Q)
        by (rewrite <- Zlt_Qlt; lia).
      rewrite Hstop. nra. }
  split.
  { intros i x Hx. apply lookup_app_Some in Hx as [Hx|[Hi Hx]].
    - rewrite list_lookup_fmap in Hx.
      destruct (seq 0 n !! i) as [j|] eqn:Ej; [|discriminate].
      apply lookup_seq in Ej as [-> _]. injection Hx as <-. simpl. lra.
    - rewrite length_map, length_seq in Hi, Hx.
      apply list_lookup_singleton_Some in Hx as [Hi0 <-].
      replace i with n by lia. exact Hstop. }
  apply last_snoc.
Qed.

(** X5. When no epsilon edges are given, the job builds them with
    [linspace]: for [n >= 1] epsilon bins and a positive truncation level
    [t] there are [n + 1] strictly increasing edges, edge [i] being
    [-t + i * 2t / n], the last one [t]; the band cache built on them has [n]
    bands and returns [-t] and [t] as the extreme epsilons. *)
Lemma default_eps_edges {trt} (oq : DisaggParams trt) (tl : Q) :
  disagg_bin_edges_eps oq = None ->
  (0 < job_truncation_level oq)%Q -> (1 <= num_epsilon_bins oq)%nat ->
  let t := job_truncation_level oq in
  let n := num_epsilon_bins oq in
  let edges := build_eps_edges oq in
  length edges = (n + 1)%nat /\
  StronglySorted Qlt edges /\
  (forall i x, edges !! i = Some x ->
     (x == - t + inject_Z (Z.of_nat i) * (2 * t / inject_Z (Z.of_nat n)))%Q) /\
  last edges = Some t /\
  exists (min_eps max_eps : Q) (eps_bands eps_cum : list R),
    get_eps4 edges tl = Ok (min_eps, max_eps, eps_bands, eps_cum) /\
    (min_eps == - t)%Q /\ (max_eps == t)%Q /\ length eps_bands = n.
Proof.
  intros Hov Ht Hn t n edges.
  assert (Hedges : edges = linspace (- t) t (n + 1)).
  { unfold edges, build_eps_edges. rewrite Hov. reflexivity. }
  destruct (linspace_spec (- t) t n ltac:(unfold t; lra) Hn) as (Hlen & Hs & Hlook & Hl).
  rewrite <- Hedges in Hlen, Hs, Hlook, Hl.
  assert (Hnq : (0 < inject_Z (Z.of_nat n))%Q).
  { change 0%Q with (inject_Z 0). rewrite <- Zlt_Qlt. fold n in Hn. lia. }
  split; [exact Hlen|]. split; [exact Hs|].
  split.
  { intros i x Hx. rewrite (Hlook i x Hx). field. lra. }
  split; [exact Hl|].
  destruct edges as [|e0 rest] eqn:E; [simpl in Hlen; lia|].
  eexists _, _, _, _. split; [reflexivity|].
  split.
  { rewrite (sorted_Qminimum e0 rest Hs). rewrite (Hlook 0%nat e0 eq_refl).
    cbn [Z.of_nat]. change (inject_Z 0) with 0%Q. rewrite Qmult_0_l, Qplus_0_r. reflexivity. }
  split; [exact (sorted_Qmaximum e0 rest t Hs Hl)|].
  rewrite length_zip_with, length_tail', length_removelast. simpl in *. lia.
Qed.

(** X6. On ascending edges and for a non-decreasing CDF, the band cache
    holds non-negative band masses that add up to the mass between the
    first and the last edge; [eps_cum[e]] is the mass between edge [e] and
    the last edge, so [eps_cum] is non-negative and non-increasing, and the
    extreme epsilons returned are the first and the last edge. *)
Lemma get_eps4_mass (edges : list Q) (tl : Q) (x0 xl : Q) :
  StronglySorted Qlt edges -> head edges = Some x0 -> last edges = Some xl ->
  (forall x y, (x <= y)%Q -> (tn_cdf tl x <= tn_cdf tl y)%R) ->
  exists (min_eps max_eps : Q) (eps_bands eps_cum : list R),
    get_eps4 edges tl = Ok (min_eps, max_eps, eps_bands, eps_cum) /\
    (min_eps == x0)%Q /\ (max_eps == xl)%Q /\
    Rsum eps_bands = (tn_cdf tl xl - tn_cdf tl x0)%R /\
    (forall e xe, edges !! e = Some xe ->
       eps_cum !! e = Some (tn_cdf tl xl - tn_cdf tl xe)%R) /\
    length eps_cum = length edges /\
    Forall (fun b => (0 <= b)%R) eps_bands /\
    (forall e c c', eps_cum !! e = Some c -> eps_cum !! (e + 1)%nat = Some c' ->
       (0 <= c' <= c)%R).
Proof.
  intros Hs Hh Hl Hmono.
  destruct edges as [|e0 rest]; [discriminate|]. injection Hh as ->.
  set (edges := x0 :: rest) in *.
  set (bands := zip_with (fun hi lo => (tn_cdf tl hi - tn_cdf tl lo)%R)
                  (tail edges) (removelast edges)).
  set (cum := map (fun e => Rsum (drop e bands)) (seq 0 (length bands)) ++ [0%R]).
  assert (Hget : get_eps4 edges tl = Ok (Qminimum x0 rest, Qmaximum x0 rest, bands, cum)).
  { reflexivity. }
  assert (Hne : edges <> []) by (unfold edges; discriminate).
  assert (Hblen : length bands = (length edges - 1)%nat).
  { unfold bands. rewrite length_zip_with, length_tail', length_removelast. lia. }
  assert (Hcum : forall e xe, edges !! e = Some xe ->
                   cum !! e = Some (tn_cdf tl xl - tn_cdf tl xe)%R).
  { intros e xe He.
    assert (Hele : (e <= length bands)%nat).
    { apply lookup_lt_Some in He. lia. }
    unfold cum. rewrite (eps_cum_lookup bands e Hele).
    destruct (bands_telescope (tn_cdf tl) edges e Hne Hele) as (xb & xl' & Hb & Hl' & Hsum).
    fold bands in Hsum. rewrite Hsum. congruence. }
  assert (Hclen : length cum = length edges).
  { unfold cum. rewrite length_app, length_map, length_seq, Hblen.
    unfold edges. cbn [length]. lia. }
  assert (Hle_last : forall y, y ∈ edges -> (y <= xl)%Q).
  { intros y Hy. exact (sorted_le_last edges xl y Hs Hl Hy). }
  exists (Qminimum x0 rest), (Qmaximum x0 rest), bands, cum.
  split; [exact Hget|].
  split; [exact (sorted_Qminimum x0 rest Hs)|].
  split; [exact (sorted_Qmaximum x0 rest xl Hs Hl)|].
  split.
  { destruct (bands_telescope (tn_cdf tl) edges 0 Hne ltac:(lia)) as (xb & xl' & Hb & Hl' & Hsum).
    fold bands in Hsum. rewrite drop_0 in Hsum. rewrite Hsum.
    unfold edges in Hb. injection Hb as <-. congruence. }
  split; [exact Hcum|]. split; [exact Hclen|].
  split.
  { apply Forall_forall. intros b Hb. apply list_elem_of_lookup in Hb as [e He].
    unfold bands in He. apply lookup_zip_with_Some in He as (hi & lo & -> & Hhi & Hlo).
    rewrite lookup_tail in Hhi.
    assert (He1 : (e + 1 < length edges)%nat).
    { apply lookup_lt_Some in Hhi. lia. }
    rewrite lookup_removelast in Hlo by exact He1.
    replace (S e) with (e + 1)%nat in Hhi by lia.
    pose proof (sorted_adjacent edges e lo hi Hs Hlo Hhi).
    pose proof (Hmono lo hi ltac:(lra)). lra. }
  intros e c c' Hc Hc'.
  assert (He1 : (e + 1 < length edges)%nat).
  { apply lookup_lt_Some in Hc'. lia. }
  destruct (lookup_lt_is_Some_2 edges e ltac:(lia)) as [xe Hxe].
  destruct (lookup_lt_is_Some_2 edges (e + 1) He1) as [xe' Hxe'].
  rewrite (Hcum _ _ Hxe) in Hc. rewrite (Hcum _ _ Hxe') in Hc'.
  injection Hc as <-. injection Hc' as <-.
  pose proof (sorted_adjacent edges e xe xe' Hs Hxe Hxe').
  pose proof (Hmono xe xe' ltac:(lra)).
  pose proof (Hmono xe' xl (Hle_last xe' (list_elem_of_lookup_2 _ _ _ Hxe'))).
  lra.
Qed.

(** ** Residuals outside the epsilon edges, and epsilon-star rows *)

Lemma sorted_lookup_lt (l : list Q) (i j : nat) (x y : Q) :
  StronglySorted Qlt l -> (i < j)%nat -> l !! i = Some x -> l !! j = Some y -> (x < y)%Q.
Proof.
  intros Hs. revert i j. induction Hs as [|a l Hs IH Ha]; intros i j Hij Hi Hj; [done|].
  destruct j as [|j]; [lia|]. destruct i as [|i].
  - injection Hi as <-. rewrite Forall_forall in Ha. apply Ha.
    eapply list_elem_of_lookup_2. exact Hj.
  - apply (IH i j); [lia | exact Hi | exact Hj].
Qed.

Lemma searchsorted_between (edges : list Q) (v : Q) (e : nat) (lo hi : Q) :
  StronglySorted Qlt edges -> edges !! e = Some lo -> edges !! (e + 1)%nat = Some hi ->
  (lo < v)%Q -> (v <= hi)%Q -> searchsorted edges v = (e + 1)%nat.
Proof.
  intros Hs Hlo Hhi Hlt Hle.
  destruct (lt_eq_lt_dec (searchsorted edges v) (e + 1)) as [[Hlt'|Heq]|Hgt];
    [|exact Heq|]; exfalso.
  - assert (Hs' : (searchsorted edges v < length edges)%nat).
    { apply lookup_lt_Some in Hlo. lia. }
    destruct (lookup_lt_is_Some_2 edges _ Hs') as [x Hx].
    pose proof (searchsorted_at edges v x Hx) as Hvx.
    destruct (decide (searchsorted edges v = e)) as [E|E].
    + rewrite E in Hx. assert (x = lo) by congruence. subst x. lra.
    + pose proof (sorted_lookup_lt edges (searchsorted edges v) e x lo Hs ltac:(lia) Hx Hlo).
      lra.
  - pose proof (searchsorted_below edges v (e + 1) hi Hgt Hhi). lra.
Qed.

Lemma imap_all (f : nat -> R -> R) (z : R) (l : list R) :
  (forall e x, l !! e = Some x -> f e x = z) -> imap f l = replicate (length l) z.
Proof.
  revert f. induction l as [|x l IH]; intros f Hf; [reflexivity|].
  cbn [imap length replicate]. f_equal.
  - apply (Hf 0%nat x). reflexivity.
  - apply IH. intros e y Hy. apply (Hf (S e) y). exact Hy.
Qed.

Lemma imap_same (f : nat -> R -> R) (l : list R) :
  (forall e x, l !! e = Some x -> f e x = x) -> imap f l = l.
Proof.
  revert f. induction l as [|x l IH]; intros f Hf; [reflexivity|].
  cbn [imap]. f_equal.
  - apply (Hf 0%nat x). reflexivity.
  - apply IH. intros e y Hy. apply (Hf (S e) y). exact Hy.
Qed.

Lemma lvls_lookup (U : nat) (f : nat -> Q) (u : nat) :
  (u < U)%nat -> map f (seq 0 U) !! u = Some (f u).
Proof. intros Hu. rewrite list_lookup_fmap, lookup_seq_lt by exact Hu. reflexivity. Qed.

(** X7. Outside epsilon-star mode, a rupture whose residual is at or
    below the first epsilon edge gets the complete band masses as its row,
    whatever its survival probability; a rupture whose residual is above
    the last edge gets a row of zeros. *)
Lemma residual_outside_edges (U : nat) (mea std : nat -> nat -> nat -> Q)
    (cm : ContextMaker) (g m : nat) (edges : list Q) (mn mx : Q)
    (bands cum : list R) (iml : Q) :
  StronglySorted Qlt edges ->
  get_eps4 edges (truncation_level cm) = Ok (mn, mx, bands, cum) ->
  exists t : list (list R),
    poes_slice U mea std cm g m edges mn mx bands cum false (Fin iml) = Ok t /\
    length t = U /\
    forall u, (u < U)%nat ->
      let lvl := ((iml - mea g m u) / std g m u)%Q in
      exists row : list R,
        t !! u = Some row /\ length row = length bands /\
        (forall x0, head edges = Some x0 -> (lvl <= x0)%Q -> row = bands) /\
        (forall xl, last edges = Some xl -> (xl < lvl)%Q ->
           row = replicate (length bands) 0%R).
Proof.
  intros Hs Heps. pose proof Heps as Hinv.
  apply get_eps4_inv in Hinv as (Hbands & Hcum & e0 & rest & -> & -> & ->).
  assert (HE : length bands = length rest).
  { rewrite Hbands, length_zip_with, length_tail', length_removelast. simpl. lia. }
  cbn [poes_slice]. rewrite Hcum, disagg_eps_Ok by (by rewrite !length_map).
  eexists. split; [reflexivity|].
  split; [rewrite length_zip_with, !length_map, length_seq; lia|].
  intros u Hu. set (lvl := ((iml - mea g m u) / std g m u)%Q).
  set (lvls := map (fun u0 => ((iml - mea g m u0) / std g m u0)%Q) (seq 0 U)).
  assert (Hlvl : lvls !! u = Some lvl).
  { apply (lvls_lookup U (fun u0 => ((iml - mea g m u0) / std g m u0)%Q) u Hu). }
  eexists. split.
  { rewrite lookup_zip_with, !list_lookup_fmap, Hlvl. reflexivity. }
  split; [rewrite length_imap; reflexivity|].
  split.
  - intros x0 Hh Hle. injection Hh as <-.
    rewrite (searchsorted_head_ge e0 rest lvl Hle).
    apply imap_same. intros e x _. reflexivity.
  - intros xl Hl Hlt.
    rewrite (searchsorted_all (e0 :: rest) lvl Hs)
      by (intros x Hx; assert (x = xl) by congruence; subst x; exact Hlt).
    apply imap_all. intros e x He. apply lookup_lt_Some in He.
    cbn [length].
    destruct (Nat.leb_spec (S (length rest)) e) as [H1|_]; [lia|].
    destruct (Nat.eqb_spec (S (length rest)) (e + 1)) as [H2|_]; [lia|]. reflexivity.
Qed.

(** X8. In epsilon-star mode the row of a rupture has at most one
    non-zero entry, the survival probability of its residual. A residual
    above the lower and at or below the upper edge of a bin is put in that
    bin, provided it is below the last edge; a residual below the first
    edge or at or above the last edge gives a row of zeros; a residual
    equal to the first edge is put in the last bin. *)
Lemma epsstar_row (U : nat) (mea std : nat -> nat -> nat -> Q)
    (cm : ContextMaker) (g m : nat) (edges : list Q) (mn mx : Q)
    (bands cum : list R) (iml : Q) :
  StronglySorted Qlt edges ->
  get_eps4 edges (truncation_level cm) = Ok (mn, mx, bands, cum) ->
  exists t : list (list R),
    poes_slice U mea std cm g m edges mn mx bands cum true (Fin iml) = Ok t /\
    length t = U /\
    forall u, (u < U)%nat ->
      let lvl := ((iml - mea g m u) / std g m u)%Q in
      let zeros := replicate (length bands) 0%R in
      exists row : list R,
        t !! u = Some row /\ length row = length bands /\
        (forall x0 xl, head edges = Some x0 -> last edges = Some xl ->
           (lvl < x0)%Q \/ (xl <= lvl)%Q -> row = zeros) /\
        (forall x0 xl, head edges = Some x0 -> last edges = Some xl ->
           (lvl == x0)%Q -> (x0 < xl)%Q ->
           row = <[(length bands - 1)%nat := truncnorm_sf (phi_b cm) lvl]> zeros) /\
        (forall e lo hi xl,
           edges !! e = Some lo -> edges !! (e + 1)%nat = Some hi ->
           last edges = Some xl ->
           (lo < lvl)%Q -> (lvl <= hi)%Q -> (lvl < xl)%Q ->
           row = <[e := truncnorm_sf (phi_b cm) lvl]> zeros).
Proof.
  intros Hs Heps.
  destruct (poes_slice_Ok U mea std cm g m edges mn mx bands cum true (Fin iml) Heps)
    as [t Ht].
  pose proof Heps as Hinv.
  apply get_eps4_inv in Hinv as (Hbands & Hcum & e0 & rest & -> & -> & ->).
  assert (HE : length bands = length rest).
  { rewrite Hbands, length_zip_with, length_tail', length_removelast. simpl. lia. }
  pose proof (sorted_Qminimum e0 rest Hs) as Hmin.
  exists t. split; [exact Ht|].
  cbn [poes_slice] in Ht. apply sequence_Ok_lookup in Ht as [Hlen Hlook].
  rewrite length_zip_with, !length_map, length_seq in Hlen.
  split; [lia|].
  intros u Hu lvl zeros.
  destruct (lookup_lt_is_Some_2 t u ltac:(lia)) as [row Hrow].
  specialize (Hlook u row Hrow).
  rewrite lookup_zip_with, list_lookup_fmap in Hlook.
  rewrite (lvls_lookup U (fun u => ((iml - mea g m u) / std g m u)%Q) u Hu) in Hlook.
  cbn [option_map mbind option_bind fmap] in Hlook.
  change ((iml - mea g m u) / std g m u)%Q with lvl in Hlook.
  exists row. split; [exact Hrow|].
  assert (Hcases :
    (Qle_bool (Qminimum e0 rest) lvl && Qlt_bool lvl (Qmaximum e0 rest) = false /\
     row = zeros) \/
    (Qle_bool (Qminimum e0 rest) lvl && Qlt_bool lvl (Qmaximum e0 rest) = true /\
     exists e, py_index (length bands) (Z.of_nat (searchsorted (e0 :: rest) lvl) - 1) = Ok e /\
               row = <[e := truncnorm_sf (phi_b cm) lvl]> zeros)).
  { simpl in Hlook.
    destruct (Qle_bool (Qminimum e0 rest) lvl && Qlt_bool lvl (Qmaximum e0 rest)) eqn:Hok.
    - right. split; [reflexivity|].
      destruct (epsstar_index_Ok e0 rest lvl Hok) as (e & He & _).
      rewrite <- HE in He. exists e. split; [exact He|].
      change (if Qlt_bool e0 lvl then S (searchsorted rest lvl) else 0%nat)
        with (searchsorted (e0 :: rest) lvl) in Hlook.
      rewrite He in Hlook. simpl in Hlook. unfold zeros. congruence.
    - left. split; [reflexivity|]. unfold zeros. congruence. }
  split.
  { destruct Hcases as [[_ ->]|[_ (e & He & ->)]]; unfold zeros.
    - apply length_replicate.
    - rewrite length_insert. apply length_replicate. }
  split; [|split].
  - intros x0 xl Hh Hl Hout. injection Hh as <-.
    pose proof (sorted_Qmaximum e0 rest xl Hs Hl) as Hmax.
    destruct Hcases as [[_ ->]|[Hok _]]; [reflexivity|]. exfalso.
    apply andb_true_iff in Hok as [H1 H2].
    apply Qle_bool_iff in H1. apply Qlt_bool_iff in H2.
    rewrite Hmin in H1. rewrite Hmax in H2. destruct Hout; lra.
  - intros x0 xl Hh Hl Heq Hlt. injection Hh as <-.
    pose proof (sorted_Qmaximum e0 rest xl Hs Hl) as Hmax.
    destruct Hcases as [[Hok _]|[_ (e & He & ->)]].
    + exfalso. apply andb_false_iff in Hok as [H1|H2].
      * apply Qle_bool_false in H1. rewrite Hmin in H1. lra.
      * apply Qlt_bool_false in H2. rewrite Hmax in H2. lra.
    + rewrite (searchsorted_head_ge e0 rest lvl ltac:(lra)) in He.
      assert (Hr : (1 <= length bands)%nat).
      { rewrite HE. destruct rest; [|simpl; lia]. exfalso.
        injection Hl as <-. lra. }
      destruct (py_index_Ok (length bands) (Z.of_nat 0 - 1)) as (k & Hk & _ & Hkv);
        [lia..|].
      rewrite Hk in He. injection He as <-. rewrite Hkv. reflexivity.
  - intros e lo hi xl Hlo Hhi Hl H1 H2 H3.
    pose proof (sorted_Qmaximum e0 rest xl Hs Hl) as Hmax.
    rewrite (searchsorted_between (e0 :: rest) lvl e lo hi Hs Hlo Hhi H1 H2) in Hcases.
    assert (He : (e < length bands)%nat).
    { apply lookup_lt_Some in Hhi. cbn [length] in Hhi. lia. }
    destruct Hcases as [[Hok _]|[_ (k & Hk & ->)]].
    + exfalso. apply andb_false_iff in Hok as [H4|H4].
      * apply Qle_bool_false in H4. rewrite Hmin in H4.
        assert (Hle : (e0 <= lo)%Q).
        { destruct e as [|e']; [injection Hlo as <-; lra|].
          pose proof (sorted_lookup_lt (e0 :: rest) 0 (S e') e0 lo Hs ltac:(lia) eq_refl Hlo).
          lra. }
        lra.
      * apply Qlt_bool_false in H4. rewrite Hmax in H4. lra.
    + destruct (py_index_Ok (length bands) (Z.of_nat (e + 1) - 1)) as (k' & Hk' & _ & Hkv);
        [lia..|].
      rewrite Hk' in Hk. injection Hk as <-. rewrite Hkv.
      destruct (Z.ltb_spec (Z.of_nat (e + 1) - 1) 0); [lia|].
      f_equal. lia.
Qed.

(** ** The cells of the kernel *)

(** The cells of the kernel's matrix as products over the ruptures of
    each cell, with no assumption on the collaborators. *)
Lemma disaggregate_product (c : list Rupture) (mea std : nat -> nat -> nat -> Q)
    (cm : ContextMaker) (g : nat) (iml2 : list (list ext)) (edges : BinEdges)
    (star : bool) :
  (2 <= length (dist_edges edges))%nat -> (2 <= length (lon_edges edges))%nat ->
  (2 <= length (lat_edges edges))%nat -> (1 <= length (eps_edges edges))%nat ->
  let D := (length (dist_edges edges) - 1)%nat in
  let Lo := (length (lon_edges edges) - 1)%nat in
  let La := (length (lat_edges edges) - 1)%nat in
  exists (E : nat) (slices : list (list (list (list R)))) (lons_idx : list Z)
         (mat : matrix),
    disagg_by_eps (length c) mea std cm g iml2 (eps_edges edges) star = Ok (E, slices) /\
    _digitize_lons (map clon c) (lon_edges edges) = Ok lons_idx /\
    _disaggregate c mea std cm g iml2 edges star = Ok mat /\
    let rups :=
      zip4 (fold_last (Z.of_nat D) (digitize_minus_1 (map rrup c) (dist_edges edges)))
           (fold_last (Z.of_nat Lo) lons_idx)
           (fold_last (Z.of_nat La) (digitize_minus_1 (map clat c) (lat_edges edges)))
           (multiplying_pnes c (poes_of slices) (time_span cm)) in
    forall i j k, (i < D)%nat -> (j < Lo)%nat -> (k < La)%nat ->
      exists cell : arr3,
        cell_at mat i j k = Some cell /\
        forall e m p,
          cell e m p
          = (1 - Rprod (map (fun r => r.2 e m p)
                          (List.filter (lands_in D Lo La i j k) rups)))%R.
Proof.
  intros Hd Hlo Hla He D Lo La.
  destruct (disagg_by_eps_Ok (length c) mea std cm g iml2 (eps_edges edges) star)
    as (E & slices & Hby); [intros E0; rewrite E0 in He; simpl in He; lia|].
  set (bdata := {| dists := map rrup c; lons := map clon c; lats := map clat c;
                   pnes := multiplying_pnes c (poes_of slices) (time_span cm) |}).
  destruct (build_disagg_matrix_cells bdata (dist_edges edges) (lon_edges edges)
              (lat_edges edges) (eps_edges edges) Hd Hlo Hla He)
    as (mat & lons_idx & Hlons & _ & Hmat & Hcells).
  exists E, slices, lons_idx, mat. split; [exact Hby|]. split; [exact Hlons|]. split.
  { unfold _disaggregate. rewrite Hby. exact Hmat. }
  exact Hcells.
Qed.

Lemma Rprod_ones (l : list R) : Forall (fun x => x = 1%R) l -> Rprod l = 1%R.
Proof.
  induction 1 as [|x l Hx _ IH]; simpl; [reflexivity|]. rewrite Hx, IH. lra.
Qed.

(** The exceedance probabilities of a level of zero hazard are zero. *)
Lemma poes_of_zero_hazard (U : nat) (mea std : nat -> nat -> nat -> Q)
    (cm : ContextMaker) (g : nat) (iml2 : list (list ext)) (edges : list Q)
    (star : bool) (E : nat) (slices : list (list (list (list R)))) (m p : nat)
    (row : list ext) :
  disagg_by_eps U mea std cm g iml2 edges star = Ok (E, slices) ->
  iml2 !! m = Some row -> row !! p = Some NegInf ->
  forall u e, poes_of slices u e m p = 0%R.
Proof.
  intros H Hm Hp u e. unfold disagg_by_eps in H.
  apply bind_Ok in H as ([[[mn mx] bands] cum] & Heps & H).
  apply bind_Ok in H as (sl & Hsl & H). inversion H; subst E slices. clear H.
  unfold poes_of.
  destruct (sl !! m) as [srow|] eqn:Hsm; simpl; [|reflexivity].
  destruct (srow !! p) as [t|] eqn:Hsp; simpl; [|reflexivity].
  apply sequence_Ok_lookup in Hsl as [_ Hsl]. specialize (Hsl m srow Hsm).
  rewrite list_lookup_imap, Hm in Hsl. simpl in Hsl.
  inversion Hsl as [Hrow]. clear Hsl.
  apply sequence_Ok_lookup in Hrow as [_ Hrow]. specialize (Hrow p t Hsp).
  rewrite list_lookup_fmap, Hp in Hrow. simpl in Hrow.
  assert (Ht : t = replicate U (replicate (length bands) 0%R)) by congruence.
  subst t.
  destruct (replicate U (replicate (length bands) 0%R) !! u) as [r|] eqn:Hu;
    simpl; [|reflexivity].
  apply lookup_replicate in Hu as [-> _].
  destruct (replicate (length bands) 0%R !! e) as [v|] eqn:He; simpl; [|reflexivity].
  apply lookup_replicate in He as [-> _]. reflexivity.
Qed.

(** X9. For ruptures without [probs_occur] (the Poissonian lane), a
    level of zero hazard ([-inf] in [iml2]) gives probability zero in every
    cell and epsilon bin for that intensity measure type and level; so
    does a time span of zero, for all types and levels. *)
Lemma poissonian_zero_cells (c : list Rupture) (mea std : nat -> nat -> nat -> Q)
    (cm : ContextMaker) (g : nat) (iml2 : list (list ext)) (edges : BinEdges)
    (star : bool) :
  (2 <= length (dist_edges edges))%nat -> (2 <= length (lon_edges edges))%nat ->
  (2 <= length (lat_edges edges))%nat -> (1 <= length (eps_edges edges))%nat ->
  (forall rec, rec ∈ c -> probs_occur rec = []) ->
  exists mat : matrix,
    _disaggregate c mea std cm g iml2 edges star = Ok mat /\
    forall i j k,
      (i < length (dist_edges edges) - 1)%nat -> (j < length (lon_edges edges) - 1)%nat ->
      (k < length (lat_edges edges) - 1)%nat ->
      exists cell : arr3,
        cell_at mat i j k = Some cell /\
        (forall e m p row, iml2 !! m = Some row -> row !! p = Some NegInf ->
           cell e m p = 0%R) /\
        (time_span cm = 0%R -> forall e m p, cell e m p = 0%R).
Proof.
  intros Hd Hlo Hla He Hpois.
  destruct (disaggregate_product c mea std cm g iml2 edges star Hd Hlo Hla He)
    as (E & slices & lons_idx & mat & Hby & _ & Hmat & Hcells).
  exists mat. split; [exact Hmat|]. intros i j k Hi Hj Hk.
  destruct (Hcells i j k Hi Hj Hk) as (cell & Hcell & Hval).
  exists cell. split; [exact Hcell|].
  assert (Hzero : forall e m p,
            (forall u rec, c !! u = Some rec ->
               (- occurrence_rate rec * poes_of slices u e m p * time_span cm = 0)%R) ->
            cell e m p = 0%R).
  { intros e m p Hz. rewrite Hval. rewrite Rprod_ones; [lra|].
    apply Forall_forall. intros x Hx.
    apply list_elem_of_fmap in Hx as (r & -> & Hr).
    apply list_elem_of_In, filter_In in Hr as [Hr _]. apply list_elem_of_In in Hr.
    apply list_elem_of_lookup in Hr as [u Hu].
    apply lookup_zip4 in Hu as (_ & _ & _ & Hpne).
    unfold multiplying_pnes in Hpne.
    rewrite (proj2 (any_probs_occur_false c) Hpois) in Hpne.
    rewrite list_lookup_imap in Hpne. destruct (c !! u) as [rec|] eqn:Hrec; [|done].
    simpl in Hpne. injection Hpne as Hpne.
    pose proof (f_equal (fun a : arr3 => a e m p) Hpne) as Hv. cbv beta in Hv.
    etransitivity; [symmetry; exact Hv|].
    unfold mul3, ones3. rewrite (Hz u rec Hrec), exp_0. lra. }
  split.
  - intros e m p row Hm Hp. apply Hzero. intros u rec _.
    rewrite (poes_of_zero_hazard (length c) mea std cm g iml2 (eps_edges edges) star E
               slices m p row Hby Hm Hp u e). lra.
  - intros Ht e m p. apply Hzero. intros u rec _. rewrite Ht. lra.
Qed.

Lemma Rprod_mono (l1 l2 : list R) :
  Forall2 (fun x y => (0 <= y <= x)%R) l1 l2 -> (0 <= Rprod l2 <= Rprod l1)%R.
Proof.
  induction 1 as [|x y l1 l2 Hxy _ IH]; simpl; [lra|]. nra.
Qed.

Lemma Forall2_imap {A B C} (P : B -> C -> Prop) (f : nat -> A -> B) (g : nat -> A -> C)
    (l : list A) :
  (forall i x, l !! i = Some x -> P (f i x) (g i x)) -> Forall2 P (imap f l) (imap g l).
Proof.
  revert f g. induction l as [|x l IH]; intros f g H; cbn [imap]; constructor.
  - apply (H 0%nat x). reflexivity.
  - apply IH. intros i y Hy. apply (H (S i) y). exact Hy.
Qed.

Lemma Forall2_filter_zip {A B} (P : B -> B -> Prop) (f : A -> bool) (idx : list A)
    (l1 l2 : list B) :
  Forall2 P l1 l2 ->
  Forall2 P (map snd (List.filter (fun r => f r.1) (zip idx l1)))
            (map snd (List.filter (fun r => f r.1) (zip idx l2))).
Proof.
  intros H. revert idx. induction H as [|x y l1 l2 Hxy _ IH]; intros idx.
  - destruct idx; constructor.
  - destruct idx as [|a idx]; [constructor|]. simpl.
    destruct (f a); simpl; [constructor; [exact Hxy|]|]; apply IH.
Qed.

(** X10. On the Poissonian lane, with non-negative occurrence rates and
    collaborators that behave as a distribution, a longer time span never
    lowers a probability of exceedance: every entry of every cell of the
    matrix is at least the entry for the shorter time span. *)
Lemma poissonian_time_span_monotone (c : list Rupture)
    (mea std : nat -> nat -> nat -> Q) (cm : ContextMaker) (t' : R) (g : nat)
    (iml2 : list (list ext)) (edges : BinEdges) (star : bool) :
  let cm' := {| truncation_level := truncation_level cm; phi_b := phi_b cm;
                time_span := t'; imtls := imtls cm; imts := imts cm;
                epsilon_star := epsilon_star cm |} in
  distribution_like cm -> StronglySorted Qlt (eps_edges edges) ->
  (2 <= length (dist_edges edges))%nat -> (2 <= length (lon_edges edges))%nat ->
  (2 <= length (lat_edges edges))%nat -> (1 <= length (eps_edges edges))%nat ->
  (forall rec, rec ∈ c -> probs_occur rec = []) ->
  (forall rec, rec ∈ c -> (0 <= occurrence_rate rec)%R) ->
  (time_span cm <= t')%R ->
  exists mat mat' : matrix,
    _disaggregate c mea std cm g iml2 edges star = Ok mat /\
    _disaggregate c mea std cm' g iml2 edges star = Ok mat' /\
    forall i j k,
      (i < length (dist_edges edges) - 1)%nat -> (j < length (lon_edges edges) - 1)%nat ->
      (k < length (lat_edges edges) - 1)%nat ->
      exists cell cell' : arr3,
        cell_at mat i j k = Some cell /\ cell_at mat' i j k = Some cell' /\
        forall e m p, (cell e m p <= cell' e m p)%R.
Proof.
  intros cm' Hdist Hsorted Hd Hlo Hla He Hpois Hrate Ht.
  destruct (disaggregate_product c mea std cm g iml2 edges star Hd Hlo Hla He)
    as (E & slices & lons_idx & mat & Hby & Hlons & Hmat & Hcells).
  destruct (disaggregate_product c mea std cm' g iml2 edges star Hd Hlo Hla He)
    as (E' & slices' & lons_idx' & mat' & Hby' & Hlons' & Hmat' & Hcells').
  change (disagg_by_eps (length c) mea std cm' g iml2 (eps_edges edges) star)
    with (disagg_by_eps (length c) mea std cm g iml2 (eps_edges edges) star) in Hby'.
  assert (E' = E /\ slices' = slices) as [-> ->] by (split; congruence).
  assert (lons_idx' = lons_idx) as -> by congruence.
  exists mat, mat'. split; [exact Hmat|]. split; [exact Hmat'|].
  intros i j k Hi Hj Hk.
  destruct (Hcells i j k Hi Hj Hk) as (cell & Hcell & Hval).
  destruct (Hcells' i j k Hi Hj Hk) as (cell' & Hcell' & Hval').
  exists cell, cell'. split; [exact Hcell|]. split; [exact Hcell'|].
  intros e m p. rewrite Hval, Hval'.
  match goal with
  | |- (1 - Rprod ?a <= 1 - Rprod ?b)%R => assert (Hr : (0 <= Rprod b <= Rprod a)%R); [|lra]
  end.
  apply Rprod_mono.
  set (D := (length (dist_edges edges) - 1)%nat).
  set (Lo := (length (lon_edges edges) - 1)%nat).
  set (La := (length (lat_edges edges) - 1)%nat).
  pose (f := fun r : Z * Z * Z =>
               lands_in D Lo La i j k (r, ones3)).
  assert (Hf : forall idx (l : list arr3),
            map (fun r : Z * Z * Z * arr3 => r.2 e m p)
              (List.filter (lands_in D Lo La i j k) (zip idx l))
            = map (fun a : arr3 => a e m p)
                (map snd (List.filter (fun r => f r.1) (zip idx l)))).
  { intros idx l. rewrite map_map. reflexivity. }
  unfold zip4. rewrite !Hf.
  apply Forall2_fmap.
  apply (Forall2_impl (fun a b : arr3 => forall e m p, (0 <= b e m p <= a e m p)%R));
    [|intros a b Hab; apply Hab].
  apply Forall2_filter_zip.
  unfold multiplying_pnes. rewrite (proj2 (any_probs_occur_false c) Hpois).
  apply Forall2_imap. intros u rec Hu e' m' p'. unfold mul3, ones3.
  change (time_span cm') with t'.
  assert (Hr : (0 <= occurrence_rate rec)%R).
  { apply Hrate. eapply list_elem_of_lookup_2. exact Hu. }
  pose proof (poes_of_nonneg (length c) mea std cm g iml2 (eps_edges edges) star E slices
                Hdist Hsorted Hby u e' m' p') as Hpoe.
  assert (Hrp : (0 <= occurrence_rate rec * poes_of slices u e' m' p')%R) by nra.
  pose proof (exp_pos (- occurrence_rate rec * poes_of slices u e' m' p' * t')) as Hpos.
  assert (Hle : (- occurrence_rate rec * poes_of slices u e' m' p' * t'
                 <= - occurrence_rate rec * poes_of slices u e' m' p' * time_span cm)%R)
    by nra.
  destruct (Rle_lt_or_eq_dec _ _ Hle) as [Hlt|Heq].
  - apply exp_increasing in Hlt. lra.
  - rewrite <- Heq. lra.
Qed.

(** ** The order of the ruptures *)

Lemma digitize_lons_is_map (b0 : Q) (bs : list Q) :
  exists F : Q -> Z, forall lons, _digitize_lons lons (b0 :: bs) = Ok (map F lons).
Proof.
  unfold _digitize_lons. destruct (cross_idl b0 (List.last (b0 :: bs) b0)).
  - eexists. intros lons. reflexivity.
  - exists (fun x => (Z.of_nat (digitize x (b0 :: bs)) - 1)%Z). intros lons. reflexivity.
Qed.

Lemma zip4_map {A B C D E} (f1 : A -> B) (f2 : A -> C) (f3 : A -> D) (f4 : A -> E)
    (l : list A) :
  zip4 (map f1 l) (map f2 l) (map f3 l) (map f4 l)
  = map (fun r => (f1 r, f2 r, f3 r, f4 r)) l.
Proof. unfold zip4. induction l as [|x l IH]; simpl; [reflexivity|]. by rewrite IH. Qed.

Lemma Permutation_list_filter {A} (f : A -> bool) (l l' : list A) :
  l ≡ₚ l' -> List.filter f l ≡ₚ List.filter f l'.
Proof.
  induction 1 as [|x l l' _ IH|x y l|l l' l'' _ IH1 _ IH2]; simpl.
  - reflexivity.
  - destruct (f x); [constructor|]; exact IH.
  - destruct (f x), (f y); try reflexivity. constructor.
  - etransitivity; eassumption.
Qed.

Lemma Rprod_Permutation (l l' : list R) : l ≡ₚ l' -> Rprod l = Rprod l'.
Proof.
  induction 1 as [|x l l' _ IH|x y l|l l' l'' _ IH1 _ IH2]; simpl.
  - reflexivity.
  - rewrite IH. reflexivity.
  - lra.
  - congruence.
Qed.

(** X11. The matrix does not depend on the order of the ruptures: two
    lists of (distance, longitude, latitude, no-exceedance array) rows that
    are permutations of each other give the same entries in every cell. *)
Lemma build_disagg_matrix_order (rows rows' : list (Q * Q * Q * arr3))
    (dist_bins lon_bins lat_bins eps_bins : list Q) :
  rows ≡ₚ rows' ->
  (2 <= length dist_bins)%nat -> (2 <= length lon_bins)%nat ->
  (2 <= length lat_bins)%nat -> (1 <= length eps_bins)%nat ->
  let bdata_of := fun rs : list (Q * Q * Q * arr3) =>
    {| dists := map (fun r => r.1.1.1) rs; lons := map (fun r => r.1.1.2) rs;
       lats := map (fun r => r.1.2) rs; pnes := map snd rs |} in
  exists mat mat' : matrix,
    _build_disagg_matrix (bdata_of rows) (dist_bins, lon_bins, lat_bins, eps_bins)
    = Ok mat /\
    _build_disagg_matrix (bdata_of rows') (dist_bins, lon_bins, lat_bins, eps_bins)
    = Ok mat' /\
    forall i j k,
      (i < length dist_bins - 1)%nat -> (j < length lon_bins - 1)%nat ->
      (k < length lat_bins - 1)%nat ->
      exists cell cell' : arr3,
        cell_at mat i j k = Some cell /\ cell_at mat' i j k = Some cell' /\
        forall e m p, cell e m p = cell' e m p.
Proof.
  intros Hperm Hd Hlo Hla He bdata_of.
  destruct (build_disagg_matrix_cells (bdata_of rows) dist_bins lon_bins lat_bins eps_bins
              Hd Hlo Hla He) as (mat & idx & Hidx & _ & Hmat & Hcells).
  destruct (build_disagg_matrix_cells (bdata_of rows') dist_bins lon_bins lat_bins eps_bins
              Hd Hlo Hla He) as (mat' & idx' & Hidx' & _ & Hmat' & Hcells').
  exists mat, mat'. split; [exact Hmat|]. split; [exact Hmat'|].
  intros i j k Hi Hj Hk.
  destruct (Hcells i j k Hi Hj Hk) as (cell & Hcell & Hval).
  destruct (Hcells' i j k Hi Hj Hk) as (cell' & Hcell' & Hval').
  exists cell, cell'. split; [exact Hcell|]. split; [exact Hcell'|].
  intros e m p. rewrite Hval, Hval'. f_equal.
  destruct lon_bins as [|b0 bs]; [simpl in Hlo; lia|].
  destruct (digitize_lons_is_map b0 bs) as [F HF].
  cbn [lons bdata_of] in Hidx, Hidx'. rewrite HF in Hidx, Hidx'.
  injection Hidx as <-. injection Hidx' as <-.
  cbn [dists lats pnes bdata_of].
  unfold fold_last, digitize_minus_1. rewrite !map_map, !zip4_map.
  apply Rprod_Permutation, Permutation_map, Permutation_list_filter, Permutation_map.
  exact Hperm.
Qed.

(** ** Longitudes across the date line *)

Lemma fold_left_last_match (P : nat -> bool) (n : nat) :
  let r := fold_left (fun (idx : Z) i => if P i then Z.of_nat i else idx) (seq 0 n) 0%Z in
  exists i : nat,
    r = Z.of_nat i /\
    ((i < n)%nat \/ i = 0%nat) /\
    ((forall j, (j < n)%nat -> P j = false) -> i = 0%nat) /\
    (forall j, (j < n)%nat -> P j = true -> (j <= i)%nat /\ P i = true).
Proof.
  induction n as [|n IH]; cbn zeta.
  - exists 0%nat. simpl. repeat split; try lia; intros; lia.
  - rewrite seq_S, fold_left_app. cbn [fold_left Nat.add].
    cbn zeta in IH. destruct IH as (i & -> & Hi & Hnone & Hmax).
    destruct (P n) eqn:Hn.
    + exists n. split; [reflexivity|]. split; [lia|]. split.
      * intros Hall. rewrite (Hall n) in Hn by lia. discriminate.
      * intros j Hj _. split; [lia | exact Hn].
    + exists i. split; [reflexivity|]. split; [lia|]. split.
      * intros Hall. apply Hnone. intros j Hj. apply Hall. lia.
      * intros j Hj Hpj. destruct (decide (j = n)) as [->|Hne]; [congruence|].
        apply Hmax; [lia | exact Hpj].
Qed.

(** X12. When the longitude edges cross the date line, every longitude
    gets the index of the last bin that holds it: a bin holds a longitude
    when the longitude is west of the upper edge of the bin and, for every
    bin but the first, not west of its lower edge. A longitude that no bin
    holds gets index 0. The index is always the index of a bin. *)
Lemma digitize_lons_date_line (lons lon_bins : list Q) (b0 : Q) :
  head lon_bins = Some b0 -> cross_idl b0 (List.last lon_bins b0) = true ->
  exists idx : list Z,
    _digitize_lons lons lon_bins = Ok idx /\ length idx = length lons /\
    forall u lon, lons !! u = Some lon ->
      let holds := fun j : nat =>
        exists lo hi : Q,
          lon_bins !! j = Some lo /\ lon_bins !! (j + 1)%nat = Some hi /\
          (0 < get_longitudinal_extent lon hi)%Q /\
          (j = 0%nat \/ (0 <= get_longitudinal_extent lo lon)%Q) in
      exists i : nat,
        idx !! u = Some (Z.of_nat i) /\
        ((i + 1 < length lon_bins)%nat \/ i = 0%nat) /\
        ((forall j, ~ holds j) -> i = 0%nat) /\
        (forall j, holds j -> (j <= i)%nat /\ holds i).
Proof.
  intros Hh Hidl. destruct lon_bins as [|b bs]; [discriminate|]. injection Hh as ->.
  unfold _digitize_lons. rewrite Hidl.
  eexists. split; [reflexivity|]. split; [apply length_map|].
  intros u lon Hu.
  set (holds := fun j : nat =>
        exists lo hi : Q,
          (b0 :: bs) !! j = Some lo /\ (b0 :: bs) !! (j + 1)%nat = Some hi /\
          (0 < get_longitudinal_extent lon hi)%Q /\
          (j = 0%nat \/ (0 <= get_longitudinal_extent lo lon)%Q)).
  rewrite list_lookup_fmap, Hu. cbn [fmap option_fmap option_map].
  set (P := fun i_lon : nat =>
              Qlt_bool 0 (get_longitudinal_extent lon (nth (i_lon + 1) (b0 :: bs) 0%Q))
              && ((i_lon =? 0)%nat
                  || Qle_bool 0 (get_longitudinal_extent (nth i_lon (b0 :: bs) 0%Q) lon))).
  assert (HP : forall j, (j < length (b0 :: bs) - 1)%nat -> P j = true <-> holds j).
  { intros j Hj.
    destruct (lookup_lt_is_Some_2 (b0 :: bs) j ltac:(lia)) as [lo Hlo].
    destruct (lookup_lt_is_Some_2 (b0 :: bs) (j + 1) ltac:(lia)) as [hi Hhi].
    unfold P. rewrite (nth_lookup_Some _ _ _ _ Hlo), (nth_lookup_Some _ _ _ _ Hhi).
    rewrite andb_true_iff, orb_true_iff, Qlt_bool_iff, Nat.eqb_eq, Qle_bool_iff.
    split.
    - intros [H1 H2]. exists lo, hi. auto.
    - intros (lo' & hi' & Hlo' & Hhi' & H1 & H2).
      assert (lo' = lo) by congruence. assert (hi' = hi) by congruence. subst. auto. }
  assert (Hholds : forall j, holds j -> (j < length (b0 :: bs) - 1)%nat).
  { intros j (lo & hi & _ & Hhi & _). apply lookup_lt_Some in Hhi. lia. }
  destruct (fold_left_last_match P (length (b0 :: bs) - 1)) as (i & Hr & Hi & Hnone & Hmax).
  cbn zeta in Hr. exists i. split; [f_equal; exact Hr|].
  split; [lia|]. split.
  - intros Hno. apply Hnone. intros j Hj.
    destruct (P j) eqn:E; [|reflexivity]. exfalso. apply (Hno j), HP; assumption.
  - intros j Hj. pose proof (Hholds j Hj) as Hlt.
    destruct (Hmax j Hlt (proj2 (HP j Hlt) Hj)) as [Hle Hpi].
    split; [exact Hle|]. apply HP; [lia | exact Hpi].
Qed.

(** ** The state of a disaggregator *)

Lemma magnitude_bins_range (edges : list Q) (c : list Rupture) (i : Z) :
  i ∈ magnitude_bins edges c ->
  (0 <= i)%Z /\ (i <= Z.of_nat (length edges) - 1 \/ i = 0)%Z.
Proof.
  intros Hi. unfold magnitude_bins in Hi. rewrite map_map in Hi.
  apply list_elem_of_fmap in Hi as (rec & -> & _).
  pose proof (searchsorted_le_length edges (mag rec)).
  destruct (Z.eqb_spec (Z.of_nat (searchsorted edges (mag rec)) - 1) (-1)); lia.
Qed.

(** X13. Whatever its arguments, a constructor call that returns leaves a
    disaggregator with at least one rupture; its magnitude indices are
    those of its ruptures, one each, between 0 and the number of magnitude
    bins; its edges are the edges of the job, the longitude and latitude
    edges being those stored for its site; and when context arrays were
    passed, every rupture it keeps is a row of one of them and is a row of
    its site. *)
Lemma Disaggregator_init_invariant (arg : srcs_or_ctxs) (site : site_arg)
    (cm : ContextMaker) (edges : JobBinEdges) (imts_arg : option (list string))
    (d : Disaggregator) :
  __init__ arg site cm edges imts_arg = Ok d ->
  fullctx d <> [] /\
  fullmagi d = magnitude_bins (job_mag_edges edges) (fullctx d) /\
  length (fullmagi d) = length (fullctx d) /\
  (forall i, i ∈ fullmagi d ->
     (0 <= i)%Z /\ (i <= Z.of_nat (length (job_mag_edges edges)) - 1 \/ i = 0)%Z) /\
  match site with
  | ASite id => sid d = default 0%nat id
  | ASiteCollection ids => ids = [sid d]
  end /\
  mag_edges (bin_edges d) = job_mag_edges edges /\
  dist_edges (bin_edges d) = job_dist_edges edges /\
  job_lon_edges edges !! sid d = Some (lon_edges (bin_edges d)) /\
  job_lat_edges edges !! sid d = Some (lat_edges (bin_edges d)) /\
  eps_edges (bin_edges d) = job_eps_edges edges /\
  epsstar d = epsilon_star cm /\
  imts (cmaker d) = default (imts cm) imts_arg /\
  (forall l imt, imts_arg = Some l -> imt ∈ l -> imt ∈ imtls cm) /\
  (forall ctxs, arg = Contexts ctxs ->
     forall rec, rec ∈ fullctx d ->
       sids rec = sid d /\ exists c, c ∈ ctxs /\ rec ∈ c).
Proof.
  intros H. unfold __init__ in H.
  apply bind_Ok in H as (sitecol & Hsc & H).
  apply bind_Ok in H as (s & Hs & H).
  apply bind_Ok in H as (cm' & Hcm & H).
  apply bind_Ok in H as (lon & Hlon & H).
  apply bind_Ok in H as (lat & Hlat & H).
  apply bind_Ok in H as (ctxs & Hctxs & H).
  apply bind_Ok in H as (c & Hc & H).
  destruct (length c =? 0)%nat eqn:El; [discriminate|].
  injection H as <-. cbn [fullctx fullmagi sid bin_edges mag_edges dist_edges lon_edges
                          lat_edges eps_edges epsstar cmaker].
  apply Nat.eqb_neq in El.
  assert (Hsite : match site with
                  | ASite id => s = default 0%nat id
                  | ASiteCollection ids => ids = [s]
                  end).
  { destruct site as [id|ids].
    - injection Hsc as <-. injection Hs as <-. reflexivity.
    - apply bind_Ok in Hsc as ([] & Hlen & Hsc). injection Hsc as <-.
      unfold py_assert in Hlen.
      destruct (length ids =? 1)%nat eqn:E1; [|discriminate]. apply Nat.eqb_eq in E1.
      destruct ids as [|x [|y ids]]; try discriminate.
      injection Hs as <-. reflexivity. }
  assert (Hcm' : epsilon_star cm' = epsilon_star cm /\
                 imts cm' = default (imts cm) imts_arg /\
                 forall l imt, imts_arg = Some l -> imt ∈ l -> imt ∈ imtls cm).
  { destruct imts_arg as [l|].
    - apply bind_Ok in Hcm as ([] & Hall & Hcm). injection Hcm as <-.
      split; [reflexivity|]. split; [reflexivity|].
      intros l' imt Hl' Himt. injection Hl' as <-.
      unfold py_assert in Hall.
      destruct (forallb _ l) eqn:E; [|discriminate].
      rewrite forallb_forall in E. specialize (E imt (proj1 (list_elem_of_In _ _) Himt)).
      apply bool_decide_eq_true in E. exact E.
    - injection Hcm as <-. split; [reflexivity|]. split; [reflexivity|]. intros; discriminate. }
  destruct Hcm' as (Hstar & Himts & Hsub).
  split; [intros E; rewrite E in El; simpl in El; lia|].
  split; [reflexivity|].
  split; [unfold magnitude_bins; rewrite !length_map; reflexivity|].
  split; [intros i Hi; exact (magnitude_bins_range _ _ _ Hi)|].
  split; [exact Hsite|]. split; [reflexivity|]. split; [reflexivity|].
  split; [destruct (job_lon_edges edges !! s); [congruence|discriminate]|].
  split; [destruct (job_lat_edges edges !! s); [congruence|discriminate]|].
  split; [reflexivity|]. split; [exact Hstar|]. split; [exact Himts|].
  split; [exact Hsub|].
  intros cs -> rec Hrec.
  destruct cs as [|c0 cs]; [discriminate|].
  injection Hctxs as <-.
  assert (Hcc : c = concat (map (filter (fun rec => sids rec = s)) (c0 :: cs))).
  { injection Hc as <-. reflexivity. }
  rewrite Hcc in Hrec. apply list_elem_of_In, in_concat in Hrec as (l & Hl & Hin).
  apply list_elem_of_In, list_elem_of_fmap in Hl as (c1 & -> & Hc1).
  apply list_elem_of_In, list_elem_of_filter in Hin as [Hsid Hin].
  split; [exact Hsid|]. exists c1. split; assumption.
Qed.

(** ** The magnitude-distance-epsilon matrix *)

Lemma sequence_map_all_Ok {A B} (f : A -> result B) (l : list A) :
  (forall x, x ∈ l -> exists b, f x = Ok b) ->
  exists r, sequence (map f l) = Ok r /\ length r = length l.
Proof.
  induction l as [|x l IH]; intros H; simpl; [by exists []|].
  destruct (H x (list_elem_of_here _ _)) as [b ->].
  destruct IH as (r & -> & Hlen); [intros y Hy; apply H; by apply list_elem_of_further|].
  exists (b :: r). simpl. split; [reflexivity | by rewrite Hlen].
Qed.

Lemma sequence_map_raises {A B} (f : A -> result B) (l : list A) (e : exn) :
  (forall x, x ∈ l -> f x = Raise e \/ exists b, f x = Ok b) ->
  (exists x, x ∈ l /\ f x = Raise e) ->
  sequence (map f l) = Raise e.
Proof.
  induction l as [|x l IH]; intros H (y & Hy & Hfy); [by apply elem_of_nil in Hy|].
  simpl. destruct (H x (list_elem_of_here _ _)) as [->|[b Hb]]; [reflexivity|].
  rewrite Hb. cbn [bind]. rewrite IH; [reflexivity| |].
  - intros z Hz. apply H. by apply list_elem_of_further.
  - apply elem_of_cons in Hy as [->|Hy]; [congruence|]. eauto.
Qed.

Lemma init_no_mutex (d : Disaggregator) (i : Z) :
  select_magi i (fullctx d) (fullmagi d) <> [] ->
  exists st : MagBin,
    init d i None = Ok st /\ dis st = d /\ magi st = i /\ src_mutex st = None /\
    ctx st = select_magi i (fullctx d) (fullmagi d).
Proof.
  intros Hne. unfold init.
  destruct (length (select_magi i (fullctx d) (fullmagi d)) =? 0)%nat eqn:E.
  { apply Nat.eqb_eq in E. destruct (select_magi i (fullctx d) (fullmagi d)); [done|].
    discriminate. }
  destruct (get_mean_stds (cmaker d) (select_magi i (fullctx d) (fullmagi d))) as [me sd].
  eexists. split; [reflexivity|]. auto.
Qed.

Lemma elem_of_arange_0 (n : Z) (x : Z) :
  x ∈ arange 0 n <-> exists i : nat, (i < Z.to_nat n)%nat /\ x = Z.of_nat i.
Proof.
  unfold arange. rewrite list_elem_of_fmap. split.
  - intros (i & -> & Hi). apply elem_of_seq in Hi. exists i. split; lia.
  - intros (i & Hi & ->). exists i. split; [lia|]. apply elem_of_seq. lia.
Qed.

(** X14. [disagg_mag_dist_eps] without mutually exclusive sources, on
    edges that give at least one bin on each axis of the kernel, with
    enough rows in [iml2] and a known realization: it returns one
    (D, E, M, P) matrix per magnitude bin, the probability product over
    longitude and latitude of the matrix of that bin, exactly when every
    magnitude bin holds a rupture; as soon as one magnitude bin is empty it
    raises [FarAwayRupture]. *)
Lemma disagg_mag_dist_eps_needs_every_bin (d : Disaggregator) (g_by_rlz : gmap nat nat)
    (iml2 : list (list Q)) (rlzi g : nat) :
  let Ma := (length (mag_edges (bin_edges d)) - 1)%nat in
  (1 <= length (mag_edges (bin_edges d)))%nat ->
  (2 <= length (dist_edges (bin_edges d)))%nat ->
  (2 <= length (lon_edges (bin_edges d)))%nat ->
  (2 <= length (lat_edges (bin_edges d)))%nat ->
  (1 <= length (eps_edges (bin_edges d)))%nat ->
  (length (imts (cmaker d)) <= length iml2)%nat ->
  g_by_rlz !! rlzi = Some g ->
  ((forall i, (i < Ma)%nat ->
      select_magi (Z.of_nat i) (fullctx d) (fullmagi d) <> []) ->
   exists mat5 : list (list arr3),
     disagg_mag_dist_eps d g_by_rlz iml2 rlzi None = Ok mat5 /\
     length mat5 = Ma /\
     forall i, (i < Ma)%nat ->
       exists (st : MagBin) (mat6 : matrix),
         init d (Z.of_nat i) None = Ok st /\
         disagg6D st iml2 g = Ok mat6 /\
         mat5 !! i = Some (pprod_lon_lat mat6)) /\
  (forall i, (i < Ma)%nat ->
     select_magi (Z.of_nat i) (fullctx d) (fullmagi d) = [] ->
     disagg_mag_dist_eps d g_by_rlz iml2 rlzi None = Raise FarAwayRupture).
Proof.
  intros Ma Hm Hd Hlo Hla He Himts Hg.
  set (f := fun magi : Z =>
              let! st := init d magi None in
              let! g := match g_by_rlz !! rlzi with
                        | Some g => Ok g | None => Raise KeyError end in
              let! mat6 := disagg6D st iml2 g in
              Ok (pprod_lon_lat mat6)).
  assert (Hunfold : disagg_mag_dist_eps d g_by_rlz iml2 rlzi None
                    = sequence (map f (arange 0 (Z.of_nat Ma)))).
  { unfold disagg_mag_dist_eps.
    destruct (Z.ltb_spec (Z.of_nat (length (mag_edges (bin_edges d))) - 1) 0); [lia|].
    destruct (Z.ltb_spec (Z.of_nat (length (dist_edges (bin_edges d))) - 1) 0); [lia|].
    destruct (Z.ltb_spec (Z.of_nat (length (eps_edges (bin_edges d))) - 1) 0); [lia|].
    cbn [orb]. replace (Z.of_nat (length (mag_edges (bin_edges d))) - 1)%Z
      with (Z.of_nat Ma) by (unfold Ma; lia).
    reflexivity. }
  assert (Hf : forall i,
            select_magi (Z.of_nat i) (fullctx d) (fullmagi d) <> [] ->
            exists (st : MagBin) (mat6 : matrix),
              init d (Z.of_nat i) None = Ok st /\ disagg6D st iml2 g = Ok mat6 /\
              f (Z.of_nat i) = Ok (pprod_lon_lat mat6)).
  { intros i Hne.
    destruct (init_no_mutex d (Z.of_nat i) Hne) as (st & Hst & Hdis & _ & Hmx & _).
    assert (H6 : exists mat6, disagg6D st iml2 g = Ok mat6).
    { unfold disagg6D. rewrite Hdis, Hmx.
      destruct (imlog2_of_Ok (imts (cmaker d)) iml2 Himts) as [imlog2 ->]. cbn [bind].
      apply disaggregate_Ok; assumption. }
    destruct H6 as [mat6 H6]. exists st, mat6. split; [exact Hst|]. split; [exact H6|].
    unfold f. rewrite Hst. cbn [bind]. rewrite Hg. cbn [bind]. rewrite H6. reflexivity. }
  rewrite Hunfold. split.
  - intros Hall.
    destruct (sequence_map_all_Ok f (arange 0 (Z.of_nat Ma))) as (mat5 & Hseq & Hlen).
    { intros x Hx. apply elem_of_arange_0 in Hx as (i & Hi & ->).
      destruct (Hf i (Hall i ltac:(lia))) as (st & mat6 & _ & _ & Hfi). eauto. }
    exists mat5. split; [exact Hseq|].
    assert (Hlen' : length mat5 = Ma).
    { rewrite Hlen. unfold arange. rewrite length_map, length_seq. lia. }
    split; [exact Hlen'|]. intros i Hi.
    destruct (Hf i (Hall i Hi)) as (st & mat6 & Hst & H6 & Hfi).
    exists st, mat6. split; [exact Hst|]. split; [exact H6|].
    apply sequence_map_Forall2 in Hseq.
    destruct (lookup_lt_is_Some_2 mat5 i ltac:(lia)) as [y Hy].
    assert (Hx : arange 0 (Z.of_nat Ma) !! i = Some (Z.of_nat i)).
    { unfold arange. rewrite list_lookup_fmap, lookup_seq_lt by lia. reflexivity. }
    pose proof (Forall2_lookup_lr _ _ _ _ _ _ Hseq Hx Hy) as Hfy. cbv beta in Hfy.
    rewrite Hy. congruence.
  - intros i Hi Hempty. apply sequence_map_raises.
    + intros x Hx. apply elem_of_arange_0 in Hx as (j & Hj & ->).
      destruct (select_magi (Z.of_nat j) (fullctx d) (fullmagi d)) eqn:Ej.
      * left. unfold f.
        rewrite (proj1 (init_raises_iff d (Z.of_nat j) None) Ej). reflexivity.
      * right. destruct (Hf j) as (st & mat6 & _ & _ & Hfj); [rewrite Ej; discriminate|].
        eauto.
    + exists (Z.of_nat i). split.
      * apply elem_of_arange_0. exists i. split; [lia | reflexivity].
      * unfold f. rewrite (proj1 (init_raises_iff d (Z.of_nat i) None) Hempty). reflexivity.
Qed.

(** ** Realizations *)

Lemma fold_insert_lookup (g : nat) (rlzs : list nat) (acc : gmap nat nat) (r : nat) :
  fold_left (fun acc rlz => <[rlz := g]> acc) rlzs acc !! r
  = if decide (r ∈ rlzs) then Some g else acc !! r.
Proof.
  revert acc. induction rlzs as [|x rlzs IH]; intros acc; cbn [fold_left].
  - destruct (decide (r ∈ [])) as [H|_]; [by apply elem_of_nil in H | reflexivity].
  - rewrite IH. destruct (decide (r ∈ rlzs)) as [H|H].
    + rewrite decide_True by (by apply list_elem_of_further). reflexivity.
    + destruct (decide (r = x)) as [->|Hne].
      * rewrite decide_True by apply list_elem_of_here. apply lookup_insert_eq.
      * rewrite decide_False by (rewrite elem_of_cons; intros [?|?]; contradiction).
        apply lookup_insert_ne. congruence.
Qed.

Lemma g_by_rlz_of_snoc (gsims : list (list nat)) (rlzs : list nat) (r : nat) :
  g_by_rlz_of (gsims ++ [rlzs]) !! r
  = if decide (r ∈ rlzs) then Some (length gsims) else g_by_rlz_of gsims !! r.
Proof.
  unfold g_by_rlz_of. rewrite imap_app, fold_left_app. cbn [imap fold_left fst snd].
  rewrite fold_insert_lookup. rewrite Nat.add_0_r. reflexivity.
Qed.

(** X15. The dictionary from realizations to gsim indices maps a
    realization to the last gsim that lists it, and has no entry for a
    realization that no gsim lists. *)
Lemma g_by_rlz_last_wins (gsims : list (list nat)) (rlz : nat) :
  (g_by_rlz_of gsims !! rlz = None
   <-> forall g rlzs, gsims !! g = Some rlzs -> rlz ∉ rlzs) /\
  (forall g, g_by_rlz_of gsims !! rlz = Some g
   <-> exists rlzs, gsims !! g = Some rlzs /\ rlz ∈ rlzs /\
         forall g' rlzs', (g < g')%nat -> gsims !! g' = Some rlzs' -> rlz ∉ rlzs').
Proof.
  induction gsims as [|rlzs gsims [IHn IHs]] using rev_ind.
  - split.
    + split; [intros _ g rlzs Hg; discriminate | intros _; reflexivity].
    + intros g. split; [discriminate | intros (rlzs & Hg & _); discriminate].
  - split.
    + rewrite g_by_rlz_of_snoc. destruct (decide (rlz ∈ rlzs)) as [Hin|Hnin].
      * split; [discriminate|]. intros Hall. exfalso.
        apply (Hall (length gsims) rlzs); [|exact Hin].
        rewrite lookup_app_r, Nat.sub_diag by lia. reflexivity.
      * rewrite IHn. split.
        -- intros Hall g l Hg. apply lookup_app_Some in Hg as [Hg|[_ Hg]]; [by eapply Hall|].
           apply list_lookup_singleton_Some in Hg as [_ <-]. exact Hnin.
        -- intros Hall g l Hg. apply (Hall g l). apply lookup_app_l_Some. exact Hg.
    + intros g. rewrite g_by_rlz_of_snoc. destruct (decide (rlz ∈ rlzs)) as [Hin|Hnin].
      * split.
        -- intros Hg. injection Hg as <-. exists rlzs.
           split; [rewrite lookup_app_r, Nat.sub_diag by lia; reflexivity|].
           split; [exact Hin|]. intros g' l' Hlt Hg'.
           apply lookup_lt_Some in Hg'. rewrite length_app in Hg'. simpl in Hg'. lia.
        -- intros (l & Hg & Hl & Hlast). f_equal.
           destruct (lt_eq_lt_dec g (length gsims)) as [[Hlt|Heq]|Hgt]; [|congruence|].
           ++ exfalso. apply (Hlast (length gsims) rlzs Hlt); [|exact Hin].
              rewrite lookup_app_r, Nat.sub_diag by lia. reflexivity.
           ++ apply lookup_lt_Some in Hg. rewrite length_app in Hg. simpl in Hg. lia.
      * rewrite IHs. split.
        -- intros (l & Hg & Hl & Hlast). exists l.
           split; [apply lookup_app_l_Some; exact Hg|]. split; [exact Hl|].
           intros g' l' Hlt Hg'. apply lookup_app_Some in Hg' as [Hg'|[_ Hg']].
           ++ by eapply Hlast.
           ++ apply list_lookup_singleton_Some in Hg' as [_ <-]. exact Hnin.
        -- intros (l & Hg & Hl & Hlast).
           apply lookup_app_Some in Hg as [Hg|[_ Hg]].
           ++ exists l. split; [exact Hg|]. split; [exact Hl|].
              intros g' l' Hlt Hg'. apply (Hlast g' l' Hlt).
              apply lookup_app_l_Some. exact Hg'.
           ++ apply list_lookup_singleton_Some in Hg as [_ <-]. contradiction.
Qed.

(** ** Mutually exclusive sources: one source, and the errors *)

Lemma mutex_ranges_Ok (st : MagBin) (g : nat) (imlog2 : list (list ext))
    (ranges : list (nat * nat)) :
  (2 <= length (dist_edges (bin_edges (dis st))))%nat ->
  (2 <= length (lon_edges (bin_edges (dis st))))%nat ->
  (2 <= length (lat_edges (bin_edges (dis st))))%nat ->
  (1 <= length (eps_edges (bin_edges (dis st))))%nat ->
  exists mats : list matrix,
    sequence (map (fun '(s1, s2) => disaggregate_range st g imlog2 s1 s2) ranges) = Ok mats /\
    length mats = length ranges /\
    Forall (fun M => skeleton M = shape_of (bin_edges (dis st))) mats.
Proof.
  intros Hd Hlo Hla He.
  destruct (sequence_Ok_exists
              (map (fun '(s1, s2) => disaggregate_range st g imlog2 s1 s2) ranges))
    as [mats Hmats].
  { apply Forall_forall. intros r Hr. apply list_elem_of_fmap in Hr as ([s1 s2] & -> & _).
    by apply disaggregate_Ok. }
  exists mats. split; [exact Hmats|].
  apply sequence_map_Forall2 in Hmats. split; [symmetry; by eapply Forall2_length|].
  apply Forall_forall. intros M HM. apply list_elem_of_lookup in HM as [s HM].
  destruct (Forall2_lookup_r _ _ _ _ _ Hmats HM) as ([s1 s2] & _ & Hr).
  by apply disaggregate_skeleton in Hr.
Qed.

Lemma map_imap_same {A B} (g : A -> B) (f : nat -> A -> A) (l : list A) :
  (forall i x, g (f i x) = g x) -> map g (imap f l) = map g l.
Proof.
  revert f. induction l as [|x l IH]; intros f H; cbn [imap map]; [reflexivity|].
  rewrite H, IH; [reflexivity|]. intros i y. apply H.
Qed.

Lemma skeleton_imap3 (F : nat -> nat -> nat -> arr3) (M : matrix) :
  skeleton (imap (fun i row => imap (fun j col => imap (fun k (_ : arr3) => F i j k) col)
                                 row) M)
  = skeleton M.
Proof.
  unfold skeleton. revert F. induction M as [|row M IH]; intros F; [reflexivity|].
  cbn [imap map]. f_equal.
  - generalize (F 0%nat). intros G. clear.
    induction row as [|col row IH] in G |- *; [reflexivity|].
    cbn [imap map]. f_equal.
    + generalize (G 0%nat). intros H. clear.
      induction col as [|c col IH] in H |- *; [reflexivity|].
      cbn [imap map]. f_equal. apply (IH (fun k => H (S k))).
    + apply (IH (fun j => G (S j))).
  - apply (IH (fun i => F (S i))).
Qed.

(** The average has the shape of the first matrix. *)
Lemma average_skeleton (mats : list matrix) (ws : list R) (avg : matrix) :
  average mats ws = Ok avg -> skeleton avg = skeleton (default [] (head mats)).
Proof.
  unfold average. intros H.
  destruct (negb (forallb _ mats)); [discriminate|].
  destruct (negb (length mats =? length ws)%nat); [discriminate|].
  destruct (Req_dec_T (Rsum ws) 0); [discriminate|].
  injection H as <-.
  apply (skeleton_imap3
           (fun i j k => average_cell ws
              (map (fun mat => default ones3 (cell_at mat i j k)) mats))).
Qed.

(** X16. A group of mutually exclusive sources of which a single source
    contributes to the magnitude bin, with a non-zero weight: the result is
    the matrix of the kernel on the whole context, cell by cell, whatever
    the weight. *)
Lemma disagg6D_single_mutex_source (st : MagBin) (sm : SrcMutex) (iml2 : list (list Q))
    (g : nat) (w : R) :
  src_mutex st = Some sm ->
  mutex_start sm = [0%nat] -> mutex_stop sm = [length (ctx st)] ->
  weights st = [w] -> w <> 0%R ->
  (length (imts (cmaker (dis st))) <= length iml2)%nat ->
  (2 <= length (dist_edges (bin_edges (dis st))))%nat ->
  (2 <= length (lon_edges (bin_edges (dis st))))%nat ->
  (2 <= length (lat_edges (bin_edges (dis st))))%nat ->
  (1 <= length (eps_edges (bin_edges (dis st))))%nat ->
  exists (imlog2 : list (list ext)) (mat avg : matrix),
    imlog2_of (imts (cmaker (dis st))) iml2 = Ok imlog2 /\
    _disaggregate (ctx st) (mea st) (std st) (cmaker (dis st)) g imlog2
      (bin_edges (dis st)) (epsstar (dis st)) = Ok mat /\
    disagg6D st iml2 g = Ok avg /\
    skeleton avg = skeleton mat /\
    forall i j k c, cell_at mat i j k = Some c ->
      exists c', cell_at avg i j k = Some c' /\ forall e m p, c' e m p = c e m p.
Proof.
  intros Hsm Hstart Hstop Hw Hw0 Himts Hd Hlo Hla He.
  destruct (disagg6D_mutex st sm iml2 g Hsm Himts Hd Hlo Hla He)
    as (imlog2 & mats & avg & Himl & HF & Havg & Hcells).
  { rewrite Hstart, Hstop, Hw. reflexivity. }
  { rewrite Hw. simpl. lra. }
  rewrite Hstart, Hstop in HF. cbn [zip zip_with] in HF.
  apply Forall2_cons_inv_l in HF as (mat & mats' & Hmat & Hnil & ->).
  apply Forall2_nil_inv_l in Hnil as ->.
  unfold disaggregate_range, slice in Hmat. cbn [fst snd drop] in Hmat.
  rewrite Nat.sub_0_r, firstn_all in Hmat.
  change (_disaggregate (ctx st) (mea st) (std st) (cmaker (dis st)) g imlog2
            (bin_edges (dis st)) (epsstar (dis st)) = Ok mat) in Hmat.
  exists imlog2, mat, avg. split; [exact Himl|]. split; [exact Hmat|].
  split; [exact Havg|]. split.
  { unfold disagg6D in Havg. rewrite Himl, Hsm, Hstart, Hstop in Havg.
    cbn [bind zip zip_with map sequence] in Havg.
    unfold disaggregate_range, slice in Havg. cbn [fst snd drop] in Havg.
    rewrite Nat.sub_0_r, firstn_all in Havg.
    change (_disaggregate _ _ _ _ _ _ _ _)
      with (_disaggregate (ctx st) (mea st) (std st) (cmaker (dis st)) g imlog2
              (bin_edges (dis st)) (epsstar (dis st))) in Havg.
    rewrite Hmat in Havg. cbn [bind] in Havg.
    apply average_skeleton in Havg. exact Havg. }
  intros i j k c Hc.
  exists (average_cell (weights st) [c]). split.
  { apply Hcells. repeat constructor. exact Hc. }
  intros e m p. rewrite Hw. unfold average_cell. simpl. field. exact Hw0.
Qed.

Lemma same_skeleton_check (mats : list matrix) (S : list (list (list unit))) :
  Forall (fun M => skeleton M = S) mats ->
  forallb (fun mat => bool_decide (skeleton mat = skeleton (default [] (head mats)))) mats
  = true.
Proof.
  intros Hskel. apply forallb_forall. intros M HM. apply bool_decide_eq_true.
  rewrite Forall_forall in Hskel. rewrite (Hskel M) by by apply list_elem_of_In.
  destruct mats as [|M0 mats]; [done|]. simpl. symmetry. apply Hskel, list_elem_of_here.
Qed.

(** X17. With mutually exclusive sources, on edges that give at least
    one bin on each axis of the kernel and with enough rows in [iml2]:
    when the number of weights differs from the number of source ranges
    [disagg6D] raises [ValueError]; when the numbers agree and the weights
    add up to zero it raises [ZeroDivisionError]. *)
Lemma disagg6D_mutex_errors (st : MagBin) (sm : SrcMutex) (iml2 : list (list Q))
    (g : nat) :
  src_mutex st = Some sm ->
  (length (imts (cmaker (dis st))) <= length iml2)%nat ->
  (2 <= length (dist_edges (bin_edges (dis st))))%nat ->
  (2 <= length (lon_edges (bin_edges (dis st))))%nat ->
  (2 <= length (lat_edges (bin_edges (dis st))))%nat ->
  (1 <= length (eps_edges (bin_edges (dis st))))%nat ->
  (length (zip (mutex_start sm) (mutex_stop sm)) <> length (weights st) ->
   disagg6D st iml2 g = Raise ValueError) /\
  (length (zip (mutex_start sm) (mutex_stop sm)) = length (weights st) ->
   Rsum (weights st) = 0%R ->
   disagg6D st iml2 g = Raise ZeroDivisionError).
Proof.
  intros Hsm Himts Hd Hlo Hla He.
  destruct (imlog2_of_Ok _ _ Himts) as [imlog2 Himl].
  destruct (mutex_ranges_Ok st g imlog2 (zip (mutex_start sm) (mutex_stop sm))
              Hd Hlo Hla He) as (mats & Hmats & Hlen & Hskel).
  assert (Hun : disagg6D st iml2 g = average mats (weights st)).
  { unfold disagg6D. rewrite Himl, Hsm. cbn [bind]. rewrite Hmats. reflexivity. }
  rewrite Hun. unfold average. rewrite (same_skeleton_check mats _ Hskel). cbn [negb].
  split.
  - intros Hne. destruct (Nat.eqb_spec (length mats) (length (weights st))) as [E|_];
      [lia | reflexivity].
  - intros Heq Hsum.
    destruct (Nat.eqb_spec (length mats) (length (weights st))) as [_|E]; [|lia].
    cbn [negb]. destruct (Req_dec_T (Rsum (weights st)) 0) as [_|E]; [reflexivity|].
    contradiction.
Qed.

(** ** Longitude and latitude edges by site *)

Lemma assert_shapes_Ok (n : nat) (arrays : list (list Q)) (u : unit) :
  assert_shapes n arrays = Ok u -> Forall (fun a => length a = n) arrays.
Proof.
  induction arrays as [|a arrays IH]; intros H; [constructor|].
  cbn [assert_shapes] in H. unfold py_assert in H.
  destruct (Nat.eqb_spec (length a) n) as [E|E]; [|discriminate].
  cbn [bind] in H. constructor; [exact E | by apply IH].
Qed.

Lemma assert_same_shape_Ok (arrays : list (list Q)) (u : unit) :
  assert_same_shape arrays = Ok u ->
  arrays <> [] /\ forall a b, a ∈ arrays -> b ∈ arrays -> length a = length b.
Proof.
  destruct arrays as [|a0 rest]; [discriminate|]. intros H.
  apply assert_shapes_Ok in H. rewrite Forall_forall in H.
  split; [discriminate|].
  assert (Hall : forall a, a ∈ a0 :: rest -> length a = length a0).
  { intros a Ha. apply elem_of_cons in Ha as [->|Ha]; [reflexivity | by apply H]. }
  intros a b Ha Hb. rewrite (Hall a Ha), (Hall b Hb). reflexivity.
Qed.

Lemma same_shape_values (m : gmap nat (list Q)) (u : unit) :
  assert_same_shape (map snd (map_to_list m)) = Ok u ->
  m <> ∅ /\
  forall s1 s2 e1 e2, m !! s1 = Some e1 -> m !! s2 = Some e2 -> length e1 = length e2.
Proof.
  intros H. apply assert_same_shape_Ok in H as [Hne Hall]. split.
  - intros ->. rewrite map_to_list_empty in Hne. by apply Hne.
  - intros s1 s2 e1 e2 H1 H2. apply Hall.
    + apply list_elem_of_fmap. exists (s1, e1). split; [reflexivity|].
      by apply elem_of_map_to_list.
    + apply list_elem_of_fmap. exists (s2, e2). split; [reflexivity|].
      by apply elem_of_map_to_list.
Qed.

Lemma fold_sites_lookup {A} (f : Site -> A) (sitecol : list Site) (acc : gmap nat A)
    (s : nat) (e : A) :
  fold_left (fun acc site => <[site_id site := f site]> acc) sitecol acc !! s = Some e ->
  acc !! s = Some e \/ exists site, site ∈ sitecol /\ site_id site = s /\ e = f site.
Proof.
  revert acc. induction sitecol as [|x sitecol IH]; intros acc H; [by left|].
  cbn [fold_left] in H. apply IH in H as [H|(site & Hin & Hid & He)].
  - destruct (decide (site_id x = s)) as [E|E].
    + rewrite <- E, lookup_insert_eq in H. injection H as <-.
      right. exists x. split; [apply list_elem_of_here | auto].
    + rewrite lookup_insert_ne in H by exact E. by left.
  - right. exists site. split; [by apply list_elem_of_further | auto].
Qed.

Lemma fold_sites_is_Some {A} (f : Site -> A) (sitecol : list Site) (acc : gmap nat A)
    (s : nat) :
  is_Some (acc !! s) \/ (exists site, site ∈ sitecol /\ site_id site = s) ->
  is_Some (fold_left (fun acc site => <[site_id site := f site]> acc) sitecol acc !! s).
Proof.
  revert acc. induction sitecol as [|x sitecol IH]; intros acc H.
  - destruct H as [H|(site & Hin & _)]; [exact H | by apply elem_of_nil in Hin].
  - cbn [fold_left]. apply IH.
    destruct (decide (site_id x = s)) as [E|E].
    + left. rewrite <- E, lookup_insert_eq. eauto.
    + destruct H as [H|(site & Hin & Hid)].
      * left. rewrite lookup_insert_ne by exact E. exact H.
      * apply elem_of_cons in Hin as [->|Hin]; [contradiction|]. right. eauto.
Qed.

Lemma fold_sites_split (f1 f2 : Site -> list Q) (sitecol : list Site)
    (acc : gmap nat (list Q) * gmap nat (list Q)) :
  fold_left (fun acc site =>
               (<[site_id site := f1 site]> acc.1, <[site_id site := f2 site]> acc.2))
    sitecol acc
  = (fold_left (fun acc site => <[site_id site := f1 site]> acc) sitecol acc.1,
     fold_left (fun acc site => <[site_id site := f2 site]> acc) sitecol acc.2).
Proof.
  revert acc. induction sitecol as [|x sitecol IH]; intros [a1 a2]; [reflexivity|].
  cbn [fold_left]. rewrite IH. reflexivity.
Qed.

(** X18. When the bin edges are returned, the site collection is not
    empty and all sites have the same number of longitude edges and the
    same number of latitude edges. When neither longitude nor latitude
    edges are given, there are edges for exactly the ids of the sites, and
    they are the grid computed around a site with that id. *)
Lemma build_bin_edges_same_shape {trt} (oq : DisaggParams trt) (sitecol : list Site)
    (edges : JobBinEdges) :
  _build_bin_edges oq sitecol = Ok edges ->
  sitecol <> [] /\
  (forall s1 s2 e1 e2,
     job_lon_edges edges !! s1 = Some e1 -> job_lon_edges edges !! s2 = Some e2 ->
     length e1 = length e2) /\
  (forall s1 s2 e1 e2,
     job_lat_edges edges !! s1 = Some e1 -> job_lat_edges edges !! s2 = Some e2 ->
     length e1 = length e2) /\
  (disagg_bin_edges_lon oq = None -> disagg_bin_edges_lat oq = None ->
   forall s,
     (is_Some (job_lon_edges edges !! s) <-> exists site, site ∈ sitecol /\ site_id site = s) /\
     (is_Some (job_lat_edges edges !! s) <-> exists site, site ∈ sitecol /\ site_id site = s) /\
     (forall e, job_lon_edges edges !! s = Some e ->
        exists site, site ∈ sitecol /\ site_id site = s /\
          e = (lon_lat_bins (loc_x site) (loc_y site) (maxdist oq)
                 (coordinate_bin_width oq)).1) /\
     (forall e, job_lat_edges edges !! s = Some e ->
        exists site, site ∈ sitecol /\ site_id site = s /\
          e = (lon_lat_bins (loc_x site) (loc_y site) (maxdist oq)
                 (coordinate_bin_width oq)).2)).
Proof.
  intros H. unfold _build_bin_edges in H.
  apply bind_Ok in H as (me & _ & H). apply bind_Ok in H as (de & _ & H).
  apply bind_Ok in H as ([lo la] & Hll & H). injection H as <-.
  cbn [job_lon_edges job_lat_edges fst snd].
  unfold build_lon_lat_edges in Hll.
  apply bind_Ok in Hll as ([lo' la'] & Hbuild & Hll).
  apply bind_Ok in Hll as (u1 & Hs1 & Hll). apply bind_Ok in Hll as (u2 & Hs2 & Hll).
  injection Hll as -> ->. cbn [fst snd] in Hs1, Hs2.
  apply same_shape_values in Hs1 as [Hne1 Hlo]. apply same_shape_values in Hs2 as [_ Hla].
  assert (Hsites : sitecol <> []).
  { intros ->. destruct (disagg_bin_edges_lon oq), (disagg_bin_edges_lat oq);
      cbn in Hbuild; try discriminate. injection Hbuild as <- <-. by apply Hne1. }
  split; [exact Hsites|]. split; [exact Hlo|]. split; [exact Hla|].
  intros Hnlon Hnlat s. rewrite Hnlon, Hnlat in Hbuild.
  rewrite fold_sites_split in Hbuild. injection Hbuild as <- <-. cbn [fst snd].
  split; [|split; [|split]].
  - split.
    + intros [e He]. apply fold_sites_lookup in He as [He|(site & Hin & Hid & _)];
        [by rewrite lookup_empty in He | eauto].
    + intros Hex. apply fold_sites_is_Some. by right.
  - split.
    + intros [e He]. apply fold_sites_lookup in He as [He|(site & Hin & Hid & _)];
        [by rewrite lookup_empty in He | eauto].
    + intros Hex. apply fold_sites_is_Some. by right.
  - intros e He. apply fold_sites_lookup in He as [He|Hex];
      [by rewrite lookup_empty in He | exact Hex].
  - intros e He. apply fold_sites_lookup in He as [He|Hex];
      [by rewrite lookup_empty in He | exact Hex].
Qed.

(** X19. When longitude or latitude edges are given: a site collection
    that does not hold exactly one site fails the assertion; with one site
    and only one of the two given the lookup of the other raises
    [KeyError]; with one site and both given the edges are stored under the
    key 0, whatever the id of the site, so that a disaggregator built on
    them for a site with another id raises [KeyError]. *)
Lemma lon_lat_edges_given {trt} (oq : DisaggParams trt) (sitecol : list Site) :
  disagg_bin_edges_lon oq <> None \/ disagg_bin_edges_lat oq <> None ->
  (length sitecol <> 1%nat ->
   build_lon_lat_edges oq sitecol = Raise AssertionError) /\
  (length sitecol = 1%nat ->
   (disagg_bin_edges_lon oq = None \/ disagg_bin_edges_lat oq = None ->
    build_lon_lat_edges oq sitecol = Raise KeyError) /\
   (forall lon lat,
      disagg_bin_edges_lon oq = Some lon -> disagg_bin_edges_lat oq = Some lat ->
      build_lon_lat_edges oq sitecol = Ok ({[ 0%nat := lon ]}, {[ 0%nat := lat ]}) /\
      forall (edges : JobBinEdges) (arg : srcs_or_ctxs) (cm : ContextMaker) (s : nat),
        job_lon_edges edges = {[ 0%nat := lon ]} -> s <> 0%nat ->
        __init__ arg (ASiteCollection [s]) cm edges None = Raise KeyError)).
Proof.
  intros Hgiven. unfold build_lon_lat_edges. split.
  - intros Hlen. apply Nat.eqb_neq in Hlen.
    destruct (disagg_bin_edges_lon oq), (disagg_bin_edges_lat oq);
      try (unfold py_assert; rewrite Hlen; reflexivity).
    destruct Hgiven; contradiction.
  - intros Hlen. apply Nat.eqb_eq in Hlen. split.
    + intros Hnone.
      destruct (disagg_bin_edges_lon oq), (disagg_bin_edges_lat oq);
        try (unfold py_assert; rewrite Hlen; reflexivity).
      * destruct Hnone; discriminate.
      * destruct Hgiven; contradiction.
    + intros lon lat -> ->. split.
      * unfold py_assert. rewrite Hlen. cbn [bind fst snd].
        rewrite !map_to_list_singleton. reflexivity.
      * intros edges arg cm s Hlon Hs. unfold __init__. cbn [bind py_assert length Nat.eqb].
        rewrite Hlon, lookup_singleton_ne by congruence. reflexivity.
Qed.

(** ** The shape dictionary *)

(** The edges a disaggregator keeps. *)
Lemma init_Ok_edges (arg : srcs_or_ctxs) (site : site_arg) (cm : ContextMaker)
    (edges : JobBinEdges) (imts_arg : option (list string)) (d : Disaggregator) :
  __init__ arg site cm edges imts_arg = Ok d ->
  dist_edges (bin_edges d) = job_dist_edges edges /\
  job_lon_edges edges !! sid d = Some (lon_edges (bin_edges d)) /\
  job_lat_edges edges !! sid d = Some (lat_edges (bin_edges d)).
Proof.
  intros H. unfold __init__ in H.
  apply bind_Ok in H as (sitecol & _ & H). apply bind_Ok in H as (s & _ & H).
  apply bind_Ok in H as (cm' & _ & H).
  apply bind_Ok in H as (lon & Hlon & H). apply bind_Ok in H as (lat & Hlat & H).
  apply bind_Ok in H as (ctxs & _ & H). apply bind_Ok in H as (c & _ & H).
  destruct (length c =? 0)%nat; [discriminate|]. injection H as <-.
  cbn [sid bin_edges dist_edges lon_edges lat_edges].
  split; [reflexivity|].
  split; [destruct (job_lon_edges edges !! s); [congruence|discriminate]|].
  destruct (job_lat_edges edges !! s); [congruence|discriminate].
Qed.

(** The sanity check of the builder: one length for the longitude edges of
    all sites, and one for their latitude edges. *)
Lemma lon_lat_edges_lengths {trt} (oq : DisaggParams trt) (sitecol : list Site)
    (edges : JobBinEdges) :
  _build_bin_edges oq sitecol = Ok edges ->
  (forall s1 s2 e1 e2,
     job_lon_edges edges !! s1 = Some e1 -> job_lon_edges edges !! s2 = Some e2 ->
     length e1 = length e2) /\
  (forall s1 s2 e1 e2,
     job_lat_edges edges !! s1 = Some e1 -> job_lat_edges edges !! s2 = Some e2 ->
     length e1 = length e2).
Proof.
  intros H. unfold _build_bin_edges in H.
  apply bind_Ok in H as (me & _ & H). apply bind_Ok in H as (de & _ & H).
  apply bind_Ok in H as ([lo la] & Hll & H). injection H as <-.
  cbn [job_lon_edges job_lat_edges fst snd].
  unfold build_lon_lat_edges in Hll.
  apply bind_Ok in Hll as ([lo' la'] & _ & Hll).
  apply bind_Ok in Hll as (u1 & Hs1 & Hll). apply bind_Ok in Hll as (u2 & Hs2 & Hll).
  injection Hll as -> ->. cbn [fst snd] in Hs1, Hs2.
  apply same_shape_values in Hs1 as [_ Hlo]. apply same_shape_values in Hs2 as [_ Hla].
  split; assumption.
Qed.

(** X20. When [get_edges_shapedic] returns, there is at least one
    tectonic region type and at least one poe level in the dictionary, the
    edges hold longitude and latitude edges under the key 0, and the
    numbers of bins of the dictionary are those of every site: a
    disaggregator built on the edges, for any site, gets from the kernel
    matrices of shape ([dist], [lon], [lat]) as the dictionary gives
    them. *)
Lemma shapedic_matches_matrix {trt} (oq : DisaggParams trt) (sitecol : list Site)
    (num_tot_rlzs : option nat) (edges : JobBinEdges) (trts : list trt)
    (dic : ShapeDic) :
  get_edges_shapedic oq sitecol num_tot_rlzs = Ok (edges, trts, dic) ->
  _build_bin_edges oq sitecol = Ok edges /\
  trts = map fst (mags_by_trt (mag_params oq)) /\ trts <> [] /\
  shape_trt dic = length trts /\ shape_N dic = length sitecol /\
  (1 <= shape_P dic)%nat /\
  is_Some (job_lon_edges edges !! 0%nat) /\ is_Some (job_lat_edges edges !! 0%nat) /\
  (forall s lon lat,
     job_lon_edges edges !! s = Some lon -> job_lat_edges edges !! s = Some lat ->
     shape_lon dic = (Z.of_nat (length lon) - 1)%Z /\
     shape_lat dic = (Z.of_nat (length lat) - 1)%Z) /\
  (forall (arg : srcs_or_ctxs) (site : site_arg) (cm cm' : ContextMaker)
          (imts_arg : option (list string)) (d : Disaggregator) (c : list Rupture)
          (mea std : nat -> nat -> nat -> Q) (g : nat) (iml2 : list (list ext))
          (star : bool) (mat : matrix),
     __init__ arg site cm edges imts_arg = Ok d ->
     _disaggregate c mea std cm' g iml2 (bin_edges d) star = Ok mat ->
     skeleton mat
     = replicate (Z.to_nat (shape_dist dic))
         (replicate (Z.to_nat (shape_lon dic))
            (replicate (Z.to_nat (shape_lat dic)) tt))).
Proof.
  intros H. unfold get_edges_shapedic in H.
  apply bind_Ok in H as ([] & Hmags & H).
  apply bind_Ok in H as (edges' & Hedges & H).
  apply bind_Ok in H as (lon0 & Hlon0 & H). apply bind_Ok in H as (lat0 & Hlat0 & H).
  injection H as -> <- <-.
  cbn [shape_trt shape_N shape_P shape_lon shape_lat shape_dist].
  destruct (job_lon_edges edges !! 0%nat) as [l0|] eqn:El0; [|discriminate].
  destruct (job_lat_edges edges !! 0%nat) as [a0|] eqn:Ea0; [|discriminate].
  injection Hlon0 as <-. injection Hlat0 as <-.
  destruct (lon_lat_edges_lengths oq sitecol edges Hedges) as (Hlo & Hla).
  assert (Hdims : forall s lon lat,
            job_lon_edges edges !! s = Some lon -> job_lat_edges edges !! s = Some lat ->
            (Z.of_nat (length l0) - 1 = Z.of_nat (length lon) - 1)%Z /\
            (Z.of_nat (length a0) - 1 = Z.of_nat (length lat) - 1)%Z).
  { intros s lon lat Hl Ha.
    rewrite (Hlo 0%nat s l0 lon El0 Hl), (Hla 0%nat s a0 lat Ea0 Ha). split; reflexivity. }
  split; [exact Hedges|]. split; [reflexivity|].
  split.
  { unfold py_assert in Hmags. destruct (mags_by_trt (mag_params oq)); [discriminate|].
    discriminate. }
  split; [reflexivity|]. split; [reflexivity|].
  split; [destruct (poes_disagg oq); simpl; lia|].
  split; [eauto|]. split; [eauto|]. split; [exact Hdims|].
  intros arg site cm cm' imts_arg d c mea std g iml2 star mat Hinit Hmat.
  apply disaggregate_skeleton in Hmat. rewrite Hmat. unfold shape_of.
  destruct (init_Ok_edges arg site cm edges imts_arg d Hinit) as (Hde & Hle & Hae).
  destruct (Hdims _ _ _ Hle Hae) as [E1 E2]. rewrite Hde, E1, E2.
  f_equal; [lia|]. f_equal; [lia|]. f_equal. lia.
Qed.

(** ** The magnitude bins partition the ruptures *)

Lemma select_magi_filter (f : Rupture -> Z) (i : Z) (c : list Rupture) :
  select_magi i c (map f c) = List.filter (fun rec => (f rec =? i)%Z) c.
Proof.
  unfold select_magi. induction c as [|x c IH]; [reflexivity|].
  cbn [map zip zip_with List.filter]. rewrite filter_cons. cbn [snd].
  destruct (Z.eqb_spec (f x) i) as [E|E].
  - rewrite decide_True by exact E. cbn [map fst]. f_equal. exact IH.
  - rewrite decide_False by exact E. exact IH.
Qed.

Lemma list_filter_split {A} (p q r : A -> bool) (l : list A) :
  (forall x, p x = q x || r x) -> (forall x, q x && r x = false) ->
  List.filter p l ≡ₚ List.filter q l ++ List.filter r l.
Proof.
  intros Hp Hqr. induction l as [|x l IH]; [reflexivity|].
  cbn [List.filter]. rewrite Hp. specialize (Hqr x).
  destruct (q x), (r x); try discriminate; cbn [orb app].
  - constructor. exact IH.
  - rewrite IH. apply Permutation_middle.
  - exact IH.
Qed.

Lemma list_filter_bins {A} (f : A -> Z) (l : list A) (n : nat) :
  concat (map (fun i => List.filter (fun x => (f x =? Z.of_nat i)%Z) l) (seq 0 n))
  ≡ₚ List.filter (fun x => (0 <=? f x)%Z && (f x <? Z.of_nat n)%Z) l.
Proof.
  induction n as [|n IH].
  - simpl. induction l as [|x l IHl]; [reflexivity|]. cbn [List.filter].
    destruct (Z.leb_spec 0 (f x)), (Z.ltb_spec (f x) (Z.of_nat 0)); try lia; exact IHl.
  - rewrite seq_S, map_app, concat_app, IH. cbn [map concat Nat.add]. rewrite app_nil_r.
    symmetry. apply list_filter_split.
    + intros x. destruct (Z.leb_spec 0 (f x)), (Z.ltb_spec (f x) (Z.of_nat (S n))),
        (Z.ltb_spec (f x) (Z.of_nat n)), (Z.eqb_spec (f x) (Z.of_nat n)); try lia; reflexivity.
    + intros x. destruct (Z.leb_spec 0 (f x)), (Z.ltb_spec (f x) (Z.of_nat n)),
        (Z.eqb_spec (f x) (Z.of_nat n)); try lia; reflexivity.
Qed.

(** X21. On ascending magnitude edges (at least two), the ruptures
    selected for the magnitude bins 0 to Ma - 1, taken together, are
    exactly the ruptures of the full context whose magnitude is at most the
    last edge, each one once; a rupture above the last edge is in none of
    these bins. *)
Lemma magnitude_selections_partition (edges : list Q) (c : list Rupture) (xl : Q) :
  StronglySorted Qlt edges -> (2 <= length edges)%nat -> last edges = Some xl ->
  concat (map (fun i => select_magi (Z.of_nat i) c (magnitude_bins edges c))
            (seq 0 (length edges - 1)))
  ≡ₚ List.filter (fun rec => Qle_bool (mag rec) xl) c.
Proof.
  intros Hs Hlen Hl.
  set (f := fun rec : Rupture =>
              if (Z.of_nat (searchsorted edges (mag rec)) - 1 =? -1)%Z then 0%Z
              else (Z.of_nat (searchsorted edges (mag rec)) - 1)%Z).
  assert (Hbins : magnitude_bins edges c = map f c).
  { unfold magnitude_bins. rewrite map_map. reflexivity. }
  rewrite Hbins.
  assert (Hsel : map (fun i => select_magi (Z.of_nat i) c (map f c))
                   (seq 0 (length edges - 1))
                 = map (fun i => List.filter (fun rec => (f rec =? Z.of_nat i)%Z) c)
                     (seq 0 (length edges - 1))).
  { apply map_ext. intros i. apply select_magi_filter. }
  rewrite Hsel, list_filter_bins.
  erewrite List.filter_ext; [reflexivity|].
  intros rec. cbv beta.
  pose proof (searchsorted_le_length edges (mag rec)) as Hle.
  destruct (Qle_bool (mag rec) xl) eqn:E.
  - apply Qle_bool_iff in E.
    assert (Hlt : (searchsorted edges (mag rec) < length edges)%nat).
    { apply (searchsorted_lt_length edges (mag rec) xl); [|exact E].
      rewrite last_lookup in Hl. eapply list_elem_of_lookup_2. exact Hl. }
    unfold f.
    destruct (Z.eqb_spec (Z.of_nat (searchsorted edges (mag rec)) - 1) (-1));
      apply andb_true_iff; split; try apply Z.leb_le; try apply Z.ltb_lt; lia.
  - apply Qle_bool_false in E.
    assert (Hall : searchsorted edges (mag rec) = length edges).
    { apply searchsorted_all; [exact Hs|]. intros x Hx.
      assert (x = xl) by congruence. subst x. exact E. }
    unfold f. rewrite Hall.
    destruct (Z.eqb_spec (Z.of_nat (length edges) - 1) (-1)); [lia|].
    apply andb_false_iff. right. apply Z.ltb_ge. lia.
Qed.

(** ** The Poissonian lane in closed form *)

Lemma Rprod_exp (l h : list R) (t : R) :
  Forall2 (fun x y => x = exp (- y * t)) l h -> Rprod l = exp (- t * Rsum h).
Proof.
  induction 1 as [|x y l h Hxy _ IH]; simpl.
  - rewrite Rmult_0_r. symmetry. apply exp_0.
  - rewrite Hxy, IH, <- exp_plus. f_equal. lra.
Qed.

(** X22. On the Poissonian lane every entry of a cell is
    [1 - exp(- time_span * S)], where [S] is the sum, over the ruptures
    binned in the cell, of the occurrence rate times the probability of
    exceedance of the rupture for that epsilon bin, intensity measure type
    and level. *)
Lemma poissonian_cell_closed_form (c : list Rupture) (mea std : nat -> nat -> nat -> Q)
    (cm : ContextMaker) (g : nat) (iml2 : list (list ext)) (edges : BinEdges)
    (star : bool) :
  (2 <= length (dist_edges edges))%nat -> (2 <= length (lon_edges edges))%nat ->
  (2 <= length (lat_edges edges))%nat -> (1 <= length (eps_edges edges))%nat ->
  (forall rec, rec ∈ c -> probs_occur rec = []) ->
  let D := (length (dist_edges edges) - 1)%nat in
  let Lo := (length (lon_edges edges) - 1)%nat in
  let La := (length (lat_edges edges) - 1)%nat in
  exists (E : nat) (slices : list (list (list (list R)))) (lons_idx : list Z)
         (mat : matrix),
    disagg_by_eps (length c) mea std cm g iml2 (eps_edges edges) star = Ok (E, slices) /\
    _digitize_lons (map clon c) (lon_edges edges) = Ok lons_idx /\
    _disaggregate c mea std cm g iml2 edges star = Ok mat /\
    let rates :=
      imap (fun u rec => fun e m p => (occurrence_rate rec * poes_of slices u e m p)%R) c in
    let rups :=
      zip4 (fold_last (Z.of_nat D) (digitize_minus_1 (map rrup c) (dist_edges edges)))
           (fold_last (Z.of_nat Lo) lons_idx)
           (fold_last (Z.of_nat La) (digitize_minus_1 (map clat c) (lat_edges edges)))
           rates in
    forall i j k, (i < D)%nat -> (j < Lo)%nat -> (k < La)%nat ->
      exists cell : arr3,
        cell_at mat i j k = Some cell /\
        forall e m p,
          cell e m p
          = (1 - exp (- time_span cm
                      * Rsum (map (fun r => r.2 e m p)
                                (List.filter (lands_in D Lo La i j k) rups))))%R.
Proof.
  intros Hd Hlo Hla He Hpois D Lo La.
  destruct (disaggregate_product c mea std cm g iml2 edges star Hd Hlo Hla He)
    as (E & slices & lons_idx & mat & Hby & Hlons & Hmat & Hcells).
  exists E, slices, lons_idx, mat. split; [exact Hby|]. split; [exact Hlons|].
  split; [exact Hmat|]. intros rates rups i j k Hi Hj Hk.
  destruct (Hcells i j k Hi Hj Hk) as (cell & Hcell & Hval).
  exists cell. split; [exact Hcell|]. intros e m p. rewrite Hval. f_equal.
  apply Rprod_exp.
  pose (f := fun r : Z * Z * Z => lands_in D Lo La i j k (r, ones3)).
  assert (Hf : forall idx (l : list arr3),
            map (fun r : Z * Z * Z * arr3 => r.2 e m p)
              (List.filter (lands_in D Lo La i j k) (zip idx l))
            = map (fun a : arr3 => a e m p)
                (map snd (List.filter (fun r => f r.1) (zip idx l)))).
  { intros idx l. rewrite map_map. reflexivity. }
  unfold rups, zip4. fold D Lo La. rewrite !Hf.
  apply Forall2_fmap.
  apply (Forall2_impl (fun a b : arr3 => forall e m p, a e m p = exp (- b e m p * time_span cm)));
    [|intros a b Hab; apply Hab].
  apply Forall2_filter_zip.
  unfold multiplying_pnes, rates. rewrite (proj2 (any_probs_occur_false c) Hpois).
  apply Forall2_imap. intros u rec Hu e' m' p'. unfold mul3, ones3.
  rewrite Rmult_1_l. f_equal. lra.
Qed.

End Engine.

(** ** Instances at the sample inputs *)

Lemma magnitude_bins_spec_witness :
  let edges := [5; 6; 7]%Q in
  let rec := Sample.rup 0 (13 # 2) 10 0 0 1 [] in
  StronglySorted Qlt edges /\
  exists i : Z,
    magnitude_bins edges [rec] !! 0%nat = Some i /\
    (forall e0, head edges = Some e0 -> (mag rec <= e0)%Q -> i = 0%Z) /\
    (forall e0 elast, head edges = Some e0 -> last edges = Some elast ->
       (e0 < mag rec)%Q -> (mag rec <= elast)%Q ->
       exists lo hi : Q,
         (0 <= i)%Z /\ edges !! Z.to_nat i = Some lo /\
         edges !! (Z.to_nat i + 1)%nat = Some hi /\
         (lo < mag rec)%Q /\ (mag rec <= hi)%Q) /\
    (forall elast, last edges = Some elast -> (elast < mag rec)%Q ->
       i = (Z.of_nat (length edges) - 1)%Z).
Proof.
  intros edges rec.
  assert (Hs : StronglySorted Qlt edges) by (repeat constructor; reflexivity).
  split; [exact Hs|].
  exact (magnitude_bins_spec edges [rec] 0 rec Hs eq_refl).
Defined.

(** C9, counterexample. With edges 5, 6, 7 a rupture of magnitude 6 is
    assigned bin 0, whose edges are 5 and 6: the magnitude is not strictly
    below the upper edge of its bin. *)
Lemma magnitude_bins_not_half_open_low :
  let edges := [5; 6; 7]%Q in
  let rec := Sample.rup 0 6 10 0 0 1 [] in
  StronglySorted Qlt edges /\
  magnitude_bins edges [rec] = [0%Z] /\
  edges !! 0%nat = Some 5%Q /\ edges !! 1%nat = Some 6%Q /\
  ~ ((5 <= mag rec)%Q /\ (mag rec < 6)%Q).
Proof.
  repeat split; try reflexivity.
  - repeat constructor; reflexivity.
  - intros [_ H]. vm_compute in H. discriminate.
Qed.

Lemma get_eps4_spec_witness :
  StronglySorted Qlt [-3; 0; 3]%Q /\
  exists (min_eps max_eps : Q) (eps_bands eps_cum : list R),
    get_eps4 Sample.cdf [-3; 0; 3]%Q 3 = Ok (min_eps, max_eps, eps_bands, eps_cum) /\
    length eps_bands = 2%nat /\
    eps_cum !! 0%nat = Some (Rsum eps_bands) /\
    eps_cum !! 2%nat = Some 0%R.
Proof.
  assert (Hs : StronglySorted Qlt [-3; 0; 3]%Q) by (repeat constructor; reflexivity).
  split; [exact Hs|].
  destruct (get_eps4_spec Sample.cdf [-3; 0; 3]%Q 3 Hs eq_refl)
    as (mn & mx & bands & cum & Hget & Hlen & _ & _ & _ & H0 & Hlast);
    [discriminate|].
  exists mn, mx, bands, cum. rewrite Hlen in Hlast. auto.
Defined.

Lemma disagg_eps_sums_to_survival_witness :
  exists (min_eps max_eps : Q) (eps_bands cum_bands : list R) (res : list (list R)),
    get_eps4 Sample.cdf [-3; 0; 3]%Q 3 = Ok (min_eps, max_eps, eps_bands, cum_bands) /\
    _disagg_eps [(7 / 10)%R] [1%nat] eps_bands cum_bands = Ok res /\
    exists row : list R, res !! 0%nat = Some row /\ Rsum row = (7 / 10)%R.
Proof.
  destruct (disagg_eps_sums_to_survival Sample.cdf [-3; 0; 3]%Q 3 _ _ _ _
              [(7 / 10)%R] [1%nat] eq_refl eq_refl) as (res & Hres & Hrow).
  destruct (Hrow 0%nat (7 / 10)%R 1%nat eq_refl eq_refl) as (row & c & Hr & _ & _ & Hsum);
    [simpl; lia..|].
  eexists _, _, _, _, res. split; [reflexivity|]. split; [exact Hres|].
  exists row. auto.
Defined.

Lemma build_disagg_matrix_spec_witness :
  let bdata := {| dists := [5; 20]%Q; lons := [0; 0]%Q; lats := [0; 0]%Q;
                  pnes := [fun _ _ _ => (1 / 2)%R; fun _ _ _ => (1 / 4)%R] |} in
  exists mat : matrix,
    _build_disagg_matrix Sample.no_idl Sample.extent bdata
      ([0; 10; 20]%Q, [-1; 1]%Q, [-1; 1]%Q, [-3; 0; 3]%Q) = Ok mat /\
    fold_last 2 (digitize_minus_1 (dists bdata) [0; 10; 20]%Q) !! 1%nat = Some 1%Z.
Proof.
  intros bdata.
  destruct (build_disagg_matrix_spec Sample.no_idl Sample.extent bdata
              [0; 10; 20]%Q [-1; 1]%Q [-1; 1]%Q [-3; 0; 3]%Q)
    as (mat & idx & _ & Hmat & _ & Hlast & _); [simpl; lia..|].
  exists mat. split; [exact Hmat|].
  refine (proj1 (Hlast 1%nat 20%Q 20%Q _ eq_refl eq_refl _)).
  - repeat constructor; reflexivity.
  - reflexivity.
Defined.

Lemma low_coordinate_lands_in_last_bin_witness :
  let bdata := {| dists := [-5]%Q; lons := [0]%Q; lats := [0]%Q;
                  pnes := [fun _ _ _ => (1 / 2)%R] |} in
  exists mat : matrix,
    _build_disagg_matrix Sample.no_idl Sample.extent bdata
      ([0; 10; 20]%Q, [-1; 1]%Q, [-1; 1]%Q, [-3; 0; 3]%Q) = Ok mat /\
    py_index 2 (-1) = Ok 1%nat.
Proof.
  intros bdata.
  destruct (low_coordinate_lands_in_last_bin Sample.no_idl Sample.extent bdata
              [0; 10; 20]%Q [-1; 1]%Q [-1; 1]%Q [-3; 0; 3]%Q)
    as (mat & idx & Hlons & Hmat & Hd & _); [simpl; lia..|].
  assert (idx = [0%Z]) as -> by (vm_compute in Hlons; congruence).
  exists mat. split; [exact Hmat|].
  refine (proj1 (proj2 (Hd 0%nat (-1, 0, 0, fun _ _ _ => (1 / 2)%R)%Z (-5)%Q 0%Q
                          _ eq_refl eq_refl _))).
  - reflexivity.
  - reflexivity.
Defined.

(** C8, the code at the failing inputs. With no context array at all the
    constructor fails on [srcs_or_ctxs[0]] with [IndexError]; with sources
    for which the context engine returns an empty list it fails in
    [numpy.concatenate] with [ValueError]. In both cases no rupture remains
    and the exception is not [FarAwayRupture], which is raised when the
    arrays are there and hold no row for the site. *)
Theorem Disaggregator_init_without_contexts :
  __init__ unit Sample.no_srcs (Contexts unit []) (ASite None)
    Sample.cm Sample.job_edges None = Raise IndexError /\
  __init__ unit Sample.no_srcs (Sources unit [tt]) (ASite None)
    Sample.cm Sample.job_edges None = Raise ValueError /\
  __init__ unit Sample.no_srcs
    (Contexts unit [[Sample.rup 0 6 10 0 0 1 []; Sample.rup 0 6 10 0 0 1 []]; []])
    (ASite (Some 1%nat)) Sample.cm
    {| job_mag_edges := [5; 6; 7]%Q; job_dist_edges := [0; 10; 20]%Q;
       job_lon_edges := {[ 1%nat := [-1; 1]%Q ]};
       job_lat_edges := {[ 1%nat := [-1; 1]%Q ]};
       job_eps_edges := [-3; 0; 3]%Q |} None = Raise FarAwayRupture.
Proof. repeat split. Qed.

(** The sample collaborators behave as a distribution. *)
Lemma sample_distribution_like : distribution_like Sample.cdf Sample.sf Sample.cm.
Proof.
  unfold distribution_like, Sample.sf, Sample.cdf. repeat split.
  - intros x y Hxy. destruct (Qlt_bool x 0) eqn:Ex, (Qlt_bool y 0) eqn:Ey; try lra.
    apply Qlt_bool_false in Ex. apply Qlt_bool_iff in Ey. lra.
  - intros x. destruct (Qlt_bool x 0); lra.
Qed.

Lemma sample_pnes_in_range : pnes_in_range Sample.pnes.
Proof.
  intros rate probs poes t _ _ _ e m p. unfold Sample.pnes.
  split; [apply Rmax_l|]. apply Rmax_lub; [lra | apply Rmin_l].
Qed.

Lemma sample_eps_edges_sorted : StronglySorted Qlt (eps_edges Sample.edges).
Proof. repeat constructor; reflexivity. Qed.

(** The state [init] leaves for the two sample sources, listed with the
    weights 1/2 and 1/2: the context sorted by source id, one row per
    source. *)
Lemma sample_init_mutex :
  init SampleJob.mean_stds SampleJob.runs SampleJob.sort_src SampleJob.two_sources 0
    (Some (SampleJob.listing (1 / 2) (1 / 2)))
  = Ok {| dis := SampleJob.two_sources; magi := 0;
          src_mutex := Some {| mutex_src_id := [0; 1]%nat;
                               mutex_weight := [(1 / 2)%R; (1 / 2)%R];
                               mutex_start := [0; 1]%nat;
                               mutex_stop := [1; 2]%nat |};
          ctx := [Sample.rup 0 6 5 0 0 1 []; Sample.rup 1 6 5 0 0 2 []];
          mea := fun _ _ _ => 0%Q;
          std := fun _ _ _ => 1%Q;
          weights := [(1 / 2)%R; (1 / 2)%R] |}.
Proof. reflexivity. Qed.

Lemma disagg6D_mutex_average_witness :
  exists (st : MagBin) (imlog2 : list (list ext)) (mats : list matrix) (avg : matrix),
    init SampleJob.mean_stds SampleJob.runs SampleJob.sort_src SampleJob.two_sources 0
      (Some (SampleJob.listing (1 / 2) (1 / 2))) = Ok st /\
    ctx st = [Sample.rup 0 6 5 0 0 1 []; Sample.rup 1 6 5 0 0 2 []] /\
    imlog2_of Sample.identity_values ["PGA"%string] [[-1]]%Q = Ok imlog2 /\
    Forall2 (fun r M =>
               _disaggregate Sample.cdf Sample.sf Sample.pnes Sample.no_idl
                 Sample.extent (take (r.2 - r.1) (drop r.1 (ctx st)))
                 (fun g m u => mea st g m (r.1 + u)%nat)
                 (fun g m u => std st g m (r.1 + u)%nat)
                 Sample.cm 0 imlog2 Sample.edges false
               = Ok M) [(0, 1); (1, 2)]%nat mats /\
    disagg6D Sample.cdf Sample.sf Sample.pnes Sample.no_idl Sample.extent
      Sample.identity_values st [[-1]]%Q 0 = Ok avg /\
    Forall2 (fun (run : nat * nat * nat) (w : R) =>
               exists j : nat,
                 [0; 1]%nat !! j = Some run.1.1 /\
                 [(1 / 2)%R; (1 / 2)%R] !! j = Some w)
      [(0, 0, 1); (1, 1, 2)]%nat (weights st).
Proof.
  pose proof sample_init_mutex as Hst.
  match type of Hst with _ = Ok ?s => set (st := s) in * end.
  exists st.
  destruct (disagg6D_mutex_average Sample.cdf Sample.sf Sample.pnes Sample.no_idl
              Sample.extent Sample.identity_values SampleJob.mean_stds SampleJob.runs
              SampleJob.sort_src st _ [[-1]]%Q 0 eq_refl)
    as (imlog2 & mats & avg & H1 & H2 & H3 & _ & _ & Hinit);
    [simpl; lia.. | reflexivity | simpl; lra |].
  destruct (Hinit _ _ _ Hst) as (_ & _ & _ & Halign).
  exists imlog2, mats, avg.
  split; [exact Hst|]. split; [reflexivity|].
  split; [exact H1|]. split; [exact H2|]. split; [exact H3|].
  apply Halign.
  - repeat constructor.
  - repeat constructor.
  - intros x Hx. exact Hx.
  - reflexivity.
Defined.

Lemma exceedance_range_witness :
  distribution_like Sample.cdf Sample.sf Sample.cm /\
  pnes_in_range Sample.pnes /\
  exists (mats : list matrix) (avg : matrix),
    length mats = 2%nat /\
    disagg6D Sample.cdf Sample.sf Sample.pnes Sample.no_idl Sample.extent
      Sample.identity_values (Sample.mutex_state (1 / 2) (1 / 2)) [[-1]]%Q 0 = Ok avg /\
    exists cell : arr3,
      cell_at avg 0 0 0 = Some cell /\
      forall e m p, (0 <= cell e m p <= 1)%R.
Proof.
  split; [exact sample_distribution_like|]. split; [exact sample_pnes_in_range|].
  destruct (exceedance_range Sample.cdf Sample.sf Sample.pnes Sample.no_idl
              Sample.extent Sample.identity_values
              (Sample.mutex_state (1 / 2) (1 / 2)) [[-1]]%Q 0
              sample_distribution_like (fun _ => sample_pnes_in_range)
              sample_eps_edges_sorted)
    as (_ & _ & Hmutex); [simpl; lia.. | simpl; lra | |].
  { intros rec Hrec. simpl in Hrec.
    apply elem_of_cons in Hrec as [->|Hrec]; [simpl; lra|].
    apply list_elem_of_singleton in Hrec as ->. simpl. lra. }
  destruct (Hmutex _ eq_refl) as (imlog2 & mats & avg & _ & HP & Havg & Hcells);
    [reflexivity | repeat constructor; lra | simpl; lra |].
  exists mats, avg. split; [symmetry; exact (Forall2_length _ _ _ HP)|].
  split; [exact Havg|].
  destruct (Hcells 0%nat 0%nat 0%nat) as (cells & cell & _ & Hcell & Hval);
    [simpl; lia..|].
  exists cell. split; [exact Hcell|]. intros e m p. apply Hval.
Defined.

(** C7, counterexample. Two mutually exclusive sources of weight 1/2 with
    one Poissonian rupture each, of rates 1 and 2, in the same cell, and a
    threshold one standard deviation below the mean. In the first epsilon
    bin the no-exceedance contributions of the two ruptures are
    [exp(-1)] and [exp(-2)]: the matrices of the two ranges hold
    [1 - exp(-1)] and [1 - exp(-2)], and [disagg6D] returns their mean
    [1 - (exp(-1) + exp(-2)) / 2], which is 1 minus no product of these
    contributions. *)
Lemma mutex_average_is_not_a_product :
  let st := Sample.mutex_state (1 / 2) (1 / 2) in
  exists (M1 M2 avg : matrix) (c1 c2 cell : arr3),
    disaggregate_range Sample.cdf Sample.sf Sample.pnes Sample.no_idl Sample.extent
      st 0 [[Fin (-1)]] 0 1 = Ok M1 /\
    disaggregate_range Sample.cdf Sample.sf Sample.pnes Sample.no_idl Sample.extent
      st 0 [[Fin (-1)]] 1 2 = Ok M2 /\
    disagg6D Sample.cdf Sample.sf Sample.pnes Sample.no_idl Sample.extent
      Sample.identity_values st [[-1]]%Q 0 = Ok avg /\
    cell_at M1 0 0 0 = Some c1 /\ cell_at M2 0 0 0 = Some c2 /\
    cell_at avg 0 0 0 = Some cell /\
    c1 0%nat 0%nat 0%nat = (1 - exp (-1))%R /\
    c2 0%nat 0%nat 0%nat = (1 - exp (-2))%R /\
    cell 0%nat 0%nat 0%nat = (1 - (exp (-1) + exp (-2)) / 2)%R /\
    cell 0%nat 0%nat 0%nat <> (1 - 1)%R /\
    cell 0%nat 0%nat 0%nat <> (1 - exp (-1))%R /\
    cell 0%nat 0%nat 0%nat <> (1 - exp (-2))%R /\
    cell 0%nat 0%nat 0%nat <> (1 - exp (-1) * exp (-2))%R.
Proof.
  intros st.
  assert (Ha : (0 < exp (-1) < 1)%R).
  { split; [apply exp_pos|]. rewrite <- exp_0. apply exp_increasing. lra. }
  assert (Hb : (exp (-2) = exp (-1) * exp (-1))%R).
  { rewrite <- exp_plus. f_equal. lra. }
  assert (Hcell : ((((1 - 1 * (1 * exp (- (1) * (1 - 0 - (1 - 1 + 0)) * 1))) * (1 / 2)
                    + ((1 - 1 * (1 * exp (- (2) * (1 - 0 - (1 - 1 + 0)) * 1))) * (1 / 2)
                       + 0)) / (1 / 2 + (1 / 2 + 0)))
                   = 1 - (exp (-1) + exp (-2)) / 2)%R).
  { replace (- (1) * (1 - 0 - (1 - 1 + 0)) * 1)%R with (-1)%R by lra.
    replace (- (2) * (1 - 0 - (1 - 1 + 0)) * 1)%R with (-2)%R by lra.
    field. }
  eexists _, _, _, _, _, _.
  split; [cbv -[exp Rminus Rdiv IZR]; reflexivity|].
  split; [cbv -[exp Rminus Rdiv IZR]; reflexivity|].
  split.
  { cbv -[exp Req_dec_T Rminus Rdiv IZR].
    match goal with |- context [Req_dec_T ?a ?b] => destruct (Req_dec_T a b) as [E|_] end;
      [exfalso; lra | reflexivity]. }
  split; [reflexivity|]. split; [reflexivity|]. split; [reflexivity|].
  split.
  { cbv -[exp Rminus Rdiv IZR].
    replace (- (1) * (1 - 0 - (1 - 1 + 0)) * 1)%R with (-1)%R by lra. lra. }
  split.
  { cbv -[exp Rminus Rdiv IZR].
    replace (- (2) * (1 - 0 - (1 - 1 + 0)) * 1)%R with (-2)%R by lra. lra. }
  split; [cbv -[exp Rminus Rdiv IZR]; exact Hcell|].
  cbv -[exp Rminus Rdiv IZR]. rewrite Hcell, Hb.
  repeat split; nra.
Qed.

(** ** Instances of the further properties *)

Lemma sample_mag_edges_sorted : StronglySorted Qlt [5; 6; 7]%Q.
Proof. repeat constructor; reflexivity. Qed.

Lemma sample_dist_edges_sorted : StronglySorted Qlt [0; 10; 20]%Q.
Proof. repeat constructor; reflexivity. Qed.

Lemma sample_poissonian (m d : Q) (rate : R) :
  forall rec, rec ∈ [Sample.rup 0 m d 0 0 rate []] -> probs_occur rec = [].
Proof. intros rec H. apply list_elem_of_singleton in H as ->. reflexivity. Qed.

(** The docstring of [uniform_bins]: the edges 1, 2, ..., 10 for the width
    1. *)
Example uniform_bins_docstring :
  exists edges : list double,
    uniform_bins (of_Z 1) (of_Z 10) (of_Z 1) = Ok edges /\
    map to_Q edges = [1; 2; 3; 4; 5; 6; 7; 8; 9; 10]%Q.
Proof. eexists. split; vm_compute; reflexivity. Qed.

(** The last edge can fall short of the maximum: from 0 to 0.9 in bins of
    0.3 the quotient rounds to 3, and the last edge [0.3 * 3] is
    0.8999999999999999. *)
Example uniform_bins_short :
  exists (edges : list double) (e : Q),
    uniform_bins (of_Z 0) (of_Q (9 # 10)) (of_Q (3 # 10)) = Ok edges /\
    length edges = 4%nat /\
    last (map to_Q edges) = Some e /\
    (e < to_Q (of_Q (9 # 10)))%Q.
Proof. eexists _, _. repeat split; vm_compute; reflexivity. Qed.

Lemma digitize_bin_index_witness :
  StronglySorted Qlt [0; 10; 20]%Q /\
  exists (i : Z) (k : nat),
    fold_last 2 (digitize_minus_1 [25]%Q [0; 10; 20]%Q) !! 0%nat = Some i /\
    py_index 2 i = Ok k /\ k = 1%nat.
Proof.
  split; [exact sample_dist_edges_sorted|].
  destruct (digitize_bin_index [0; 10; 20]%Q [25]%Q 0 25 0 20 sample_dist_edges_sorted)
    as (i & k & Hi & Hk & _ & Hout & _); [simpl; lia | reflexivity..|].
  exists i, k. split; [exact Hi|]. split; [exact Hk|].
  apply Hout. right. discriminate.
Defined.

Lemma default_eps_edges_witness :
  (0 < job_truncation_level SampleJob.oq)%Q /\
  (1 <= num_epsilon_bins SampleJob.oq)%nat /\
  length (build_eps_edges SampleJob.oq) = 5%nat /\
  StronglySorted Qlt (build_eps_edges SampleJob.oq) /\
  last (build_eps_edges SampleJob.oq) = Some 3%Q.
Proof.
  assert (H1 : (0 < job_truncation_level SampleJob.oq)%Q) by reflexivity.
  assert (H2 : (1 <= num_epsilon_bins SampleJob.oq)%nat) by (simpl; lia).
  split; [exact H1|]. split; [exact H2|].
  destruct (default_eps_edges Sample.cdf SampleJob.oq 3 eq_refl H1 H2)
    as (Hlen & Hs & _ & Hl & _).
  repeat (split; [assumption|]); assumption.
Defined.

Lemma get_eps4_mass_witness :
  StronglySorted Qlt [-3; 0; 3]%Q /\
  exists (min_eps max_eps : Q) (eps_bands eps_cum : list R),
    get_eps4 Sample.cdf [-3; 0; 3]%Q 3 = Ok (min_eps, max_eps, eps_bands, eps_cum) /\
    Rsum eps_bands = (Sample.cdf 3 3 - Sample.cdf 3 (-3))%R /\
    Forall (fun b => (0 <= b)%R) eps_bands.
Proof.
  assert (Hs : StronglySorted Qlt [-3; 0; 3]%Q) by (repeat constructor; reflexivity).
  split; [exact Hs|].
  destruct (get_eps4_mass Sample.cdf [-3; 0; 3]%Q 3 (-3) 3 Hs eq_refl eq_refl
              (proj1 sample_distribution_like))
    as (mn & mx & bands & cum & Hget & _ & _ & Hsum & _ & _ & Hpos & _).
  exists mn, mx, bands, cum. repeat (split; [assumption|]); assumption.
Defined.

Lemma residual_outside_edges_witness :
  StronglySorted Qlt [-3; 0; 3]%Q /\
  exists (mn mx : Q) (bands cum : list R) (t : list (list R)),
    get_eps4 Sample.cdf [-3; 0; 3]%Q 3 = Ok (mn, mx, bands, cum) /\
    poes_slice Sample.sf 1 (fun _ _ _ => 0%Q) (fun _ _ _ => 1%Q) Sample.cm 0 0
      [-3; 0; 3]%Q mn mx bands cum false (Fin 5) = Ok t /\
    t !! 0%nat = Some (replicate (length bands) 0%R).
Proof.
  assert (Hs : StronglySorted Qlt [-3; 0; 3]%Q) by (repeat constructor; reflexivity).
  split; [exact Hs|].
  destruct (residual_outside_edges Sample.cdf Sample.sf 1 (fun _ _ _ => 0%Q)
              (fun _ _ _ => 1%Q) Sample.cm 0 0 [-3; 0; 3]%Q _ _ _ _ 5 Hs eq_refl)
    as (t & Ht & _ & Hrows).
  destruct (Hrows 0%nat ltac:(lia)) as (row & Hrow & _ & _ & Hhigh).
  eexists _, _, _, _, t. split; [reflexivity|]. split; [exact Ht|].
  rewrite Hrow. f_equal. apply (Hhigh 3%Q eq_refl). reflexivity.
Defined.

Lemma epsstar_row_witness :
  StronglySorted Qlt [-3; 0; 3]%Q /\
  exists (mn mx : Q) (bands cum : list R) (t : list (list R)),
    get_eps4 Sample.cdf [-3; 0; 3]%Q 3 = Ok (mn, mx, bands, cum) /\
    poes_slice Sample.sf 1 (fun _ _ _ => 0%Q) (fun _ _ _ => 1%Q) Sample.cm 0 0
      [-3; 0; 3]%Q mn mx bands cum true (Fin (-3)) = Ok t /\
    t !! 0%nat
    = Some (<[1%nat := Sample.sf 1 ((-3 - 0) / 1)]> (replicate (length bands) 0%R)).
Proof.
  assert (Hs : StronglySorted Qlt [-3; 0; 3]%Q) by (repeat constructor; reflexivity).
  split; [exact Hs|].
  destruct (epsstar_row Sample.cdf Sample.sf 1 (fun _ _ _ => 0%Q)
              (fun _ _ _ => 1%Q) Sample.cm 0 0 [-3; 0; 3]%Q _ _ _ _ (-3) Hs eq_refl)
    as (t & Ht & _ & Hrows).
  destruct (Hrows 0%nat ltac:(lia)) as (row & Hrow & _ & _ & Hfirst & _).
  eexists _, _, _, _, t. split; [reflexivity|]. split; [exact Ht|].
  rewrite Hrow. f_equal. apply (Hfirst (-3)%Q 3%Q eq_refl eq_refl); reflexivity.
Defined.

Lemma poissonian_zero_cells_witness :
  (forall rec, rec ∈ [Sample.rup 0 6 5 0 0 1 []] -> probs_occur rec = []) /\
  exists (mat : matrix) (cell : arr3),
    _disaggregate Sample.cdf Sample.sf Sample.pnes Sample.no_idl Sample.extent
      [Sample.rup 0 6 5 0 0 1 []] (fun _ _ _ => 0%Q) (fun _ _ _ => 1%Q) Sample.cm 0
      [[NegInf]] Sample.edges false = Ok mat /\
    cell_at mat 0 0 0 = Some cell /\ cell 0%nat 0%nat 0%nat = 0%R.
Proof.
  split; [exact (sample_poissonian 6 5 1)|].
  destruct (poissonian_zero_cells Sample.cdf Sample.sf Sample.pnes Sample.no_idl
              Sample.extent [Sample.rup 0 6 5 0 0 1 []] (fun _ _ _ => 0%Q)
              (fun _ _ _ => 1%Q) Sample.cm 0 [[NegInf]] Sample.edges false)
    as (mat & Hmat & Hcells); [simpl; lia.. | exact (sample_poissonian 6 5 1) |].
  destruct (Hcells 0%nat 0%nat 0%nat) as (cell & Hcell & Hzero & _); [simpl; lia..|].
  exists mat, cell. split; [exact Hmat|]. split; [exact Hcell|].
  exact (Hzero 0%nat 0%nat 0%nat [NegInf] eq_refl eq_refl).
Defined.

Lemma poissonian_time_span_monotone_witness :
  distribution_like Sample.cdf Sample.sf Sample.cm /\
  (time_span Sample.cm <= 2)%R /\
  exists (mat mat' : matrix) (cell cell' : arr3),
    _disaggregate Sample.cdf Sample.sf Sample.pnes Sample.no_idl Sample.extent
      [Sample.rup 0 6 5 0 0 1 []] (fun _ _ _ => 0%Q) (fun _ _ _ => 1%Q) Sample.cm 0
      [[Fin (-1)]] Sample.edges false = Ok mat /\
    _disaggregate Sample.cdf Sample.sf Sample.pnes Sample.no_idl Sample.extent
      [Sample.rup 0 6 5 0 0 1 []] (fun _ _ _ => 0%Q) (fun _ _ _ => 1%Q)
      {| truncation_level := 3; phi_b := 1; time_span := 2;
         imtls := ["PGA"%string]; imts := ["PGA"%string]; epsilon_star := false |} 0
      [[Fin (-1)]] Sample.edges false = Ok mat' /\
    cell_at mat 0 0 0 = Some cell /\ cell_at mat' 0 0 0 = Some cell' /\
    (cell 0%nat 0%nat 0%nat <= cell' 0%nat 0%nat 0%nat)%R.
Proof.
  assert (Ht : (time_span Sample.cm <= 2)%R) by (simpl; lra).
  split; [exact sample_distribution_like|]. split; [exact Ht|].
  destruct (poissonian_time_span_monotone Sample.cdf Sample.sf Sample.pnes Sample.no_idl
              Sample.extent [Sample.rup 0 6 5 0 0 1 []] (fun _ _ _ => 0%Q)
              (fun _ _ _ => 1%Q) Sample.cm 2 0 [[Fin (-1)]] Sample.edges false
              sample_distribution_like sample_eps_edges_sorted)
    as (mat & mat' & Hmat & Hmat' & Hcells);
    [simpl; lia.. | exact (sample_poissonian 6 5 1) | | exact Ht |].
  { intros rec Hrec. apply list_elem_of_singleton in Hrec as ->. simpl. lra. }
  destruct (Hcells 0%nat 0%nat 0%nat) as (cell & cell' & Hc & Hc' & Hle); [simpl; lia..|].
  exists mat, mat', cell, cell'. split; [exact Hmat|]. split; [exact Hmat'|].
  split; [exact Hc|]. split; [exact Hc'|]. apply Hle.
Defined.

Lemma build_disagg_matrix_order_witness :
  let p1 : arr3 := fun _ _ _ => (1 / 2)%R in
  let p2 : arr3 := fun _ _ _ => (1 / 4)%R in
  [(5, 0, 0, p1); (15, 0, 0, p2)]%Q ≡ₚ [(15, 0, 0, p2); (5, 0, 0, p1)]%Q /\
  exists mat mat' : matrix,
    _build_disagg_matrix Sample.no_idl Sample.extent
      {| dists := [5; 15]%Q; lons := [0; 0]%Q; lats := [0; 0]%Q; pnes := [p1; p2] |}
      ([0; 10; 20]%Q, [-1; 1]%Q, [-1; 1]%Q, [-3; 0; 3]%Q) = Ok mat /\
    _build_disagg_matrix Sample.no_idl Sample.extent
      {| dists := [15; 5]%Q; lons := [0; 0]%Q; lats := [0; 0]%Q; pnes := [p2; p1] |}
      ([0; 10; 20]%Q, [-1; 1]%Q, [-1; 1]%Q, [-3; 0; 3]%Q) = Ok mat'.
Proof.
  intros p1 p2.
  assert (Hp : [(5, 0, 0, p1); (15, 0, 0, p2)]%Q ≡ₚ [(15, 0, 0, p2); (5, 0, 0, p1)]%Q)
    by apply perm_swap.
  split; [exact Hp|].
  destruct (build_disagg_matrix_order Sample.no_idl Sample.extent _ _
              [0; 10; 20]%Q [-1; 1]%Q [-1; 1]%Q [-3; 0; 3]%Q Hp)
    as (mat & mat' & Hmat & Hmat' & _); [simpl; lia..|].
  exists mat, mat'. split; [exact Hmat | exact Hmat'].
Defined.

Lemma digitize_lons_date_line_witness :
  SampleJob.idl 170%Q (List.last [170; 180; -170]%Q 170%Q) = true /\
  exists idx : list Z,
    _digitize_lons SampleJob.idl Sample.extent [175]%Q [170; 180; -170]%Q = Ok idx /\
    length idx = 1%nat.
Proof.
  assert (H : SampleJob.idl 170%Q (List.last [170; 180; -170]%Q 170%Q) = true) by reflexivity.
  split; [exact H|].
  destruct (digitize_lons_date_line SampleJob.idl Sample.extent [175]%Q
              [170; 180; -170]%Q 170%Q eq_refl H) as (idx & Hidx & Hlen & _).
  exists idx. repeat (split; [assumption|]); assumption.
Defined.

Lemma Disaggregator_init_invariant_witness :
  exists d : Disaggregator,
    __init__ unit Sample.no_srcs (Contexts unit [[Sample.rup 0 6 5 0 0 1 []]])
      (ASite None) Sample.cm Sample.job_edges None = Ok d /\
    fullctx d <> [] /\ length (fullmagi d) = length (fullctx d).
Proof.
  eexists. split; [reflexivity|].
  destruct (Disaggregator_init_invariant unit Sample.no_srcs
              (Contexts unit [[Sample.rup 0 6 5 0 0 1 []]]) (ASite None) Sample.cm
              Sample.job_edges None _ eq_refl) as (Hne & _ & Hlen & _).
  split; [exact Hne | exact Hlen].
Defined.

Lemma disagg_mag_dist_eps_needs_every_bin_witness :
  ({[ 0%nat := 0%nat ]} : gmap nat nat) !! 0%nat = Some 0%nat /\
  exists mat5 : list (list arr3),
    disagg_mag_dist_eps Sample.cdf Sample.sf Sample.pnes Sample.no_idl Sample.extent
      Sample.identity_values SampleJob.mean_stds SampleJob.one_run SampleJob.keep_order
      SampleJob.pprod SampleJob.two_bins {[ 0%nat := 0%nat ]} [[-1]]%Q 0 None = Ok mat5 /\
    length mat5 = 2%nat.
Proof.
  assert (Hg : ({[ 0%nat := 0%nat ]} : gmap nat nat) !! 0%nat = Some 0%nat) by reflexivity.
  split; [exact Hg|].
  destruct (disagg_mag_dist_eps_needs_every_bin Sample.cdf Sample.sf Sample.pnes
              Sample.no_idl Sample.extent Sample.identity_values SampleJob.mean_stds
              SampleJob.one_run SampleJob.keep_order SampleJob.pprod SampleJob.two_bins
              {[ 0%nat := 0%nat ]} [[-1]]%Q 0 0) as [Hall _];
    [simpl; lia.. | exact Hg |].
  destruct Hall as (mat5 & H5 & Hlen & _).
  { intros i Hi. destruct i as [|[|i]]; [discriminate | discriminate | simpl in Hi; lia]. }
  exists mat5. split; [exact H5 | exact Hlen].
Defined.

Lemma disagg6D_single_mutex_source_witness :
  ((1 / 2)%R <> 0%R) /\
  exists (mat avg : matrix),
    _disaggregate Sample.cdf Sample.sf Sample.pnes Sample.no_idl Sample.extent
      [Sample.rup 0 6 5 0 0 1 []] (fun _ _ _ => 0%Q) (fun _ _ _ => 1%Q) Sample.cm 0
      [[Fin (-1)]] Sample.edges false = Ok mat /\
    disagg6D Sample.cdf Sample.sf Sample.pnes Sample.no_idl Sample.extent
      Sample.identity_values (SampleJob.single_mutex (1 / 2)) [[-1]]%Q 0 = Ok avg /\
    skeleton avg = skeleton mat.
Proof.
  assert (Hw : ((1 / 2)%R <> 0%R)) by lra.
  split; [exact Hw|].
  destruct (disagg6D_single_mutex_source Sample.cdf Sample.sf Sample.pnes Sample.no_idl
              Sample.extent Sample.identity_values (SampleJob.single_mutex (1 / 2))
              {| mutex_src_id := [0]%nat; mutex_weight := [(1 / 2)%R];
                 mutex_start := [0]%nat; mutex_stop := [1]%nat |}
              [[-1]]%Q 0 (1 / 2)%R eq_refl eq_refl eq_refl eq_refl Hw)
    as (imlog2 & mat & avg & Himl & Hmat & Havg & Hsk & _); [simpl; lia..|].
  injection Himl as <-.
  exists mat, avg. split; [exact Hmat|]. split; [exact Havg | exact Hsk].
Defined.

Lemma disagg6D_mutex_errors_witness :
  Rsum (weights (Sample.mutex_state 1 (-1))) = 0%R /\
  disagg6D Sample.cdf Sample.sf Sample.pnes Sample.no_idl Sample.extent
    Sample.identity_values (Sample.mutex_state 1 (-1)) [[-1]]%Q 0
  = Raise ZeroDivisionError.
Proof.
  assert (Hsum : Rsum (weights (Sample.mutex_state 1 (-1))) = 0%R) by (simpl; lra).
  split; [exact Hsum|].
  destruct (disagg6D_mutex_errors Sample.cdf Sample.sf Sample.pnes Sample.no_idl
              Sample.extent Sample.identity_values (Sample.mutex_state 1 (-1))
              {| mutex_src_id := [0; 1]%nat; mutex_weight := [1%R; (-1)%R];
                 mutex_start := [0; 1]%nat; mutex_stop := [1; 2]%nat |}
              [[-1]]%Q 0 eq_refl) as [_ Hzero]; [simpl; lia..|].
  exact (Hzero eq_refl Hsum).
Defined.

Lemma build_bin_edges_same_shape_witness :
  exists edges : JobBinEdges,
    _build_bin_edges SampleJob.grid SampleJob.oq [SampleJob.site0; SampleJob.site7]
    = Ok edges /\
    forall s1 s2 e1 e2,
      job_lon_edges edges !! s1 = Some e1 -> job_lon_edges edges !! s2 = Some e2 ->
      length e1 = length e2.
Proof.
  assert (H : { edges | _build_bin_edges SampleJob.grid SampleJob.oq
                          [SampleJob.site0; SampleJob.site7] = Ok edges })
    by (eexists; reflexivity).
  destruct H as [edges H]. exists edges. split; [exact H|].
  exact (proj1 (proj2 (build_bin_edges_same_shape SampleJob.grid SampleJob.oq
                         [SampleJob.site0; SampleJob.site7] edges H))).
Defined.

Lemma lon_lat_edges_given_witness :
  (disagg_bin_edges_lon SampleJob.oq_lon_lat <> None
   \/ disagg_bin_edges_lat SampleJob.oq_lon_lat <> None) /\
  build_lon_lat_edges SampleJob.grid SampleJob.oq_lon_lat [SampleJob.site7]
  = Ok ({[ 0%nat := [-1; 0; 1]%Q ]}, {[ 0%nat := [-1; 1]%Q ]}) /\
  __init__ unit Sample.no_srcs (Contexts unit [[Sample.rup 0 6 5 0 0 1 []]])
    (ASiteCollection [7%nat]) Sample.cm
    {| job_mag_edges := [5; 6; 7]%Q; job_dist_edges := [0; 10; 20]%Q;
       job_lon_edges := {[ 0%nat := [-1; 0; 1]%Q ]};
       job_lat_edges := {[ 0%nat := [-1; 1]%Q ]};
       job_eps_edges := [-3; 0; 3]%Q |} None = Raise KeyError.
Proof.
  assert (H : disagg_bin_edges_lon SampleJob.oq_lon_lat <> None
              \/ disagg_bin_edges_lat SampleJob.oq_lon_lat <> None)
    by (left; discriminate).
  split; [exact H|].
  destruct (lon_lat_edges_given unit Sample.no_srcs SampleJob.grid SampleJob.oq_lon_lat
              [SampleJob.site7] H) as [_ Hone].
  destruct (Hone eq_refl) as [_ Hboth].
  destruct (Hboth [-1; 0; 1]%Q [-1; 1]%Q eq_refl eq_refl) as [Hb Hinit].
  split; [exact Hb|].
  apply Hinit; [reflexivity | discriminate].
Defined.

Lemma shapedic_matches_matrix_witness :
  exists (edges : JobBinEdges) (trts : list unit) (dic : ShapeDic),
    get_edges_shapedic SampleJob.grid SampleJob.oq [SampleJob.site0] None
    = Ok (edges, trts, dic) /\
    (1 <= shape_P dic)%nat /\ shape_N dic = 1%nat.
Proof.
  assert (H : { r | get_edges_shapedic SampleJob.grid SampleJob.oq [SampleJob.site0] None
                    = Ok r }) by (eexists; reflexivity).
  destruct H as [[[edges trts] dic] H]. exists edges, trts, dic. split; [exact H|].
  destruct (shapedic_matches_matrix Sample.cdf Sample.sf Sample.pnes Sample.no_idl
              Sample.extent unit Sample.no_srcs SampleJob.grid SampleJob.oq
              [SampleJob.site0] None edges trts dic H)
    as (_ & _ & _ & _ & HN & HP & _).
  split; [exact HP | exact HN].
Defined.

Lemma magnitude_selections_partition_witness :
  let c := [Sample.rup 0 (11 # 2) 5 0 0 1 []; Sample.rup 0 8 5 0 0 1 []] in
  StronglySorted Qlt [5; 6; 7]%Q /\
  concat (map (fun i => select_magi (Z.of_nat i) c (magnitude_bins [5; 6; 7]%Q c))
            (seq 0 2))
  ≡ₚ List.filter (fun rec => Qle_bool (mag rec) 7) c.
Proof.
  intros c. split; [exact sample_mag_edges_sorted|].
  exact (magnitude_selections_partition [5; 6; 7]%Q c 7 sample_mag_edges_sorted
           ltac:(simpl; lia) eq_refl).
Defined.

Lemma poissonian_cell_closed_form_witness :
  (forall rec, rec ∈ [Sample.rup 0 6 5 0 0 1 []] -> probs_occur rec = []) /\
  exists (mat : matrix) (cell : arr3),
    _disaggregate Sample.cdf Sample.sf Sample.pnes Sample.no_idl Sample.extent
      [Sample.rup 0 6 5 0 0 1 []] (fun _ _ _ => 0%Q) (fun _ _ _ => 1%Q) Sample.cm 0
      [[Fin (-1)]] Sample.edges false = Ok mat /\
    cell_at mat 0 0 0 = Some cell.
Proof.
  split; [exact (sample_poissonian 6 5 1)|].
  destruct (poissonian_cell_closed_form Sample.cdf Sample.sf Sample.pnes Sample.no_idl
              Sample.extent [Sample.rup 0 6 5 0 0 1 []] (fun _ _ _ => 0%Q)
              (fun _ _ _ => 1%Q) Sample.cm 0 [[Fin (-1)]] Sample.edges false)
    as (E & slices & idx & mat & _ & _ & Hmat & Hcells);
    [simpl; lia.. | exact (sample_poissonian 6 5 1) |].
  destruct (Hcells 0%nat 0%nat 0%nat) as (cell & Hcell & _); [simpl; lia..|].
  exists mat, cell. split; [exact Hmat | exact Hcell].
Defined.
